(** * DISC3D Metashape batch pipelines: a shallow embedding

    This development models the two batch scripts of the repository,

    - [src/disc3d_batch_metashape.py]            ("Method B"), and
    - [src/disc3d_methodA_from_calibrated_xml.py] ("Method A"),

    as Rocq functions, and proves properties of the scan-list reader, of
    the per-scan validation, of the per-scan pipeline and of the batch
    runner.

    The reconstruction engine (the [Metashape] module) is external to the
    repository.  It is modelled as an arbitrary oracle: every interaction
    with an engine object (a method call, an attribute read or write)
    is handed to a function [respond] that either returns a value or
    raises a Python exception, and that may keep any state of its own.
    Every interaction is appended to a log together with its outcome, so
    that properties of the scripts are stated over the log and hold for
    every engine.

    Conventions.
    - Python [str] values are Rocq [string]s; only ASCII character classes
      are modelled (the Unicode digits and spaces that [\d], [\s] and
      [str.strip] also accept are outside the model).
    - Path comparison and globbing are those of a POSIX host
      (case sensitive); glob patterns are limited to literal characters,
      [*] and [?], matched against a single path component.  The
      patterns of the scripts themselves are of this kind; for the
      pattern the user gives with [--xml-glob] the fragment is the
      predicate [FS.plain], and what is stated of the lookup of the
      calibrated cameras is stated for a pattern of the fragment.
    - A file that is read is valid UTF-8 text, bytes with some that are
      not UTF-8, or a path that cannot be read ([FS.file]); the strict
      reading of Method B and the reading with [errors="ignore"] of
      Method A differ on the second.
    - Line 33 of the Method A script puts an [if] statement after a
      semicolon, which Python does not parse; the model reads that line as
      the two statements it visibly stands for (the same two statements
      the Method B script has). *)

From Stdlib Require Import List String Ascii Bool Arith NArith ZArith QArith Lia.
From Stdlib Require Import DecimalString HexadecimalString.
From Stdlib Require Import Permutation.
Import ListNotations.
Local Close Scope Q_scope.
Local Open Scope nat_scope.
Local Open Scope list_scope.
Local Open Scope string_scope.

(* ================================================================== *)
(** * Part I. Definitions *)
(* ================================================================== *)

(** ** Strings *)

Module Str.

Definition is_empty (s : string) : bool :=
  match s with EmptyString => true | String _ _ => false end.

(** [str.isspace] on one ASCII character: TAB, LF, VT, FF, CR, the four
    information separators 0x1c-0x1f, and the space. *)
Definition isspace (c : ascii) : bool :=
  let n := N_of_ascii c in
  ((9 <=? n) && (n <=? 13) || (28 <=? n) && (n <=? 32))%N.

(** [\d] on one ASCII character. *)
Definition isdigit (c : ascii) : bool :=
  let n := N_of_ascii c in ((48 <=? n) && (n <=? 57))%N.

Fixpoint all_space (s : string) : bool :=
  match s with
  | EmptyString => true
  | String c s' => isspace c && all_space s'
  end.

(** [s.lstrip()] *)
Fixpoint lstrip (s : string) : string :=
  match s with
  | EmptyString => EmptyString
  | String c s' => if isspace c then lstrip s' else s
  end.

(** [s.rstrip()] *)
Fixpoint rstrip (s : string) : string :=
  match s with
  | EmptyString => EmptyString
  | String c s' =>
      let r := rstrip s' in
      if is_empty r && isspace c then EmptyString else String c r
  end.

(** [s.strip()] *)
Definition strip (s : string) : string := rstrip (lstrip s).

(** [s.startswith(p)] *)
Fixpoint startswith (p s : string) : bool :=
  match p with
  | EmptyString => true
  | String a p' =>
      match s with
      | EmptyString => false
      | String b s' => Ascii.eqb a b && startswith p' s'
      end
  end.

(** [s.endswith(p)] *)
Definition endswith (p s : string) : bool :=
  (length p <=? length s)%nat
  && String.eqb (substring (length s - length p) (length p) s) p.

(** The boundaries [str.splitlines] recognises among ASCII characters,
    apart from the two-character boundary CR LF: LF, VT, FF, CR and the
    separators 0x1c, 0x1d, 0x1e. *)
Definition is_linebreak (c : ascii) : bool :=
  let n := N_of_ascii c in
  ((10 <=? n) && (n <=? 13) || (28 <=? n) && (n <=? 30))%N.

Definition is_cr (c : ascii) : bool := (N_of_ascii c =? 13)%N.
Definition is_lf (c : ascii) : bool := (N_of_ascii c =? 10)%N.

(** [text.splitlines()]: [cur] is the line read so far.  A final line
    without a line break is kept when it is not empty. *)
Fixpoint splitlines_from (cur : string) (s : string) : list string :=
  match s with
  | EmptyString => if is_empty cur then [] else [cur]
  | String c s' =>
      if is_cr c then
        match s' with
        | String d s'' =>
            if is_lf d then cur :: splitlines_from EmptyString s''
            else cur :: splitlines_from EmptyString s'
        | EmptyString => cur :: splitlines_from EmptyString s'
        end
      else if is_linebreak c then cur :: splitlines_from EmptyString s'
      else splitlines_from (cur ++ String c EmptyString) s'
  end.

Definition splitlines (s : string) : list string :=
  splitlines_from EmptyString s.

(** [old in s] for a non-empty [old]. *)
Fixpoint contains (old s : string) : bool :=
  startswith old s
  || match s with
     | EmptyString => false
     | String _ s' => contains old s'
     end.

(** [s.replace(old, '')] for a non-empty [old]: every non-overlapping
    occurrence, scanning from the left, is removed.  [skip] counts the
    characters of the occurrence being removed that are still to drop. *)
Fixpoint remove_from (skip : nat) (old s : string) : string :=
  match s with
  | EmptyString => EmptyString
  | String c s' =>
      match skip with
      | S k => remove_from k old s'
      | O =>
          if startswith old s then remove_from (length old - 1) old s'
          else String c (remove_from 0 old s')
      end
  end.

Definition remove_all (old s : string) : string := remove_from 0 old s.

(** [s.split(sep)[0]]: the part of [s] before the first [sep]
    (all of [s] when [sep] does not occur). *)
Fixpoint before_first (sep s : string) : string :=
  match s with
  | EmptyString => EmptyString
  | String c s' => if startswith sep s then EmptyString else String c (before_first sep s')
  end.

(** Python's order on [str], by code point. *)
Definition leb (a b : string) : bool := String.leb a b.

Fixpoint insert_sorted (x : string) (l : list string) : list string :=
  match l with
  | [] => [x]
  | y :: l' => if leb x y then x :: l else y :: insert_sorted x l'
  end.

(** [sorted(l)] on strings. *)
Fixpoint sorted (l : list string) : list string :=
  match l with
  | [] => []
  | x :: l' => insert_sorted x (sorted l')
  end.

End Str.

(** ** Reading the scan list: [read_dates] *)

Module ScanList.
Import Str.

(** Consume exactly [n] digits ([\d{n}]) at the start of [s]. *)
Fixpoint digits (n : nat) (s : string) : option string :=
  match n with
  | O => Some s
  | S k =>
      match s with
      | String c s' => if isdigit c then digits k s' else None
      | EmptyString => None
      end
  end.

(** [\d{8}T\d{6}] at the start of [s]; the result is what follows it. *)
Definition stamp_prefix (s : string) : option string :=
  match digits 8 s with
  | Some (String c r) => if Ascii.eqb c "T" then digits 6 r else None
  | _ => None
  end.

(** The whole of [s] matches [^\d{8}T\d{6}$] ([s] holds no line break). *)
Definition is_stamp (s : string) : bool :=
  match stamp_prefix s with
  | Some EmptyString => true
  | _ => false
  end.

(** [pat.match(line)] for [pat = ^\s*(\d{8}T\d{6})\s*$], giving
    [m.group(1)].  A digit is never a space, so the leading [\s*] takes
    all the leading spaces and the group is the next 15 characters. *)
Definition match_date (line : string) : option string :=
  let s := lstrip line in
  match stamp_prefix s with
  | Some rest => if all_space rest then Some (substring 0 15 s) else None
  | None => None
  end.

(** What the regular expression means: [line] is spaces, then a
    timestamp [core], then spaces. *)
Definition re_date (line core : string) : Prop :=
  exists w1 w2,
    line = w1 ++ core ++ w2
    /\ all_space w1 = true /\ is_stamp core = true /\ all_space w2 = true.

(** The body of the [for] loop of [read_dates], over the lines. *)
Fixpoint read_lines (lines : list string) : list string :=
  match lines with
  | [] => []
  | line :: rest =>
      if is_empty (strip line) || startswith "#" (lstrip line)
      then read_lines rest                       (* continue *)
      else match match_date line with
           | Some d => d :: read_lines rest      (* dates.append(m.group(1)) *)
           | None => read_lines rest
           end
  end.

(** [read_dates(txt_path)], on the text of the file. *)
Definition read_dates (text : string) : list string :=
  read_lines (splitlines text).

End ScanList.

(** ** The file system under the root folder *)

Module FS.
Import Str.

(** A path is the list of its components; [p / name] appends one. *)
Definition path := list string.

(** [p.name] *)
Definition name (p : path) : string := last p EmptyString.

(** [str(p)] *)
Definition path_str (p : path) : string := String.concat "/" p.

(** [p / nm] *)
Definition child (p : path) (nm : string) : path := (p ++ [nm])%list.

(** Order of [Path] objects: component by component. *)
Fixpoint path_leb (p q : path) : bool :=
  match p, q with
  | [], _ => true
  | _ :: _, [] => false
  | a :: p', b :: q' =>
      if String.eqb a b then path_leb p' q' else Str.leb a b
  end.

Fixpoint insert_path (x : path) (l : list path) : list path :=
  match l with
  | [] => [x]
  | y :: l' => if path_leb x y then x :: l else y :: insert_path x l'
  end.

(** [sorted(l)] on paths. *)
Fixpoint sorted_paths (l : list path) : list path :=
  match l with
  | [] => []
  | x :: l' => insert_path x (sorted_paths l')
  end.

Fixpoint path_eqb (p q : path) : bool :=
  match p, q with
  | [], [] => true
  | a :: p', b :: q' => String.eqb a b && path_eqb p' q'
  | _, _ => false
  end.

(** One entry of a scan folder: its name and, for a directory, the names
    of its own entries in the order the host lists them ([None] for a
    regular file). *)
Record entry := { e_name : string; e_children : option (list string) }.

Definition is_dir (e : entry) : bool :=
  match e_children e with Some _ => true | None => false end.

(** The entries of a folder, in the order the host lists them. *)
Definition folder := list entry.

(** What [read_text] meets at a path that exists: valid UTF-8 text; bytes
    of which some are not UTF-8, where [t] is the text that is left when
    these bytes are skipped ([errors="ignore"]) and [msg] the message of
    the [UnicodeDecodeError] that a strict reading raises; or something
    that cannot be read as a file (a directory, a file without read
    permission), [msg] being the message of the [OSError]. *)
Inductive file :=
| Text (t : string)
| Damaged (t : string) (msg : string)
| Unreadable (msg : string).

(** What the scripts see of the host: whether [--root] exists, the files
    at [--list] and [--mm-prj] ([None]: the path does not exist), and the
    entries found below the root ([None]: not a directory), in the order
    a recursive walk yields them. *)
Record fs := {
  root_exists : bool;
  list_file : option file;
  prj_file : option file;
  tree : list (path * option folder)
}.

Fixpoint tree_get (p : path) (t : list (path * option folder)) : option folder :=
  match t with
  | [] => None
  | (q, n) :: t' => if path_eqb p q then n else tree_get p t'
  end.

Fixpoint tree_set (p : path) (f : folder) (t : list (path * option folder))
  : list (path * option folder) :=
  match t with
  | [] => []
  | (q, n) :: t' =>
      if path_eqb p q then (q, Some f) :: t' else (q, n) :: tree_set p f t'
  end.

(** The entries of the directory at [p] (none when [p] is not one). *)
Definition listdir (d : fs) (p : path) : folder :=
  match tree_get p (tree d) with Some f => f | None => [] end.

Definition with_folder (d : fs) (p : path) (f : folder) : fs :=
  {| root_exists := root_exists d; list_file := list_file d;
     prj_file := prj_file d; tree := tree_set p f (tree d) |}.

(** [fnmatch] for patterns made of literal characters, [*] and [?]. *)
Fixpoint fnmatch (pat : string) : string -> bool :=
  match pat with
  | EmptyString => fun s => is_empty s
  | String p pat' =>
      if Ascii.eqb p "*" then
        fix star (s : string) : bool :=
          fnmatch pat' s
          || match s with
             | EmptyString => false
             | String _ s' => star s'
             end
      else
        fun s =>
          match s with
          | EmptyString => false
          | String c s' => (Ascii.eqb p "?" || Ascii.eqb p c) && fnmatch pat' s'
          end
  end.

(** [dir.glob(pat)]: the entries whose name matches, in host order. *)
Definition glob (pat : string) (f : folder) : list entry :=
  filter (fun e => fnmatch pat (e_name e)) f.

(** The patterns for which [Path.glob] is the matching of [fnmatch]
    above against the names directly in the directory: one path
    component (no [/], and no backslash, a separator on Windows), not
    empty, not [.] or [..], without a character class (no bracket),
    without [**] and without a NUL character.  For any other pattern
    [Path.glob] does something else: it descends into subdirectories or
    yields the directory itself ([**]), it matches a class of characters,
    or it raises ([ValueError], [NotImplementedError], [IndexError]). *)
Definition plain (pat : string) : bool :=
  negb (Str.is_empty pat)
  && negb (Str.contains "/" pat)
  && negb (Str.contains (String "092" EmptyString) pat)
  && negb (Str.contains "[" pat)
  && negb (Str.contains "]" pat)
  && negb (Str.contains "**" pat)
  && negb (Str.contains (String "000" EmptyString) pat)
  && negb (String.eqb pat ".")
  && negb (String.eqb pat "..").

Fixpoint find_entry (nm : string) (f : folder) : option entry :=
  match f with
  | [] => None
  | e :: f' => if String.eqb (e_name e) nm then Some e else find_entry nm f'
  end.

(** [(dir / nm).glob(pat)], as names: nothing when [dir / nm] is missing
    or is a regular file. *)
Definition glob_in (nm pat : string) (f : folder) : list string :=
  match find_entry nm f with
  | Some {| e_children := Some names |} => filter (fnmatch pat) names
  | _ => []
  end.

Definition has_newline (s : string) : bool :=
  Str.contains (String "010" EmptyString) s.

(** [s] without its last [n] characters. *)
Definition drop_last (n : nat) (s : string) : string :=
  substring 0 (length s - n) s.

(** [re.match(r"^(.+?)__edof$", nm)], giving [m.group(1)].  [$] matches
    at the end of the name and also before a line feed that ends it, so
    a final line feed is first set aside; the group is then the name
    without its last six characters, when that is not empty and holds no
    line feed (which [.] does not match). *)
Definition uid_of_name (nm : string) : option string :=
  let body := if endswith (String "010" EmptyString) nm then drop_last 1 nm else nm in
  if endswith "__edof" body then
    let g := drop_last 6 body in
    if negb (is_empty g) && negb (has_newline g) then Some g else None
  else None.

(** What [models.mkdir(exist_ok=True)] does to the folder. *)
Inductive mkdir_result :=
| Mk_exists                (* already a directory: nothing happens *)
| Mk_created (f : folder)  (* created: the folder with the new entry *)
| Mk_clash.                (* a regular file of that name: FileExistsError *)

Definition mkdir_in (nm : string) (f : folder) : mkdir_result :=
  match find_entry nm f with
  | Some e => if is_dir e then Mk_exists else Mk_clash
  | None => Mk_created (f ++ [{| e_name := nm; e_children := Some [] |}])%list
  end.

End FS.

(** ** The reconstruction engine as an oracle *)

Module Py.

(** The engine objects the scripts hold. *)
Inductive obj :=
| Metashape      (* the module: constructors *)
| App            (* Metashape.app *)
| Doc            (* doc = Metashape.Document() *)
| Chunk          (* chunk = doc.addChunk() *)
| Cal            (* cal = Metashape.Calibration() *)
| Sensor (i : nat)   (* chunk.sensors[i] *)
| QcChunk.       (* the duplicate of the chunk *)

(** Python values the scripts pass to the engine or get back from it. *)
Inductive pyval :=
| PNone
| PBool (b : bool)
| PInt (z : Z)
| PFloat (q : Q)
| PStr (s : string)
| PStrs (l : list string)     (* a list of strings *)
| PEnum (nm : string)         (* Metashape.<nm> *)
| PSensors (n : nat)          (* the list of the chunk's n sensors *)
| PObj (o : obj).

(** Truth value of a Python value ([if v:]). *)
Definition truthy (v : pyval) : bool :=
  match v with
  | PNone => false
  | PBool b => b
  | PInt z => negb (Z.eqb z 0)
  | PFloat q => negb (Qeq_bool q 0)
  | PStr s => negb (Str.is_empty s)
  | PStrs l => match l with [] => false | _ => true end
  | PEnum _ => true
  | PSensors n => negb (Nat.eqb n 0)
  | PObj _ => true
  end.

(** One interaction with the engine.  Reading the [Metashape.<nm>]
    constants that a call passes is part of the call: when one of them is
    missing the call raises [AttributeError]. *)
Inductive call :=
| Invoke (o : obj) (meth : string) (args : list pyval) (kwargs : list (string * pyval))
| GetAttr (o : obj) (attr : string)
| SetAttr (o : obj) (attr : string) (v : pyval)
| HasAttr (o : obj) (attr : string).

(** The exception classes the scripts tell apart or raise themselves;
    [RuntimeError] stands for every other subclass of [Exception].
    ([UnicodeDecodeError] is a subclass of [ValueError] and
    [FileExistsError] one of [OSError]; no handler of the scripts names
    any of the four.) *)
Inductive exn_class :=
| TypeError | AttributeError | ValueError | IndexError | FileExistsError | RuntimeError
| UnicodeDecodeError | OSError.

Record exn := { e_class : exn_class; e_text : string }.

Definition is_TypeError (e : exn) : bool :=
  match e_class e with TypeError => true | _ => false end.
Definition is_AttributeError (e : exn) : bool :=
  match e_class e with AttributeError => true | _ => false end.

Inductive reply :=
| Returned (v : pyval)
| Threw (e : exn).

Inductive stream := Stdout | Stderr.

(** What a run leaves behind, in order: the engine interactions with
    their outcome, and the lines printed. *)
Inductive event :=
| Ev (c : call) (r : reply)
| Printed (s : stream) (text : string).

(** Result of a computation: a value, or an exception on its way up. *)
Inductive result (A : Type) :=
| Val (a : A)
| Exc (e : exn).
Arguments Val {A} a.
Arguments Exc {A} e.

End Py.

Import Py.

(** ** The monad of the scripts: state, log and exceptions *)

Section Scripts.

(** The engine: a state of its own and its answer to every interaction. *)
Context {E : Type}.
Variable respond : E -> call -> reply * E.

Record world := { w_fs : FS.fs; w_eng : E; w_log : list event }.

Definition M (A : Type) : Type := world -> result A * world.

Definition ret {A} (a : A) : M A := fun w => (Val a, w).

Definition raise {A} (e : exn) : M A := fun w => (Exc e, w).

Definition bind {A B} (m : M A) (k : A -> M B) : M B :=
  fun w =>
    match m w with
    | (Val a, w') => k a w'
    | (Exc e, w') => (Exc e, w')
    end.

(** [try: m  except ...: h e] where [h] re-raises what its clause does
    not catch. *)
Definition catch {A} (m : M A) (h : exn -> M A) : M A :=
  fun w =>
    match m w with
    | (Val a, w') => (Val a, w')
    | (Exc e, w') => h e w'
    end.

(** The engine is asked, and the interaction is logged. *)
Definition engine (c : call) : M pyval :=
  fun w =>
    let (r, s') := respond (w_eng w) c in
    let w' := {| w_fs := w_fs w; w_eng := s'; w_log := (w_log w ++ [Ev c r])%list |} in
    match r with
    | Returned v => (Val v, w')
    | Threw e => (Exc e, w')
    end.

Definition print (s : stream) (text : string) : M unit :=
  fun w => (Val tt, {| w_fs := w_fs w; w_eng := w_eng w;
                       w_log := (w_log w ++ [Printed s text])%list |}).

Definition read_fs : M FS.fs := fun w => (Val (w_fs w), w).

Definition write_fs (d : FS.fs) : M unit :=
  fun w => (Val tt, {| w_fs := d; w_eng := w_eng w; w_log := w_log w |}).

(** [p.read_text(encoding="utf-8")] on a path that exists. *)
Definition read_text (f : FS.file) : M string :=
  match f with
  | FS.Text t => ret t
  | FS.Damaged _ msg => raise {| e_class := UnicodeDecodeError; e_text := msg |}
  | FS.Unreadable msg => raise {| e_class := OSError; e_text := msg |}
  end.

(** [p.read_text(encoding="utf-8", errors="ignore")] on a path that
    exists. *)
Definition read_text_ignore (f : FS.file) : M string :=
  match f with
  | FS.Text t => ret t
  | FS.Damaged t _ => ret t
  | FS.Unreadable msg => raise {| e_class := OSError; e_text := msg |}
  end.

End Scripts.

Arguments world : clear implicits.
Arguments M : clear implicits.

Declare Scope py_scope.
Delimit Scope py_scope with py.
Notation "x <- m ;; k" := (bind m (fun x => k))
  (at level 100, m at next level, right associativity) : py_scope.
Notation "m ;; k" := (bind m (fun _ => k))
  (at level 100, right associativity) : py_scope.
Notation "'try' m 'except_Exception' h" := (catch m (fun _ => h))
  (at level 100, m at next level, h at next level) : py_scope.
Notation "'try' m 'except_TypeError' h" :=
  (catch m (fun e => if is_TypeError e then h else raise e))
  (at level 100, m at next level, h at next level) : py_scope.
Notation "'try' m 'except_AttributeError' h" :=
  (catch m (fun e => if is_AttributeError e then h else raise e))
  (at level 100, m at next level, h at next level) : py_scope.
Local Open Scope py_scope.

(** ** Engine interactions shared by the two scripts *)

Section Calls.
Context {E : Type}.
Variable respond : E -> call -> reply * E.

(** [o.meth(args..., kwargs...)] *)
Definition invoke (o : obj) (meth : string) (args : list pyval)
           (kwargs : list (string * pyval)) : M E pyval :=
  engine respond (Invoke o meth args kwargs).

(** [o.attr] *)
Definition getattr (o : obj) (attr : string) : M E pyval :=
  engine respond (GetAttr o attr).

(** [getattr(o, attr, None)] *)
Definition getattr_or_None (o : obj) (attr : string) : M E pyval :=
  try getattr o attr except_AttributeError (ret PNone).

(** [o.attr = v] *)
Definition setattr (o : obj) (attr : string) (v : pyval) : M E unit :=
  engine respond (SetAttr o attr v) ;; ret tt.

(** [hasattr(o, attr)] *)
Definition hasattr (o : obj) (attr : string) : M E bool :=
  v <- engine respond (HasAttr o attr) ;; ret (truthy v).

(** [v.attr = x] for the duplicate [v] that the engine returned: an
    engine object takes the assignment, and the script knows it as
    [QcChunk]; a value of another kind has no such attribute. *)
Definition setattr_of (v : pyval) (attr : string) (x : pyval) : M E unit :=
  match v with
  | PObj _ => setattr QcChunk attr x
  | _ => raise {| e_class := AttributeError; e_text := "object has no attribute " ++ attr |}
  end.

(** [doc.save(path)] and [doc.save()] *)
Definition save_as (p : string) : M E unit := invoke Doc "save" [PStr p] [] ;; ret tt.
Definition save : M E unit := invoke Doc "save" [] [] ;; ret tt.

(** [if c: m] *)
Definition when (c : bool) (m : M E unit) : M E unit := if c then m else ret tt.

(** [crs if crs else None] *)
Definition crs_or_None (crs : pyval) : pyval := if truthy crs then crs else PNone.

(** [str(v)] for the values a label can be. *)
Definition py_str (v : pyval) : string :=
  match v with
  | PStr s => s
  | PNone => "None"
  | PBool true => "True"
  | PBool false => "False"
  | _ => "<object>"
  end.

End Calls.

(** ** Method B: [disc3d_batch_metashape.py] *)

Module MethodB.
Import Str FS.

(** [get_uid_and_dataset]: the loop over [scan_dir.glob("*__edof")]. *)
Fixpoint first_uid (es : list entry) : option string :=
  match es with
  | [] => None
  | ed :: rest =>
      if is_dir ed then
        match uid_of_name (e_name ed) with
        | Some u => Some u            (* uid = m.group(1); break *)
        | None => first_uid rest
        end
      else first_uid rest
  end.

Definition get_uid_and_dataset (d : fs) (scan_dir : path) : option string * string :=
  let dataset_id := remove_all "__DISC3D" (name scan_dir) in
  (first_uid (glob "*__edof" (listdir d scan_dir)), dataset_id).

(** [find_scans(root, dates)] *)
Definition find_scans (d : fs) (dates : list string) : list path :=
  sorted_paths
    (map fst
       (filter
          (fun pn : path * option folder =>
             let (p, n) := pn in
             fnmatch "*__DISC3D" (name p)                      (* rglob *)
             && match n with Some _ => true | None => false end (* d.is_dir() *)
             && Str.contains "__" (name p)
             && existsb (fun dt => startswith (dt ++ "__") (name p)) dates)
          (tree d))).

Section Pipeline.
Context {E : Type}.
Variable respond : E -> call -> reply * E.

Local Abbreviation invoke := (invoke respond).
Local Abbreviation getattr := (getattr respond).
Local Abbreviation getattr_or_None := (getattr_or_None respond).
Local Abbreviation setattr := (setattr respond).
Local Abbreviation setattr_of := (setattr_of respond).
Local Abbreviation hasattr := (hasattr respond).
Local Abbreviation save := (save respond).
Local Abbreviation save_as := (save_as respond).

(** [load_crs(mm_prj)], called when [--mm-prj] is given and not empty.
    The file is read strictly (line 136). *)
Definition load_crs : M E pyval :=
  d <- read_fs ;;
  match prj_file d with
  | Some f =>
      text <- read_text f ;;
      let wkt := strip text in
      if negb (is_empty wkt)
      then invoke Metashape "CoordinateSystem" [PStr wkt] []
      else ret PNone
  | None => ret PNone
  end.

(** Lines 182-196: the calibration object. *)
Definition seed_calibration (f_px : Q) : M E unit :=
  invoke Metashape "Calibration" [] [] ;;
  (try
     (w <- getattr_or_None (Sensor 0) "width" ;;
      when (truthy w) (v <- getattr (Sensor 0) "width" ;; setattr Cal "width" v) ;;
      h <- getattr_or_None (Sensor 0) "height" ;;
      when (truthy h) (v <- getattr (Sensor 0) "height" ;; setattr Cal "height" v))
   except_Exception (ret tt)) ;;
  setattr Cal "f" (PFloat f_px) ;;
  setattr Cal "cx" (PInt 0) ;; setattr Cal "cy" (PInt 0) ;;
  setattr Cal "k1" (PInt 0) ;; setattr Cal "k2" (PInt 0) ;;
  setattr Cal "k3" (PInt 0) ;; setattr Cal "k4" (PInt 0) ;;
  setattr Cal "p1" (PInt 0) ;; setattr Cal "p2" (PInt 0) ;;
  setattr Cal "b1" (PInt 0) ;; setattr Cal "b2" (PInt 0).

(** Lines 198-202. *)
Definition apply_calibration : M E unit :=
  setattr (Sensor 0) "user_calib" (PObj Cal) ;;
  setattr (Sensor 0) "calibration" (PObj Cal) ;;
  setattr (Sensor 0) "fixed_calibration" (PBool false) ;;
  save.

(** Lines 204-220. *)
Definition import_reference (campos : string) (crs : pyval) : M E unit :=
  when (truthy crs)
    (setattr Chunk "crs" crs ;;
     b <- hasattr Chunk "camera_crs" ;;
     when b (setattr Chunk "camera_crs" crs)) ;;
  invoke Chunk "importReference" []
    [("path", PStr campos);
     ("format", PEnum "ReferenceFormatCSV");
     ("columns", PStr "nxyz");
     ("delimiter", PStr " ");
     ("items", PEnum "ReferenceItemsCameras");
     ("crs", crs_or_None crs);
     ("skip_rows", PInt 1);
     ("group_delimiters", PBool false)] ;;
  save.

Definition match_primary : list (string * pyval) :=
  [("accuracy", PEnum "HighestAccuracy");
   ("generic_preselection", PBool true);
   ("reference_preselection", PBool true);
   ("reference_preselection_mode", PEnum "ReferencePreselectionSource");
   ("keypoint_limit", PInt 250000);
   ("tiepoint_limit", PInt 250000);
   ("keep_keypoints", PBool false);
   ("guided_matching", PBool false);
   ("filter_stationary_points", PBool true)].

Definition match_fallback : list (string * pyval) :=
  [("downscale", PInt 0);
   ("generic_preselection", PBool true);
   ("reference_preselection", PBool true);
   ("reference_preselection_mode", PEnum "ReferencePreselectionSource");
   ("keypoint_limit", PInt 250000);
   ("tiepoint_limit", PInt 250000);
   ("keep_keypoints", PBool false);
   ("guided_matching", PBool false);
   ("filter_stationary_points", PBool true)].

(** Lines 225-255. *)
Definition match_and_align : M E unit :=
  (try (invoke Chunk "matchPhotos" [] match_primary ;; ret tt)
   except_Exception (invoke Chunk "matchPhotos" [] match_fallback ;; ret tt)) ;;
  (try (invoke Chunk "alignCameras" [] [("adaptive_fitting", PBool false)] ;; ret tt)
   except_TypeError (invoke Chunk "alignCameras" [] [] ;; ret tt)) ;;
  save.

(** Lines 259-280. *)
Definition qc_snapshot : M E unit :=
  qc_chunk <-
    (try (invoke Chunk "copy" [] [])
     except_Exception
       (try (invoke Chunk "duplicate" [] [])
        except_Exception (ret PNone))) ;;
  if truthy qc_chunk then
    (try (l <- getattr Chunk "label" ;;
          setattr_of qc_chunk "label" (PStr (py_str l ++ "__QC_ALIGNED")))
     except_Exception (ret tt)) ;;
    (try (setattr_of qc_chunk "enabled" (PBool false))
     except_Exception (ret tt)) ;;
    save
  else
    print Stdout "[WARN] QC chunk could not be duplicated; continuing.".

Definition optimize_primary : list (string * pyval) :=
  [("fit_f", PBool true); ("fit_cx", PBool false); ("fit_cy", PBool false);
   ("fit_b1", PBool false); ("fit_b2", PBool false);
   ("fit_k1", PBool false); ("fit_k2", PBool false);
   ("fit_k3", PBool false); ("fit_k4", PBool false);
   ("fit_p1", PBool false); ("fit_p2", PBool false);
   ("fit_p3", PBool false); ("fit_p4", PBool false);
   ("adaptive_fitting", PBool false)].

Definition optimize_fallback : list (string * pyval) :=
  [("fit_f", PBool true); ("fit_cx", PBool false); ("fit_cy", PBool false);
   ("fit_b1", PBool false); ("fit_b2", PBool false);
   ("fit_k1", PBool false); ("fit_k2", PBool false);
   ("fit_k3", PBool false); ("fit_k4", PBool false);
   ("fit_p1", PBool false); ("fit_p2", PBool false)].

(** Lines 286-302. *)
Definition optimize : M E unit :=
  (try (invoke Chunk "optimizeCameras" [] optimize_primary ;; ret tt)
   except_TypeError (invoke Chunk "optimizeCameras" [] optimize_fallback ;; ret tt)) ;;
  save.

(** Lines 305-313. *)
Definition build_depth : M E unit :=
  (try (invoke Chunk "buildDepthMaps" []
          [("downscale", PInt 1); ("filter_mode", PEnum "MildFiltering")] ;; ret tt)
   except_TypeError
     (try (invoke Chunk "buildDepthMaps" []
             [("quality", PEnum "UltraQuality"); ("filter", PEnum "MildFiltering")] ;; ret tt)
      except_Exception (invoke Chunk "buildDepthMaps" [] [] ;; ret tt))) ;;
  save.

Definition model_primary : list (string * pyval) :=
  [("source_data", PEnum "DepthMapsData");
   ("surface_type", PEnum "Arbitrary");
   ("interpolation", PEnum "EnabledInterpolation");
   ("face_count", PEnum "HighFaceCount");
   ("vertex_colors", PBool true)].

Definition model_legacy : list (string * pyval) :=
  [("source", PEnum "DepthMapsData");
   ("surface", PEnum "Arbitrary");
   ("interpolation", PEnum "EnabledInterpolation");
   ("face_count", PEnum "HighFaceCount");
   ("vertex_colors", PBool true)].

(** Lines 316-338. *)
Definition build_model : M E unit :=
  (try (invoke Chunk "buildModel" [] model_primary ;; ret tt)
   except_TypeError
     (try (invoke Chunk "buildModel" [] model_legacy ;; ret tt)
      except_Exception (invoke Chunk "buildModel" [] [] ;; ret tt))) ;;
  save.

Definition export_primary (cams_xml : string) (crs : pyval) : list (string * pyval) :=
  [("path", PStr cams_xml);
   ("format", PEnum "CamerasFormatXML");
   ("crs", crs_or_None crs);
   ("save_points", PBool true);
   ("save_markers", PBool false);
   ("use_labels", PBool false)].

Definition export_legacy (cams_xml : string) (crs : pyval) : list (string * pyval) :=
  [("path", PStr cams_xml);
   ("format", PEnum "CamerasFormatXML");
   ("projection", crs_or_None crs);
   ("export_points", PBool true);
   ("export_markers", PBool false);
   ("use_labels", PBool false)].

(** Lines 341-361. *)
Definition export_cameras (cams_xml : string) (crs : pyval) : M E unit :=
  (try (invoke Chunk "exportCameras" [] (export_primary cams_xml crs) ;; ret tt)
   except_TypeError (invoke Chunk "exportCameras" [] (export_legacy cams_xml crs) ;; ret tt)) ;;
  save.

Definition fail (reason : string) : M E (string * string) := ret ("fail", reason).

(** [models.mkdir(exist_ok=True)] *)
Definition mkdir_models (scan_dir : path) : M E unit :=
  d <- read_fs ;;
  match mkdir_in "models" (listdir d scan_dir) with
  | Mk_exists => ret tt
  | Mk_created f => write_fs (with_folder d scan_dir f)
  | Mk_clash =>
      raise {| e_class := FileExistsError;
               e_text := "[Errno 17] File exists: '" ++ path_str (child scan_dir "models") ++ "'" |}
  end.

(** What follows the validation in [process_scan] (lines 163-362). *)
Definition run_pipeline (scan_dir : path) (uid dataset_id : string)
           (imgs : list string) (campos : string) (f_px : Q) (crs : pyval)
  : M E (string * string) :=
  let edof := child scan_dir (uid ++ "__edof") in
  let models := child scan_dir "models" in
  mkdir_models scan_dir ;;
  let psz := path_str (child models (dataset_id ++ ".psz")) in
  let cams_xml :=
    path_str (child models (dataset_id ++ "_Calibrated_Cameras_" ++ uid ++ "_"
                              ++ before_first "__" dataset_id ++ ".xml")) in
  (* Start project *)
  invoke Metashape "Document" [] [] ;;
  invoke Doc "addChunk" [] [] ;;
  setattr Chunk "label" (PStr "DISC3D") ;;
  save_as psz ;;
  (* Add photos *)
  invoke Chunk "addPhotos" [PStrs (map (fun i => path_str (child edof i)) imgs)] [] ;;
  save ;;
  (* Precalibrated intrinsics *)
  sensors <- getattr Chunk "sensors" ;;
  if negb (truthy sensors) then fail "No sensor after adding photos"
  else
    sensors' <- getattr Chunk "sensors" ;;          (* chunk.sensors[0] *)
    (if truthy sensors' then ret tt
     else raise {| e_class := IndexError; e_text := "list index out of range" |}) ;;
    seed_calibration f_px ;;
    apply_calibration ;;
    import_reference campos crs ;;
    match_and_align ;;
    qc_snapshot ;;
    optimize ;;
    build_depth ;;
    build_model ;;
    export_cameras cams_xml crs ;;
    ret ("ok", "Saved " ++ psz ++ "  cams_xml=" ++ cams_xml).

(** [process_scan(scan_dir, f_px, crs)] *)
Definition process_scan (scan_dir : path) (f_px : Q) (crs : pyval)
  : M E (string * string) :=
  d <- read_fs ;;
  let (uid_opt, dataset_id) := get_uid_and_dataset d scan_dir in
  match uid_opt with
  | None => fail "No '<uid>__edof' folder found"
  | Some uid =>
      let edof := child scan_dir (uid ++ "__edof") in
      let imgs := sorted (glob_in (uid ++ "__edof") "*.png" (listdir d scan_dir)) in
      match imgs with
      | [] => fail ("No PNGs in " ++ path_str edof)
      | _ :: _ =>
          let campos_list := glob "*__CamPos.txt" (listdir d scan_dir) in
          match campos_list with
          | [campos] =>
              run_pipeline scan_dir uid dataset_id imgs
                (path_str (child scan_dir (e_name campos))) f_px crs
          | _ => fail "Missing or multiple CamPos.txt"
          end
      end
  end.

(** Command line of the script. *)
Record args := {
  arg_root : string;
  arg_list : string;
  arg_mm_prj : option string;
  arg_f_px : Q;
  arg_gpu : option Z
}.

(** Lines 382-387: pin the engine to one GPU. *)
Definition pin_gpu (gpu : option Z) : M E unit :=
  match gpu with
  | Some g =>
      try
        ((if (g <? 0)%Z
          then raise {| e_class := ValueError; e_text := "negative shift count" |}
          else ret tt) ;;
         setattr App "gpu_mask" (PInt (Z.shiftl 1 g)) ;;
         setattr App "cpu_enable" (PBool true))
      except_Exception (ret tt)
  | None => ret tt
  end.

(** Lines 406-414: the loop over the scans, [ok] counting the successes. *)
Fixpoint run_scans (f_px : Q) (crs : pyval) (scans : list path) (ok : nat) : M E nat :=
  match scans with
  | [] => ret ok
  | s :: rest =>
      r <- process_scan s f_px crs ;;
      let (status, msg) := r : string * string in
      let ds := remove_all "__DISC3D" (name s) in
      if String.eqb status "ok" then
        print Stdout ("OK   " ++ ds ++ "  " ++ msg) ;;
        run_scans f_px crs rest (S ok)
      else
        print Stderr ("FAIL " ++ ds ++ "  reason=" ++ msg) ;;
        run_scans f_px crs rest ok
  end.

(** [main(argv)], after the arguments are parsed.  The value is the exit
    status: the argument of [sys.exit], or 0 when [main] returns. *)
Definition main (a : args) : M E Z :=
  d <- read_fs ;;
  if negb (root_exists d) then
    print Stderr ("[ERR] Root not found: " ++ arg_root a) ;; ret 2%Z
  else
    pin_gpu (arg_gpu a) ;;
    match list_file d with
    | None => print Stderr ("[ERR] List file not found: " ++ arg_list a) ;; ret 2%Z
    | Some f =>
        text <- read_text f ;;                    (* line 93, in [read_dates] *)
        match ScanList.read_dates text with
        | [] => print Stderr ("[ERR] No valid dates in " ++ arg_list a) ;; ret 2%Z
        | (_ :: _) as dates =>
            crs <- match arg_mm_prj a with
                   | Some p => if negb (is_empty p) then load_crs else ret PNone
                   | None => ret PNone
                   end ;;
            match find_scans d dates with
            | [] => print Stdout "[WARN] No matching scan folders found." ;; ret 1%Z
            | (_ :: _) as scans =>
                ok <- run_scans (arg_f_px a) crs scans 0 ;;
                if Nat.eqb ok 0 then ret 1%Z else ret 0%Z
            end
        end
    end.

End Pipeline.
End MethodB.

(** ** Method A: [disc3d_methodA_from_calibrated_xml.py] *)

Module MethodA.
Import Str FS.

(** [get_uid_dataset]: the loop over [scan_dir.glob("*__edof")]. *)
Fixpoint first_uid (es : list entry) : option string :=
  match es with
  | [] => None
  | ed :: rest =>
      match uid_of_name (e_name ed) with
      | Some u => Some u              (* uid = m.group(1); break *)
      | None => first_uid rest
      end
  end.

Definition get_uid_dataset (d : fs) (scan_dir : path) : option string * string :=
  let ds := remove_all "__DISC3D" (name scan_dir) in
  (first_uid (glob "*__edof" (listdir d scan_dir)), ds).

(** [find_scans(root, dates)] *)
Definition find_scans (d : fs) (dates : list string) : list path :=
  sorted_paths
    (map fst
       (filter
          (fun pn : path * option folder =>
             let (p, n) := pn in
             fnmatch "*__DISC3D" (name p)                      (* rglob *)
             && match n with Some _ => true | None => false end (* d.is_dir() *)
             && existsb (fun dt => startswith (dt ++ "__") (name p)) dates)
          (tree d))).

(** Lines 89-91: the first of [sorted(models.glob(xml_glob))]. *)
Definition first_xml (xml_glob : string) (models_entries : list string) : option string :=
  match sorted (filter (fnmatch xml_glob) models_entries) with
  | cand :: _ => Some cand            (* xml = cand; break *)
  | [] => None
  end.

Section Pipeline.
Context {E : Type}.
Variable respond : E -> call -> reply * E.

Local Abbreviation invoke := (invoke respond).
Local Abbreviation getattr := (getattr respond).
Local Abbreviation setattr := (setattr respond).
Local Abbreviation hasattr := (hasattr respond).
Local Abbreviation save := (save respond).
Local Abbreviation save_as := (save_as respond).

(** [load_crs(mm_prj)], called when [--mm-prj] is given and not empty.
    The file is read with [errors="ignore"] (line 53). *)
Definition load_crs : M E pyval :=
  d <- read_fs ;;
  match prj_file d with
  | Some f =>
      text <- read_text_ignore f ;;
      let wkt := strip text in
      if negb (is_empty wkt)
      then invoke Metashape "CoordinateSystem" [PStr wkt] []
      else ret PNone
  | None => ret PNone
  end.

Definition dec (z : Z) : string := DecimalString.NilZero.string_of_int (Z.to_int z).
Definition hex (z : Z) : string := HexadecimalString.NilZero.string_of_int (Z.to_hex_int z).

(** [f"{v:x}"] *)
Definition format_hex (v : pyval) : M E string :=
  match v with
  | PInt z => ret (hex z)
  | PBool b => ret (if b then "1" else "0")
  | _ => raise {| e_class := TypeError; e_text := "unsupported format string" |}
  end.

(** [enable_gpu_index(idx)] *)
Definition enable_gpu_index (idx : option Z) : M E unit :=
  match idx with
  | None => ret tt
  | Some i =>
      catch
        ((if (i <? 0)%Z
          then raise {| e_class := ValueError; e_text := "negative shift count" |}
          else ret tt) ;;
         setattr App "gpu_mask" (PInt (Z.shiftl 1 i)) ;;
         setattr App "cpu_enable" (PBool true) ;;
         mask <- getattr App "gpu_mask" ;;
         h <- format_hex mask ;;
         print Stdout ("[GPU] using index " ++ dec i ++ " (mask=0x" ++ h ++ ")"))
        (fun e => print Stdout ("[GPU] warn: " ++ e_text e))
  end.

(** [thin_project(chunk, clear_depth, clear_matches)] *)
Definition thin_project (clear_depth clear_matches : bool) : M E unit :=
  when clear_depth
    (try (invoke Chunk "clearDepthMaps" [] [] ;; ret tt)
     except_AttributeError
       (try (setattr Chunk "depth_maps" PNone) except_Exception (ret tt))) ;;
  has <- (if clear_matches then hasattr Chunk "removeMatches" else ret false) ;;
  when has
    (try (invoke Chunk "removeMatches" [] [] ;; ret tt) except_Exception (ret tt)).

(** Lines 104-107. *)
Definition set_crs (crs : pyval) : M E unit :=
  when (truthy crs)
    (setattr Chunk "crs" crs ;;
     b <- hasattr Chunk "camera_crs" ;;
     when b (setattr Chunk "camera_crs" crs)).

(** Lines 110-116: [Some reason] when the script returns a failure. *)
Definition import_cameras (xml : string) (crs : pyval) : M E (option string) :=
  try (invoke Chunk "importCameras"
         [PStr xml; PEnum "CamerasFormatXML"; crs_or_None crs] [] ;; ret None)
  except_TypeError
    (catch
       (invoke Chunk "importCameras" [PStr xml; PEnum "CamerasFormatXML"] [] ;; ret None)
       (fun e => ret (Some ("importCameras failed: " ++ e_text e)))).

(** [for s in chunk.sensors: try: s.fixed_calibration = True ...],
    over the sensors [i, i+1, ..., i+n-1]. *)
Fixpoint lock_from (i n : nat) : M E unit :=
  match n with
  | O => ret tt
  | S k =>
      (try (setattr (Sensor i) "fixed_calibration" (PBool true))
       except_Exception (ret tt)) ;;
      lock_from (S i) k
  end.

(** Lines 117-125.  A value that is no list of sensors either cannot be
    iterated (TypeError) or holds strings, whose attributes cannot be set. *)
Definition lock_intrinsics : M E unit :=
  (try (invoke Chunk "updateTransform" [] [] ;; ret tt) except_Exception (ret tt)) ;;
  sensors <- getattr Chunk "sensors" ;;
  match sensors with
  | PSensors n => lock_from 0 n
  | PStr _ | PStrs _ => ret tt
  | _ => raise {| e_class := TypeError; e_text := "object is not iterable" |}
  end.

Definition match_primary (key_limit tie_limit : Z) (keep_keypoints : bool)
  : list (string * pyval) :=
  [("accuracy", PEnum "HighestAccuracy");
   ("generic_preselection", PBool true);
   ("reference_preselection", PBool true);
   ("reference_preselection_mode", PEnum "ReferencePreselectionSource");
   ("keypoint_limit", PInt key_limit);
   ("tiepoint_limit", PInt tie_limit);
   ("keep_keypoints", PBool keep_keypoints);
   ("guided_matching", PBool false);
   ("filter_stationary_points", PBool true)].

Definition match_fallback (key_limit tie_limit : Z) (keep_keypoints : bool)
  : list (string * pyval) :=
  [("downscale", PInt 0);
   ("generic_preselection", PBool true);
   ("reference_preselection", PBool true);
   ("reference_preselection_mode", PEnum "ReferencePreselectionSource");
   ("keypoint_limit", PInt key_limit);
   ("tiepoint_limit", PInt tie_limit);
   ("keep_keypoints", PBool keep_keypoints);
   ("guided_matching", PBool false);
   ("filter_stationary_points", PBool true)].

(** Lines 128-156. *)
Definition match_and_align (key_limit tie_limit : Z) (keep_keypoints : bool) : M E unit :=
  (try (invoke Chunk "matchPhotos" [] (match_primary key_limit tie_limit keep_keypoints) ;; ret tt)
   except_Exception
     (invoke Chunk "matchPhotos" [] (match_fallback key_limit tie_limit keep_keypoints) ;; ret tt)) ;;
  (try (invoke Chunk "alignCameras" [] [("adaptive_fitting", PBool false)] ;; ret tt)
   except_TypeError (invoke Chunk "alignCameras" [] [] ;; ret tt)) ;;
  save.

Definition optimize_kwargs : list (string * pyval) :=
  [("fit_f", PBool false); ("fit_cx", PBool false); ("fit_cy", PBool false);
   ("fit_b1", PBool false); ("fit_b2", PBool false);
   ("fit_k1", PBool false); ("fit_k2", PBool false);
   ("fit_k3", PBool false); ("fit_k4", PBool false);
   ("fit_p1", PBool false); ("fit_p2", PBool false);
   ("fit_corrections", PBool false); ("adaptive_fitting", PBool false);
   ("tiepoint_covariance", PBool false)].

(** Lines 159-169. *)
Definition optimize : M E unit :=
  (try (invoke Chunk "optimizeCameras" [] optimize_kwargs ;; ret tt)
   except_TypeError (ret tt)) ;;
  save.

(** Lines 172-177. *)
Definition build_depth : M E unit :=
  (try (invoke Chunk "buildDepthMaps" []
          [("quality", PEnum "UltraQuality"); ("filter", PEnum "MildFiltering")] ;; ret tt)
   except_Exception
     (try (invoke Chunk "buildDepthMaps" []
             [("downscale", PInt 1); ("filter_mode", PEnum "MildFiltering")] ;; ret tt)
      except_Exception (invoke Chunk "buildDepthMaps" [] [] ;; ret tt))) ;;
  save.

Definition model_primary : list (string * pyval) :=
  [("source_data", PEnum "DepthMapsData");
   ("surface_type", PEnum "Arbitrary");
   ("interpolation", PEnum "EnabledInterpolation");
   ("face_count", PEnum "HighFaceCount");
   ("vertex_colors", PBool true)].

Definition model_legacy : list (string * pyval) :=
  [("source", PEnum "DepthMapsData");
   ("surface", PEnum "Arbitrary");
   ("interpolation", PEnum "EnabledInterpolation");
   ("face_count", PEnum "HighFaceCount");
   ("vertex_colors", PBool true)].

(** Lines 179-192. *)
Definition build_model : M E unit :=
  (try (invoke Chunk "buildModel" [] model_primary ;; ret tt)
   except_TypeError
     (try (invoke Chunk "buildModel" [] model_legacy ;; ret tt)
      except_Exception (invoke Chunk "buildModel" [] [] ;; ret tt))) ;;
  save.

Definition fail (reason : string) : M E (string * string) := ret ("fail", reason).

(** [models.mkdir(exist_ok=True)] *)
Definition mkdir_models (scan_dir : path) : M E unit :=
  d <- read_fs ;;
  match mkdir_in "models" (listdir d scan_dir) with
  | Mk_exists => ret tt
  | Mk_created f => write_fs (with_folder d scan_dir f)
  | Mk_clash =>
      raise {| e_class := FileExistsError;
               e_text := "[Errno 17] File exists: '" ++ path_str (child scan_dir "models") ++ "'" |}
  end.

(** [sorted(models.glob(xml_glob))] then the first of them.  An empty
    pattern is refused by [glob]; a pattern of the fragment [plain] is
    matched against the names directly in [models/].  The definition
    speaks for the code on these two kinds of pattern only: whatever is
    stated of the lookup assumes one of them. *)
Definition find_xml (scan_dir : path) (xml_glob : string) : M E (option string) :=
  d <- read_fs ;;
  if is_empty xml_glob
  then raise {| e_class := ValueError; e_text := "Unacceptable pattern: ''" |}
  else
    ret (match find_entry "models" (listdir d scan_dir) with
         | Some {| e_children := Some names |} => first_xml xml_glob names
         | _ => None
         end).

(** What follows the validation in [process_scan] (lines 95-198). *)
Definition run_pipeline (scan_dir : path) (uid dataset_id : string)
           (imgs : list string) (xml : string) (crs : pyval) (gpu_index : option Z)
           (key_limit tie_limit : Z) (keep_keypoints keep_depth keep_matches : bool)
  : M E (string * string) :=
  let edof := child scan_dir (uid ++ "__edof") in
  let models := child scan_dir "models" in
  let psz := path_str (child models (dataset_id ++ ".psz")) in
  invoke Metashape "Document" [] [] ;;
  invoke Doc "addChunk" [] [] ;;
  setattr Chunk "label" (PStr "DISC3D") ;;
  save_as psz ;;
  enable_gpu_index gpu_index ;;
  (* Add photos *)
  invoke Chunk "addPhotos" [PStrs (map (fun i => path_str (child edof i)) imgs)] [] ;;
  save ;;
  set_crs crs ;;
  failed <- import_cameras (path_str (child models xml)) crs ;;
  match failed with
  | Some reason => fail reason
  | None =>
      lock_intrinsics ;;
      match_and_align key_limit tie_limit keep_keypoints ;;
      optimize ;;
      build_depth ;;
      build_model ;;
      thin_project (negb keep_depth) (negb keep_matches) ;;
      save ;;
      ret ("ok", "Saved " ++ psz ++ "  using XML=" ++ xml)
  end.

(** [process_scan(scan_dir, crs, gpu_index, xml_glob, key_limit, tie_limit,
    keep_keypoints, keep_depth, keep_matches)] *)
Definition process_scan (scan_dir : path) (crs : pyval) (gpu_index : option Z)
           (xml_glob : string) (key_limit tie_limit : Z)
           (keep_keypoints keep_depth keep_matches : bool)
  : M E (string * string) :=
  d <- read_fs ;;
  let (uid_opt, dataset_id) := get_uid_dataset d scan_dir in
  match uid_opt with
  | None => fail "No '<uid>__edof' folder found"
  | Some uid =>
      let edof := child scan_dir (uid ++ "__edof") in
      let imgs := sorted (glob_in (uid ++ "__edof") "*.png" (listdir d scan_dir)) in
      match imgs with
      | [] => fail ("No PNGs in " ++ path_str edof)
      | _ :: _ =>
          let models := child scan_dir "models" in
          mkdir_models scan_dir ;;
          xml_opt <- find_xml scan_dir xml_glob ;;
          match xml_opt with
          | None =>
              fail ("No calibrated cameras XML found in " ++ path_str models
                    ++ " matching '" ++ xml_glob ++ "'")
          | Some xml =>
              run_pipeline scan_dir uid dataset_id imgs xml crs gpu_index
                key_limit tie_limit keep_keypoints keep_depth keep_matches
          end
      end
  end.

(** Command line of the script. *)
Record args := {
  arg_root : string;
  arg_list : string;
  arg_mm_prj : option string;
  arg_gpu : option Z;
  arg_xml_glob : string;
  arg_key_limit : Z;
  arg_tie_limit : Z;
  arg_keep_keypoints : bool;
  arg_keep_depth : bool;
  arg_keep_matches : bool
}.

(** Lines 225-235: the loop over the scans, [ok] counting the successes. *)
Fixpoint run_scans (a : args) (crs : pyval) (scans : list path) (ok : nat) : M E nat :=
  match scans with
  | [] => ret ok
  | s :: rest =>
      r <- process_scan s crs (arg_gpu a) (arg_xml_glob a)
             (arg_key_limit a) (arg_tie_limit a)
             (arg_keep_keypoints a) (arg_keep_depth a) (arg_keep_matches a) ;;
      let (status, msg) := r : string * string in
      let ds := remove_all "__DISC3D" (name s) in
      if String.eqb status "ok" then
        print Stdout ("OK   " ++ ds ++ "  " ++ msg) ;;
        run_scans a crs rest (S ok)
      else
        print Stderr ("FAIL " ++ ds ++ "  reason=" ++ msg) ;;
        run_scans a crs rest ok
  end.

(** [main(argv)], after the arguments are parsed.  The value is the exit
    status: the argument of [sys.exit], or 0 when [main] returns. *)
Definition main (a : args) : M E Z :=
  d <- read_fs ;;
  if negb (root_exists d) then
    print Stderr ("[ERR] Root not found: " ++ arg_root a) ;; ret 2%Z
  else
    match list_file d with
    | None => print Stderr ("[ERR] List not found: " ++ arg_list a) ;; ret 2%Z
    | Some f =>
        text <- read_text_ignore f ;;             (* line 31, in [read_dates] *)
        match ScanList.read_dates text with
        | [] => print Stderr ("[ERR] No valid dates in " ++ arg_list a) ;; ret 2%Z
        | (_ :: _) as dates =>
            crs <- match arg_mm_prj a with
                   | Some p => if negb (is_empty p) then load_crs else ret PNone
                   | None => ret PNone
                   end ;;
            match find_scans d dates with
            | [] => print Stdout "[WARN] No matching scan folders." ;; ret 1%Z
            | (_ :: _) as scans =>
                ok <- run_scans a crs scans 0 ;;
                if Nat.eqb ok 0 then ret 1%Z else ret 0%Z
            end
        end
    end.

End Pipeline.
End MethodA.

(** ** What the properties speak of *)

Module Spec.
Import Str FS.

(** The images of a unit: [sorted(edof.glob("*.png"))]. *)
Definition edof_images (f : folder) (uid : string) : list string :=
  sorted (glob_in (uid ++ "__edof") "*.png" f).

(** The scan folder has a sub-directory [<uid>__edof]. *)
Definition has_edof_folder (f : folder) (uid : string) : Prop :=
  exists names,
    find_entry (uid ++ "__edof") f
    = Some {| e_name := uid ++ "__edof"; e_children := Some names |}.

(** The names in [models/] of a scan folder (none when it is missing). *)
Definition models_names (f : folder) : list string :=
  match find_entry "models" f with
  | Some {| e_children := Some names |} => names
  | _ => []
  end.

(** [models] exists in the folder and is a directory. *)
Definition has_models_dir (f : folder) : Prop :=
  exists names, find_entry "models" f = Some {| e_name := "models"; e_children := Some names |}.

(** Two worlds that differ at most by their file system: the engine was
    not called and nothing was printed in between. *)
Definition no_engine_call {E} (w w' : world E) : Prop :=
  w_eng w' = w_eng w /\ w_log w' = w_log w.

(** The reasons with which Method B rejects a scan folder. *)
Definition rejections_B (scan_dir : path) (f : folder) : list string :=
  "No '<uid>__edof' folder found"
  :: "Missing or multiple CamPos.txt"
  :: match MethodB.first_uid (glob "*__edof" f) with
     | Some uid => ["No PNGs in " ++ path_str (child scan_dir (uid ++ "__edof"))]
     | None => []
     end.

(** The reasons with which Method A rejects a scan folder. *)
Definition rejections_A (scan_dir : path) (xml_glob : string) (f : folder) : list string :=
  "No '<uid>__edof' folder found"
  :: ("No calibrated cameras XML found in " ++ path_str (child scan_dir "models")
      ++ " matching '" ++ xml_glob ++ "'")
  :: match MethodA.first_uid (glob "*__edof" f) with
     | Some uid => ["No PNGs in " ++ path_str (child scan_dir (uid ++ "__edof"))]
     | None => []
     end.


End Spec.

(** ** Sample hosts and engines *)

Module Sample.
Import FS.

(** The scan folder of the first end-to-end scenario: three images and one
    CamPos file. *)
Definition scan_name : string := "20250502T082851__067870__Carabus_violaceus__DISC3D".

Definition scan_dir : path := [scan_name].

Definition edof : entry :=
  {| e_name := "067870__edof"; e_children := Some ["c.png"; "a.png"; "b.png"; "notes.txt"] |}.

Definition campos : entry :=
  {| e_name := "20250502T082851__067870__Carabus_violaceus__CamPos.txt";
     e_children := None |}.

Definition folder_B : folder := [edof; campos].

(** The same folder without its CamPos file (second scenario). *)
Definition folder_no_campos : folder := [edof].

(** A folder for Method A: [models/] holds two calibrated-camera files
    (third scenario) and a project file. *)
Definition models : entry :=
  {| e_name := "models";
     e_children := Some ["x.psz"; "b_Calibrated_Cameras_2.xml"; "a_Calibrated_Cameras_1.xml"] |}.

Definition folder_A : folder := [edof; campos; models].


(** A second scan folder. *)
Definition scan_dir2 : path := ["20250502T145837__067871__Carabus_auratus__DISC3D"].

Definition edof2 : entry :=
  {| e_name := "067871__edof"; e_children := Some ["1.png"] |}.

Definition campos2 : entry :=
  {| e_name := "20250502T145837__067871__Carabus_auratus__CamPos.txt"; e_children := None |}.

Definition models2 : entry :=
  {| e_name := "models"; e_children := Some ["k_Calibrated_Cameras_9.xml"] |}.

Definition list_text_1 : string := "20250502T082851".

Definition list_text_2 : string :=
  "20250502T082851" ++ String "010" EmptyString ++ "20250502T145837" ++ String "010" EmptyString.

Definition host (text : string) (t : list (path * option folder)) : fs :=
  {| root_exists := true; list_file := Some (Text text); prj_file := None; tree := t |}.

(** An engine that accepts everything: the chunk has one sensor, every
    attribute asked for exists, and a duplicate is a chunk. *)
Definition default_reply (c : call) : reply :=
  match c with
  | GetAttr Chunk "sensors" => Returned (PSensors 1)
  | GetAttr Chunk "label" => Returned (PStr "DISC3D")
  | GetAttr (Sensor _) _ => Returned (PInt 4000)
  | GetAttr App "gpu_mask" => Returned (PInt 1)
  | HasAttr _ _ => Returned (PBool true)
  | Invoke Chunk "copy" _ _ => Returned (PObj QcChunk)
  | Invoke Chunk "duplicate" _ _ => Returned (PObj QcChunk)
  | Invoke Metashape "Document" _ _ => Returned (PObj Doc)
  | Invoke Doc "addChunk" _ _ => Returned (PObj Chunk)
  | Invoke Metashape "Calibration" _ _ => Returned (PObj Cal)
  | _ => Returned PNone
  end.

Definition accepting : unit -> call -> reply * unit :=
  fun _ c => (default_reply c, tt).

(** An engine that raises [e] at its [k]-th interaction (counting from 0)
    and accepts every other one; its state counts the interactions. *)
Definition failing_at (k : nat) (e : exn) : nat -> call -> reply * nat :=
  fun n c => (if Nat.eqb n k then Threw e else default_reply c, S n).

(** An engine that raises an exception of class [cls] whenever the method
    [meth] is called with the keyword arguments [kwargs], and accepts
    everything else. *)
Definition kwargs_names (kwargs : list (string * pyval)) : list string := map fst kwargs.

Definition rejecting (meth : string) (names : list string) (cls : exn_class)
  : unit -> call -> reply * unit :=
  fun _ c =>
    (match c with
     | Invoke _ m _ kwargs =>
         if String.eqb m meth
            && path_eqb (kwargs_names kwargs) names
         then Threw {| e_class := cls; e_text := "rejected" |}
         else default_reply c
     | _ => default_reply c
     end, tt).

End Sample.

(** ** Monitors over the log *)

(** A monitor reads the log event by event; it gets stuck ([None]) on a
    log that breaks the discipline it watches. *)
Module Monitor.

Section Defs.
Context {Q : Type}.
Variable step : Q -> event -> option Q.

Definition feed (oq : option Q) (ev : event) : option Q :=
  match oq with
  | Some q => step q ev
  | None => None
  end.

(** The state reached from [q] after the whole log. *)
Definition run (q : Q) (log : list event) : option Q :=
  fold_left feed log (Some q).

Definition accepts (q : Q) (log : list event) : bool :=
  match run q log with
  | Some _ => true
  | None => false
  end.

Context {E : Type}.
Variable init : Q.

(** The monitor, started in [init], is in state [q] after the log of [w]. *)
Definition at_state (q : Q) (w : world E) : Prop :=
  run init (w_log w) = Some q.

(** From a world where the monitor is in [q], the computation [m] leaves
    it in a state that satisfies [Qv] when [m] returns and [Qe] when [m]
    raises; in particular the monitor accepts all that [m] logs. *)
Definition moves {A} (q : Q) (m : M E A)
           (Qv : A -> Q -> Prop) (Qe : exn -> Q -> Prop) : Prop :=
  forall w, at_state q w ->
    match m w with
    | (r, w') =>
        exists q', at_state q' w'
                   /\ match r with
                      | Val a => Qv a q'
                      | Exc e => Qe e q'
                      end
    end.

End Defs.

End Monitor.

(** ** Counting the units reported as done *)

Module Tally.

(** The line [OK   <dataset>  <msg>] that [main] prints for a unit whose
    [process_scan] returned the status [ok]. *)
Definition is_ok_line (ev : event) : bool :=
  match ev with
  | Printed Stdout text => Str.startswith "OK   " text
  | _ => false
  end.

(** Number of units reported as done in a log. *)
Definition ok_lines (log : list event) : nat :=
  List.length (filter is_ok_line log).

(** The monitor that counts them. *)
Definition count (k : nat) (ev : event) : option nat :=
  Some (if is_ok_line ev then S k else k).

End Tally.

(** ** The batch runner *)

Module Batch.
Import FS.

(** The text of a file, undecodable bytes skipped; none when it cannot
    be read. *)
Definition text_of (f : file) : option string :=
  match f with
  | Text t => Some t
  | Damaged t _ => Some t
  | Unreadable _ => None
  end.

(** The configuration is in order: the root and the list exist and the
    list holds a valid timestamp. *)
Definition config_ok (d : fs) : bool :=
  root_exists d
  && match list_file d with
     | Some f =>
         match text_of f with
         | Some text =>
             match ScanList.read_dates text with
             | [] => false
             | _ :: _ => true
             end
         | None => false
         end
     | None => false
     end.

(** The exception with which the reading of the list ends, if it does:
    [strict] is the reading of Method B, the other that of Method A.
    The list is read only when the root and the list exist. *)
Definition list_refused (strict : bool) (d : fs) : option exn :=
  if root_exists d then
    match list_file d with
    | Some (Damaged _ msg) =>
        if strict then Some {| e_class := UnicodeDecodeError; e_text := msg |} else None
    | Some (Unreadable msg) => Some {| e_class := OSError; e_text := msg |}
    | _ => None
    end
  else None.

(** A world with an empty log: the start of a run. *)
Definition start {E} (d : fs) (s : E) : world E :=
  {| w_fs := d; w_eng := s; w_log := [] |}.

(** What the exit status says, in terms of the number [oks] of lines
    [OK ...] printed: 2 for a configuration error, 1 when no unit is
    reported done, 0 when one is. *)
Definition status_says (d : fs) (code : Z) (oks : nat) : Prop :=
  (code = 2%Z /\ config_ok d = false /\ oks = 0)
  \/ (code = 1%Z /\ config_ok d = true /\ oks = 0)
  \/ (code = 0%Z /\ config_ok d = true /\ 1 <= oks).

(** The line [main] prints for a unit. *)
Definition report (s : path) (r : string * string) : event :=
  let ds := Str.remove_all "__DISC3D" (name s) in
  if String.eqb (fst r) "ok"
  then Printed Stdout ("OK   " ++ ds ++ "  " ++ snd r)
  else Printed Stderr ("FAIL " ++ ds ++ "  reason=" ++ snd r).

Definition logged {E} (w : world E) (ev : event) : world E :=
  {| w_fs := w_fs w; w_eng := w_eng w; w_log := (w_log w ++ [ev])%list |}.

(** The reasons with which [process_scan] returns a failure. *)
Definition fail_reason_B (reason : string) : bool :=
  String.eqb reason "No '<uid>__edof' folder found"
  || Str.startswith "No PNGs in " reason
  || String.eqb reason "Missing or multiple CamPos.txt"
  || String.eqb reason "No sensor after adding photos".

Definition fail_reason_A (reason : string) : bool :=
  String.eqb reason "No '<uid>__edof' folder found"
  || Str.startswith "No PNGs in " reason
  || Str.startswith "No calibrated cameras XML found in " reason
  || Str.startswith "importCameras failed: " reason.

(** What [process_scan] returns, when it returns: [ok], or a failure
    with one of its reasons. *)
Definition returns_B (r : string * string) : Prop :=
  fst r = "ok" \/ (fst r = "fail" /\ fail_reason_B (snd r) = true).

Definition returns_A (r : string * string) : Prop :=
  fst r = "ok" \/ (fst r = "fail" /\ fail_reason_A (snd r) = true).

(** A monitor that accepts everything. *)
Definition any (q : unit) (ev : event) : option unit := Some tt.

(** Two scan folders, both in order for Method B. *)
Definition two_units : fs :=
  Sample.host Sample.list_text_2
    [(Sample.scan_dir2, Some [Sample.edof2; Sample.campos2]);
     (Sample.scan_dir, Some Sample.folder_B)].

Definition args_B : MethodB.args :=
  {| MethodB.arg_root := "/data"; MethodB.arg_list := "/data/list.txt";
     MethodB.arg_mm_prj := None; MethodB.arg_f_px := (10276.64)%Q;
     MethodB.arg_gpu := None |}.

Definition args_A : MethodA.args :=
  {| MethodA.arg_root := "/data"; MethodA.arg_list := "/data/list.txt";
     MethodA.arg_mm_prj := None; MethodA.arg_gpu := None;
     MethodA.arg_xml_glob := "*_Calibrated_Cameras_*.xml";
     MethodA.arg_key_limit := 250000; MethodA.arg_tie_limit := 250000;
     MethodA.arg_keep_keypoints := false; MethodA.arg_keep_depth := false;
     MethodA.arg_keep_matches := false |}.

Definition operation_error : exn :=
  {| e_class := RuntimeError; e_text := "engine reported a failure" |}.

End Batch.

(** ** Call signatures *)

(** The signature of an interaction: the object, the method or attribute,
    the number of positional arguments and the names of the keyword
    arguments.  Two calls of a method under different parameter names have
    different signatures. *)
Module Sig.

Inductive call_sig :=
| SInvoke (o : obj) (meth : string) (nargs : nat) (names : list string)
| SGet (o : obj) (attr : string)
| SSet (o : obj) (attr : string)
| SHas (o : obj) (attr : string).

Definition signature (c : call) : call_sig :=
  match c with
  | Invoke o meth args kwargs => SInvoke o meth (List.length args) (map fst kwargs)
  | GetAttr o attr => SGet o attr
  | SetAttr o attr _ => SSet o attr
  | HasAttr o attr => SHas o attr
  end.

Definition obj_eqb (a b : obj) : bool :=
  match a, b with
  | Metashape, Metashape | App, App | Doc, Doc | Chunk, Chunk
  | Cal, Cal | QcChunk, QcChunk => true
  | Sensor i, Sensor j => Nat.eqb i j
  | _, _ => false
  end.

Definition names_eqb (a b : list string) : bool := FS.path_eqb a b.

Definition sig_eqb (a b : call_sig) : bool :=
  match a, b with
  | SInvoke o m n ks, SInvoke o' m' n' ks' =>
      obj_eqb o o' && String.eqb m m' && Nat.eqb n n' && names_eqb ks ks'
  | SGet o x, SGet o' x' => obj_eqb o o' && String.eqb x x'
  | SSet o x, SSet o' x' => obj_eqb o o' && String.eqb x x'
  | SHas o x, SHas o' x' => obj_eqb o o' && String.eqb x x'
  | _, _ => false
  end.


Definition is_method (meth : string) (s : call_sig) : bool :=
  match s with
  | SInvoke Chunk m _ _ => String.eqb m meth
  | _ => false
  end.

(** [doc.save(...)] *)
Definition is_save (s : call_sig) : bool :=
  match s with
  | SInvoke Doc m _ _ => String.eqb m "save"
  | _ => false
  end.

End Sig.

(** ** What happens when an engine call raises *)

Module Fallback.
Import Sig.

(** What the script does with an exception raised by a call: it calls
    the engine again under the signature [s]; or it ignores the exception
    (or handles it without the engine) and goes on; or it stops the unit:
    the exception leaves [process_scan], or [process_scan] returns a
    failure at once. *)
Inductive disposition :=
| Retry (s : call_sig)
| Ignore
| Stop.




















(** The monitor of a policy: after a call raised, the next thing logged
    is what the policy says. *)
Inductive state :=
| Free                       (* nothing pending *)
| Expect (s : call_sig)      (* the next event is a call of signature [s] *)
| Stopped.                   (* the unit is over: nothing more is logged *)

Definition after (policy : call_sig -> exn -> disposition) (c : call) (r : reply)
  : state :=
  match r with
  | Returned _ => Free
  | Threw e =>
      match policy (signature c) e with
      | Retry s => Expect s
      | Ignore => Free
      | Stop => Stopped
      end
  end.

Definition step (policy : call_sig -> exn -> disposition) (q : state) (ev : event)
  : option state :=
  match q, ev with
  | Stopped, _ => None
  | Free, Ev c r => Some (after policy c r)
  | Free, Printed _ _ => Some Free
  | Expect s, Ev c r => if sig_eqb (signature c) s then Some (after policy c r) else None
  | Expect _, Printed _ _ => None
  end.

(** At the end of a unit no retry is pending. *)
Definition settled (q : state) : bool :=
  match q with
  | Expect _ => false
  | _ => true
  end.


End Fallback.

(** ** Steps of the pipeline: order and checkpoints *)

Module Steps.
Import Sig.

(** How a script lays out its steps: [stage s] is the place in the chain
    of the step that the call belongs to (0: none), a step completes when a
    call with [completes] returns, a call with [side s = n] is outside the
    chain but wants stage [n] done, and after a call with [saves_after]
    returns the project is saved. *)
Record plan := {
  stage : call_sig -> nat;
  completes : call_sig -> bool;
  side : call_sig -> nat;
  saves_after : call_sig -> bool
}.

Definition chunk_stage (table : list (string * nat)) (s : call_sig) : nat :=
  match s with
  | SInvoke Chunk meth _ _ =>
      match find (fun p => String.eqb (fst p) meth) table with
      | Some p => snd p
      | None => 0
      end
  | _ => 0
  end.

(** Method B: ingest, calibrate, import reference, match, align,
    optimize, build depth, build mesh, export.  The snapshot lies outside
    the chain, after the alignment. *)
Definition stage_B (s : call_sig) : nat :=
  match s with
  | SSet (Sensor _) _ => 2
  | _ => chunk_stage [("addPhotos", 1); ("importReference", 3); ("matchPhotos", 4);
                      ("alignCameras", 5); ("optimizeCameras", 6);
                      ("buildDepthMaps", 7); ("buildModel", 8); ("exportCameras", 9)] s
  end.

Definition completes_B (s : call_sig) : bool :=
  match s with
  | SSet (Sensor _) attr => String.eqb attr "fixed_calibration"
  | _ => negb (Nat.eqb (stage_B s) 0)
  end.

Definition plan_B : plan :=
  {| stage := stage_B;
     completes := completes_B;
     side := chunk_stage [("copy", 5); ("duplicate", 5)];
     saves_after := fun s => completes_B s && negb (is_method "matchPhotos" s) |}.

(** Method A: ingest, import cameras, match, align, build depth, build
    mesh.  The optional optimization lies outside the chain, after the
    alignment; thinning comes after the mesh. *)
Definition stage_A (s : call_sig) : nat :=
  chunk_stage [("addPhotos", 1); ("importCameras", 2); ("matchPhotos", 3);
               ("alignCameras", 4); ("buildDepthMaps", 5); ("buildModel", 6)] s.

Definition side_A (s : call_sig) : nat :=
  chunk_stage [("optimizeCameras", 4); ("clearDepthMaps", 6); ("removeMatches", 6)] s.

Definition plan_A : plan :=
  {| stage := stage_A;
     completes := fun s => negb (Nat.eqb (stage_A s) 0);
     side := side_A;
     saves_after := fun s =>
       is_method "addPhotos" s || is_method "alignCameras" s
       || is_method "optimizeCameras" s || is_method "buildDepthMaps" s
       || is_method "buildModel" s |}.

(** The monitor: the highest stage done, and whether a save is due. *)
Definition step (p : plan) (q : nat * bool) (ev : event) : option (nat * bool) :=
  let (done, due) := q in
  match ev with
  | Printed _ _ => if due then None else Some (done, false)
  | Ev c r =>
      let s := signature c in
      if due then (if is_save s then Some (done, false) else None)
      else
        let k := stage p s in
        if (Nat.eqb k 0 || Nat.leb (k - 1) done) && Nat.leb (side p s) done then
          match r with
          | Returned _ =>
              Some (if completes p s then Nat.max done k else done, saves_after p s)
          | Threw _ => Some (done, false)
          end
        else None
  end.

(** A call of a step, or of a side step, comes after every earlier step
    of the chain was completed by a call that returned. *)
Definition ordered (p : plan) (log : list event) : Prop :=
  forall pre c r post,
    log = (pre ++ Ev c r :: post)%list ->
    forall j, 1 <= j ->
              j < stage p (signature c) \/ j <= side p (signature c) ->
              exists c' v,
                In (Ev c' (Returned v)) pre
                /\ stage p (signature c') = j
                /\ completes p (signature c') = true.

(** After a step-completing call returned, the next thing logged is a
    save of the project. *)
Definition checkpointed (p : plan) (log : list event) : Prop :=
  forall pre c v post,
    log = (pre ++ Ev c (Returned v) :: post)%list ->
    saves_after p (signature c) = true ->
    exists c' r post', post = Ev c' r :: post' /\ is_save (signature c') = true.

(** The chain of Method A as the specification words it: ingest,
    calibrate and import (the calibrated cameras), match, align, optimize,
    build depth, build mesh; every step attempted only after the one before
    it succeeded, and the project saved after every step that completed
    (match and align count as one step). *)
Definition stage_claimed_A (s : call_sig) : nat :=
  chunk_stage [("addPhotos", 1); ("importCameras", 2); ("matchPhotos", 3);
               ("alignCameras", 4); ("optimizeCameras", 5);
               ("buildDepthMaps", 6); ("buildModel", 7)] s.

Definition claimed_A : plan :=
  {| stage := stage_claimed_A;
     completes := fun s => negb (Nat.eqb (stage_claimed_A s) 0);
     side := fun _ => 0;
     saves_after := fun s =>
       negb (Nat.eqb (stage_claimed_A s) 0) && negb (is_method "matchPhotos" s) |}.

(** A depth or mesh call comes after a [matchPhotos] and an
    [alignCameras] that returned. *)
Definition after_alignment (log : list event) : Prop :=
  forall pre c r post,
    log = (pre ++ Ev c r :: post)%list ->
    is_method "buildDepthMaps" (signature c) || is_method "buildModel" (signature c) = true ->
    exists cm vm ca va,
      In (Ev cm (Returned vm)) pre /\ is_method "matchPhotos" (signature cm) = true
      /\ In (Ev ca (Returned va)) pre /\ is_method "alignCameras" (signature ca) = true.

(** The project file of the unit in [scan_dir]:
    [scan_dir / "models" / f"{dataset_id}.psz"]. *)
Definition project_file (scan_dir : FS.path) : string :=
  FS.path_str (FS.child (FS.child scan_dir "models")
                        (Str.remove_all "__DISC3D" (FS.name scan_dir) ++ ".psz")).

(** The monitor of the saves: the first save names the project file, the
    later ones name no file.  The state says whether a save that named the
    file has returned. *)
Definition save_step (psz : string) (named : bool) (ev : event) : option bool :=
  match ev with
  | Ev c r =>
      if is_save (signature c) then
        match c with
        | Invoke _ _ [PStr f] [] =>
            if negb named && String.eqb f psz
            then Some (match r with Returned _ => true | Threw _ => false end)
            else None
        | Invoke _ _ [] [] => if named then Some true else None
        | _ => None
        end
      else Some named
  | Printed _ _ => Some named
  end.

(** Every save goes to the project file of the unit: it names that file,
    or names no file and follows a save that named it and returned. *)
Definition in_place (psz : string) (log : list event) : Prop :=
  forall pre c r post,
    log = (pre ++ Ev c r :: post)%list ->
    is_save (signature c) = true ->
    c = Invoke Doc "save" [PStr psz] []
    \/ (c = Invoke Doc "save" [] []
        /\ exists v, In (Ev (Invoke Doc "save" [PStr psz] []) (Returned v)) pre).

(** An engine that rejects the signature of [optimizeCameras] that
    Method A uses. *)
Definition optimize_rejected : unit -> call -> reply * unit :=
  Sample.rejecting "optimizeCameras" (map fst MethodA.optimize_kwargs) TypeError.

End Steps.

(** ** The snapshot of the aligned state *)

Module Snapshot.
Import Sig.

Definition copy_call : call := Invoke Chunk "copy" [] [].
Definition duplicate_call : call := Invoke Chunk "duplicate" [] [].
Definition read_label : call := GetAttr Chunk "label".
Definition relabel (l : pyval) : call :=
  SetAttr QcChunk "label" (PStr (py_str l ++ "__QC_ALIGNED")).
Definition disable : call := SetAttr QcChunk "enabled" (PBool false).
Definition warning_text : string := "[WARN] QC chunk could not be duplicated; continuing.".
Definition warning : event := Printed Stdout warning_text.

(** The object that an interaction is with. *)
Definition call_obj (c : call) : obj :=
  match c with
  | Invoke o _ _ _ | GetAttr o _ | SetAttr o _ _ | HasAttr o _ => o
  end.

Definition returned (r : reply) : bool :=
  match r with
  | Returned _ => true
  | Threw _ => false
  end.

Definition value (r : reply) : option pyval :=
  match r with
  | Returned v => Some v
  | Threw _ => None
  end.

(** The duplicate that a reply to [copy] or [duplicate] gives, if any:
    [qc_chunk] is tested for truth. *)
Definition duplicate_of (r : reply) : option pyval :=
  match r with
  | Returned v => if truthy v then Some v else None
  | Threw _ => None
  end.

Definition is_obj (v : pyval) : bool :=
  match v with
  | PObj _ => true
  | _ => false
  end.

(** What an event is, for the snapshot. *)
Inductive token :=
| Align (ok : bool)              (* [chunk.alignCameras(...)] *)
| Save (ok : bool)               (* [doc.save(...)] *)
| Copy (v : option pyval)        (* [chunk.copy()] *)
| Duplicate (v : option pyval)   (* [chunk.duplicate()] *)
| ReadLabel (l : option pyval)   (* [chunk.label] *)
| WriteLabel (x : pyval)         (* [qc_chunk.label = x] *)
| Disable                        (* [qc_chunk.enabled = False] *)
| Warn                           (* the warning *)
| Optimize                       (* [chunk.optimizeCameras(...)] *)
| Stray                          (* another use of the duplicate *)
| Other.

Definition kind (ev : event) : token :=
  match ev with
  | Printed Stdout t => if String.eqb t warning_text then Warn else Other
  | Printed Stderr _ => Other
  | Ev c r =>
      match c with
      | Invoke Chunk m args kwargs =>
          if String.eqb m "alignCameras" then Align (returned r)
          else if String.eqb m "optimizeCameras" then Optimize
          else if String.eqb m "copy" then
                 match args, kwargs with
                 | [], [] => Copy (value r)
                 | _, _ => Stray
                 end
          else if String.eqb m "duplicate" then
                 match args, kwargs with
                 | [], [] => Duplicate (value r)
                 | _, _ => Stray
                 end
          else Other
      | Invoke Doc m _ _ => if String.eqb m "save" then Save (returned r) else Other
      | GetAttr Chunk a => if String.eqb a "label" then ReadLabel (value r) else Other
      | SetAttr QcChunk a x =>
          if String.eqb a "label" then WriteLabel x
          else if String.eqb a "enabled" then
                 match x with
                 | PBool false => Disable
                 | _ => Stray
                 end
          else Stray
      | Invoke QcChunk _ _ _ | GetAttr QcChunk _ | HasAttr QcChunk _ => Stray
      | _ => Other
      end
  end.

Inductive state :=
| Idle                  (* the alignment has not returned *)
| Aligned               (* [alignCameras] returned: the save is next *)
| Saved                 (* the aligned state is saved: [copy] is next *)
| CopyFailed            (* [copy] raised: [duplicate] is next *)
| Taken (o : bool)      (* there is a duplicate, an engine object or not:
                           the label of the chunk is read next *)
| Labelling (l : pyval) (* the label [l] was read: it is written next *)
| Labelled              (* the duplicate is disabled next *)
| Disabled              (* the save is next *)
| Missing               (* there is no duplicate: the warning is next *)
| Resumed               (* [optimizeCameras] on the chunk is next *)
| Done                  (* the pipeline goes on, on the chunk *)
| Halted.               (* a save raised: the unit is over *)

(** The text written is the text that the script computes from [l]. *)
Definition same_text (a b : string) : bool := String.eqb a b.

Definition label_ok (l x : pyval) : bool :=
  match x with
  | PStr t => same_text t (py_str l ++ "__QC_ALIGNED")
  | _ => false
  end.

Definition got (v : pyval) : state :=
  if truthy v then Taken (is_obj v) else Missing.

Definition next (q : state) (t : token) : option state :=
  match q, t with
  | Idle, Align true => Some Aligned
  | Idle, Align false | Idle, Save _ | Idle, Other => Some Idle
  | Aligned, Save true => Some Saved
  | Aligned, Save false => Some Halted
  | Saved, Copy (Some v) => Some (got v)
  | Saved, Copy None => Some CopyFailed
  | CopyFailed, Duplicate (Some v) => Some (got v)
  | CopyFailed, Duplicate None => Some Missing
  | Taken true, ReadLabel (Some l) => Some (Labelling l)
  | Taken true, ReadLabel None => Some Labelled
  | Taken false, ReadLabel _ => Some Disabled
  | Labelling l, WriteLabel x => if label_ok l x then Some Labelled else None
  | Labelled, Disable => Some Disabled
  | Disabled, Save true => Some Resumed
  | Disabled, Save false => Some Halted
  | Missing, Warn => Some Resumed
  | Resumed, Optimize => Some Done
  | Done, Optimize | Done, Save _ | Done, Other => Some Done
  | _, _ => None
  end.

Definition step (q : state) (ev : event) : option state := next q (kind ev).

(** At the end of a unit the snapshot is not under way. *)
Definition settled (q : state) : bool :=
  match q with
  | Idle | Done | Halted => true
  | _ => false
  end.

(** Once the alignment has returned the project is saved, and when the
    save returns the next call asks for the copy. *)
Definition right_after_alignment (log : list event) : Prop :=
  forall pre c v post,
    log = (pre ++ Ev c (Returned v) :: post)%list ->
    is_method "alignCameras" (signature c) = true ->
    exists cs rs post',
      post = Ev cs rs :: post' /\ is_save (signature cs) = true
      /\ match rs with
         | Returned _ => exists r post'', post' = Ev copy_call r :: post''
         | Threw _ => post' = []
         end.

(** No optimization before the copy was asked for. *)
Definition before_optimization (log : list event) : Prop :=
  forall pre c r post,
    log = (pre ++ Ev c r :: post)%list ->
    is_method "optimizeCameras" (signature c) = true ->
    exists r', In (Ev copy_call r') pre.

(** When [copy] raises, [duplicate] is called. *)
Definition duplicate_after_copy (log : list event) : Prop :=
  forall pre e post,
    log = (pre ++ Ev copy_call (Threw e) :: post)%list ->
    exists r post', post = Ev duplicate_call r :: post'.

(** A duplicate that the engine gave is relabelled after the chunk and
    disabled, whatever the engine answers to the two assignments (the label
    is not written when reading the label of the chunk raises); then the
    project is saved. *)
Definition relabelled_and_disabled (log : list event) : Prop :=
  forall pre c o post,
    log = (pre ++ Ev c (Returned (PObj o)) :: post)%list ->
    c = copy_call \/ c = duplicate_call ->
    exists rl r2 cs rs post',
      is_save (signature cs) = true
      /\ match rl with
         | Returned l =>
             exists r1,
             post = Ev read_label rl :: Ev (relabel l) r1
                       :: Ev disable r2 :: Ev cs rs :: post'
         | Threw _ =>
             post = Ev read_label rl :: Ev disable r2 :: Ev cs rs :: post'
         end.

(** When no duplicate was made ([copy] returned nothing, or [duplicate]
    raised or returned nothing) the warning is printed and the
    optimization of the chunk is called next. *)
Definition warned_and_resumed (log : list event) : Prop :=
  forall pre c r post,
    log = (pre ++ Ev c r :: post)%list ->
    (c = copy_call /\ returned r = true) \/ c = duplicate_call ->
    duplicate_of r = None ->
    exists co ro post',
      post = warning :: Ev co ro :: post'
      /\ is_method "optimizeCameras" (signature co) = true.

(** The duplicate is used for nothing but the relabelling and the
    disabling: every other interaction is with another object. *)
Definition original_kept (log : list event) : Prop :=
  forall pre c r post,
    log = (pre ++ Ev c r :: post)%list ->
    call_obj c = QcChunk ->
    (exists l, c = relabel l) \/ c = disable.

(** An engine that cannot duplicate a chunk: [copy] and [duplicate]
    raise, everything else is accepted. *)
Definition no_duplicate : unit -> call -> reply * unit :=
  fun _ c =>
    (match c with
     | Invoke Chunk m _ _ =>
         if String.eqb m "copy" || String.eqb m "duplicate"
         then Threw {| e_class := RuntimeError; e_text := "cannot duplicate" |}
         else Sample.default_reply c
     | _ => Sample.default_reply c
     end, tt).

End Snapshot.

(** ** The fit mask: what is seeded, what is locked, what is fitted *)

Module FitMask.
Import Sig.

(** A matching or alignment call. *)
Definition is_matching (c : call) : bool :=
  is_method "matchPhotos" (signature c) || is_method "alignCameras" (signature c).

(** An assignment to an intrinsic term of the calibration object (the
    image size is carried over, it is no intrinsic term) or to an attribute
    of a sensor. *)
Definition is_write (c : call) : bool :=
  match c with
  | SetAttr Cal a _ => negb (String.eqb a "width" || String.eqb a "height")
  | SetAttr (Sensor _) _ _ => true
  | _ => false
  end.

(** A call that changes the calibration: a write, or the import of
    calibrated cameras. *)
Definition touches (c : call) : bool :=
  is_write c || is_method "importCameras" (signature c).

(** The writes of a log, in order, each with whether it returned. *)
Fixpoint writes (log : list event) : list (call * bool) :=
  match log with
  | [] => []
  | Ev c r :: rest =>
      if is_write c then (c, Snapshot.returned r) :: writes rest else writes rest
  | Printed _ _ :: rest => writes rest
  end.

(** Method B, lines 192-201: the focal length is seeded, every other
    term is zero; the calibration is given to the first sensor, which is not
    locked. *)
Definition seed_B (f_px : Q) : list call :=
  [SetAttr Cal "f" (PFloat f_px);
   SetAttr Cal "cx" (PInt 0); SetAttr Cal "cy" (PInt 0);
   SetAttr Cal "k1" (PInt 0); SetAttr Cal "k2" (PInt 0);
   SetAttr Cal "k3" (PInt 0); SetAttr Cal "k4" (PInt 0);
   SetAttr Cal "p1" (PInt 0); SetAttr Cal "p2" (PInt 0);
   SetAttr Cal "b1" (PInt 0); SetAttr Cal "b2" (PInt 0);
   SetAttr (Sensor 0) "user_calib" (PObj Cal);
   SetAttr (Sensor 0) "calibration" (PObj Cal);
   SetAttr (Sensor 0) "fixed_calibration" (PBool false)].

(** Method A, lines 121-125: every sensor is locked. *)
Definition lock (i : nat) : call := SetAttr (Sensor i) "fixed_calibration" (PBool true).

Fixpoint locks_from (i n : nat) : list call :=
  match n with
  | O => []
  | S k => lock i :: locks_from (S i) k
  end.

Definition read_sensors : call := GetAttr Chunk "sensors".

Definition sensor_count (v : pyval) : nat :=
  match v with
  | PSensors n => n
  | _ => 0
  end.

(** The fit flags that a call passes, those it sets and those it holds:
    a flag is held when it is passed as [False]. *)
Definition fit_flags (c : call) : list (string * pyval) :=
  match c with
  | Invoke _ _ _ kwargs => filter (fun kv => Str.startswith "fit_" (fst kv)) kwargs
  | _ => []
  end.

Definition flag_on (v : pyval) : bool :=
  match v with
  | PBool false => false
  | _ => true
  end.

Definition fitted (c : call) : list string :=
  map fst (filter (fun kv => flag_on (snd kv)) (fit_flags c)).

Definition held (c : call) : list string :=
  map fst (filter (fun kv => negb (flag_on (snd kv))) (fit_flags c)).

(** The flags of the intrinsic terms other than the focal length. *)
Definition other_terms : list string :=
  ["fit_cx"; "fit_cy"; "fit_b1"; "fit_b2";
   "fit_k1"; "fit_k2"; "fit_k3"; "fit_k4"; "fit_p1"; "fit_p2"].

Definition all_held (terms : list string) (c : call) : bool :=
  forallb (fun t => existsb (String.eqb t) (held c)) terms.

(** Method B: an optimization fits [f] and holds every other term; no
    other call sets a fit flag. *)
Definition mask_B (c : call) : bool :=
  if is_method "optimizeCameras" (signature c)
  then names_eqb (fitted c) ["fit_f"] && all_held other_terms c
  else names_eqb (fitted c) [].

(** Method A: no call sets a fit flag, and an optimization holds every
    term. *)
Definition mask_A (c : call) : bool :=
  names_eqb (fitted c) []
  && (if is_method "optimizeCameras" (signature c)
      then all_held ("fit_f" :: other_terms) c
      else true).

Definition same_value (x y : pyval) : bool :=
  match x, y with
  | PNone, PNone => true
  | PBool a, PBool b => Bool.eqb a b
  | PInt a, PInt b => Z.eqb a b
  | PFloat a, PFloat b => Z.eqb (Qnum a) (Qnum b) && Pos.eqb (Qden a) (Qden b)
  | PStr a, PStr b => String.eqb a b
  | PStrs a, PStrs b => names_eqb a b
  | PEnum a, PEnum b => String.eqb a b
  | PSensors a, PSensors b => Nat.eqb a b
  | PObj a, PObj b => obj_eqb a b
  | _, _ => false
  end.

(** The same assignment. *)
Definition same_call (c c0 : call) : bool :=
  match c, c0 with
  | SetAttr o a x, SetAttr o0 a0 x0 => obj_eqb o o0 && String.eqb a a0 && same_value x x0
  | _, _ => false
  end.

(** The monitors: the writes come in the order of [todo], before the
    matching; once the matching has begun the calibration is not touched. *)
Inductive state :=
| Unread                       (* Method A: the sensors are not read yet *)
| Pending (todo : list call)   (* the writes still to come *)
| Matched                      (* the matching has begun *)
| Over.                        (* a write of Method B raised: the unit is over *)

Definition begin_matching (q : state) : option state :=
  match q with
  | Pending [] | Matched => Some Matched
  | _ => None
  end.

(** The next write; when it raises, Method B stops and Method A goes on. *)
Definition expect (stops : bool) (q : state) (c : call) (r : reply) : option state :=
  match q with
  | Pending (c0 :: todo) =>
      if same_call c c0
      then Some (if Snapshot.returned r || negb stops then Pending todo else Over)
      else None
  | _ => None
  end.

Definition step_B (q : state) (ev : event) : option state :=
  match ev with
  | Printed _ _ => Some q
  | Ev c r =>
      if negb (mask_B c) then None
      else if is_matching c then begin_matching q
      else if touches c then expect true q c r
      else Some q
  end.

Definition is_read_sensors (c : call) : bool :=
  match c with
  | GetAttr Chunk a => String.eqb a "sensors"
  | _ => false
  end.

Definition step_A (q : state) (ev : event) : option state :=
  match ev with
  | Printed _ _ => Some q
  | Ev c r =>
      if negb (mask_A c) then None
      else if is_matching c then begin_matching q
      else if is_write c then expect false q c r
      else if is_method "importCameras" (signature c) then
             match q with
             | Unread => Some Unread
             | _ => None
             end
      else if is_read_sensors c then
             match q with
             | Unread =>
                 Some (match r with
                       | Returned v => Pending (locks_from 0 (sensor_count v))
                       | Threw _ => Unread
                       end)
             | _ => None
             end
      else Some q
  end.

(** Method B: when a matching or alignment call is made, the writes so
    far are the seeding, and each of them returned. *)
Definition seeded_before_matching (f_px : Q) (log : list event) : Prop :=
  forall pre c r post,
    log = (pre ++ Ev c r :: post)%list ->
    is_matching c = true ->
    writes pre = map (fun w => (w, true)) (seed_B f_px).

(** Method A: when a matching or alignment call is made, the sensors
    were read and the writes so far are the locks of all of them, in
    order, whatever the engine answered to a lock: a lock that raised is
    passed over (lines 122-125), and the sensor is then not locked. *)
Definition locks_requested_before_matching (log : list event) : Prop :=
  forall pre c r post,
    log = (pre ++ Ev c r :: post)%list ->
    is_matching c = true ->
    exists v, In (Ev read_sensors (Returned v)) pre
              /\ map fst (writes pre) = locks_from 0 (sensor_count v).

(** Once a matching or alignment call was made, the calibration is not
    touched. *)
Definition untouched_after_matching (log : list event) : Prop :=
  forall pre c r post,
    log = (pre ++ Ev c r :: post)%list ->
    touches c = true ->
    forall c' r', In (Ev c' r') pre -> is_matching c' = false.

(** Method B: an optimization fits the focal length alone and holds the
    other terms; no other call sets a fit flag. *)
Definition only_f_fitted (log : list event) : Prop :=
  forall c r, In (Ev c r) log ->
    if is_method "optimizeCameras" (signature c)
    then fitted c = ["fit_f"] /\ incl other_terms (held c)
    else fitted c = [].

(** Method A: no call sets a fit flag, and an optimization holds the
    focal length and the other terms. *)
Definition nothing_fitted (log : list event) : Prop :=
  forall c r, In (Ev c r) log ->
    fitted c = []
    /\ (is_method "optimizeCameras" (signature c) = true ->
        incl ("fit_f" :: other_terms) (held c)).

(** Every write of the log returned. *)
Definition writes_returned (log : list event) : Prop :=
  Forall (fun w : call * bool => snd w = true) (writes log).

(** The engine refused a lock: the assignment raised. *)
Definition lock_refused (log : list event) : Prop :=
  exists i e, In (Ev (lock i) (Threw e)) log.

End FitMask.

(** ** Patterns without wildcards *)

Module Glob.

(** A character that [fnmatch] reads as a wildcard. *)
Definition is_wild (c : ascii) : bool := Ascii.eqb c "*" || Ascii.eqb c "?".

(** The pattern is made of literal characters only. *)
Fixpoint no_wild (p : string) : bool :=
  match p with
  | EmptyString => true
  | String c p' => negb (is_wild c) && no_wild p'
  end.

End Glob.

(** ** Writing a scan list *)

Module Lines.
Import Str.

Definition LF : string := String "010" EmptyString.
Definition CRLF : string := String "013" (String "010" EmptyString).

(** The text of a file with one entry per line, each line ended by [eol]. *)
Fixpoint lines_text (eol : string) (entries : list string) : string :=
  match entries with
  | [] => EmptyString
  | e :: rest => e ++ eol ++ lines_text eol rest
  end.

(** No character of [s] is a space of [str.isspace]. *)
Fixpoint no_space (s : string) : bool :=
  match s with
  | EmptyString => true
  | String c s' => negb (isspace c) && no_space s'
  end.

End Lines.

(** ** The format of the scan list, written out

    What the specification says of the list, in terms of characters and
    lines only: nothing here is taken from the reader of the scripts. *)

Module ListFormat.

(** The ten digits. *)
Definition digit_chars : list ascii :=
  ["0"; "1"; "2"; "3"; "4"; "5"; "6"; "7"; "8"; "9"]%char.

(** The ASCII white space of Python: TAB, LF, VT, FF, CR, the separators
    0x1c to 0x1f, and the space. *)
Definition space_chars : list ascii :=
  ["009"; "010"; "011"; "012"; "013"; "028"; "029"; "030"; "031"; " "]%char.

(** The ASCII characters at which a line ends: LF, VT, FF, CR and the
    separators 0x1c to 0x1e. *)
Definition break_chars : list ascii :=
  ["010"; "011"; "012"; "013"; "028"; "029"; "030"]%char.

(** The ends of line of a text file: LF, CR LF, or one of VT, FF and the
    separators 0x1c to 0x1e. *)
Definition line_ends : list string :=
  [String "010" EmptyString;
   String "013" (String "010" EmptyString);
   String "011" EmptyString; String "012" EmptyString;
   String "028" EmptyString; String "029" EmptyString; String "030" EmptyString].

Definition made_of (cs : list ascii) (s : string) : Prop :=
  Forall (fun c => In c cs) (list_ascii_of_string s).

Definition free_of (cs : list ascii) (s : string) : Prop :=
  Forall (fun c => ~ In c cs) (list_ascii_of_string s).

(** Every character of the text is an ASCII character. *)
Definition ascii_text (s : string) : Prop :=
  Forall (fun c => (N_of_ascii c < 128)%N) (list_ascii_of_string s).

(** [^\d{8}T\d{6}$]: eight digits, the letter T, six digits. *)
Definition timestamp (s : string) : Prop :=
  exists date time,
    s = date ++ "T" ++ time
    /\ length date = 8 /\ length time = 6
    /\ made_of digit_chars date /\ made_of digit_chars time.

(** The line is the timestamp [stamp] once the white space around it is
    trimmed. *)
Definition dated (line stamp : string) : Prop :=
  exists before after,
    line = before ++ stamp ++ after
    /\ made_of space_chars before /\ made_of space_chars after
    /\ timestamp stamp.

(** A blank line, and a line whose first non-blank character is [#]. *)
Definition blank (line : string) : Prop := made_of space_chars line.

Definition comment (line : string) : Prop :=
  exists before rest, line = before ++ "#" ++ rest /\ made_of space_chars before.

(** What is retained of the lines: of each dated line its timestamp, in
    order, and nothing of any other line. *)
Inductive retained : list string -> list string -> Prop :=
| retained_nil : retained [] []
| retained_keep (line stamp : string) (lines stamps : list string) :
    dated line stamp -> retained lines stamps ->
    retained (line :: lines) (stamp :: stamps)
| retained_drop (line : string) (lines stamps : list string) :
    (forall stamp, ~ dated line stamp) -> retained lines stamps ->
    retained (line :: lines) stamps.

(** The text of a file written line by line, each line with its end. *)
Fixpoint written (lines : list (string * string)) : string :=
  match lines with
  | [] => EmptyString
  | (line, eol) :: rest => line ++ eol ++ written rest
  end.

(** A last line without an end counts when it is not empty. *)
Definition unended (last : string) : list string :=
  match last with
  | EmptyString => []
  | String _ _ => [last]
  end.

(** A list as it is written by hand: a comment, two timestamps (one in a
    line ended by CR LF, one with white space around it), a line that is no
    timestamp and a blank line. *)
Definition sample_lines : list (string * string) :=
  [("# scans of May", String "010" EmptyString);
   ("20250502T082851", String "013" (String "010" EmptyString));
   ("  20250502T145837 ", String "010" EmptyString);
   ("2025-05-02", String "010" EmptyString);
   (EmptyString, String "010" EmptyString)].

(** A list saved in Latin-1: the comment holds the byte 0xE4, which is
    not UTF-8 where it stands.  Reading with [errors="ignore"] leaves the
    byte out. *)
Definition latin1_list : FS.file :=
  FS.Damaged
    ("# Kfer" ++ String "010" EmptyString ++ "20250502T082851" ++ String "010" EmptyString)
    "'utf-8' codec can't decode byte 0xe4 in position 3: invalid continuation byte".

Definition latin1_host : FS.fs :=
  {| FS.root_exists := true; FS.list_file := Some latin1_list; FS.prj_file := None;
     FS.tree := [(Sample.scan_dir, Some Sample.folder_A)] |}.

End ListFormat.

(** ** Names that the scripts make and read *)

Module Names.
Import Str FS.

(** Method B, line 166: the name of the calibrated-camera file it exports,
    [f"{dataset_id}_Calibrated_Cameras_{uid}_{dataset_id.split('__')[0]}.xml"]. *)
Definition cams_xml_name (uid dataset_id : string) : string :=
  dataset_id ++ "_Calibrated_Cameras_" ++ uid ++ "_"
  ++ before_first "__" dataset_id ++ ".xml".

(** Method A, line 206: the default of [--xml-glob]. *)
Definition default_xml_glob : string := "*_Calibrated_Cameras_*.xml".

(** A scan folder where a regular file named like an image folder is
    listed before the image folder. *)
Definition folder_with_file : folder :=
  [{| e_name := "old__edof"; e_children := None |}; Sample.edof; Sample.campos].

End Names.

(** ** How a unit ends *)

Module Ending.
Import Sig.

(** The last thing logged, if any. *)
Definition final (log : list event) : option event :=
  match rev log with
  | ev :: _ => Some ev
  | [] => None
  end.

(** The monitor that remembers the last thing logged. *)
Definition step (q : option event) (ev : event) : option (option event) := Some (Some ev).

(** The exception [e] is the one that the engine raised in the last
    interaction. *)
Definition passed_on (e : exn) (last : option event) : Prop :=
  exists c, last = Some (Ev c (Threw e)).

(** Method B, line 181: [chunk.sensors[0]] on a list that the engine
    gave empty. *)
Definition no_sensor_left (e : exn) (last : option event) : Prop :=
  e_class e = IndexError
  /\ exists v, last = Some (Ev FitMask.read_sensors (Returned v)) /\ truthy v = false.

(** Method A, line 121: [for s in chunk.sensors] on a value that cannot
    be iterated. *)
Definition not_iterable (e : exn) (last : option event) : Prop :=
  e_class e = TypeError
  /\ exists v, last = Some (Ev FitMask.read_sensors (Returned v))
               /\ match v with
                  | PSensors _ | PStr _ | PStrs _ => False
                  | _ => True
                  end.

(** [models.mkdir(exist_ok=True)] on a regular file, before anything is
    logged. *)
Definition models_is_a_file (e : exn) (last : option event) : Prop :=
  e_class e = FileExistsError /\ last = None.

(** [models.glob] on an empty pattern, before anything is logged. *)
Definition empty_pattern (e : exn) (last : option event) : Prop :=
  e_class e = ValueError /\ last = None.

(** The last thing logged is a [doc.save()] that returned. *)
Definition saved_last (last : option event) : Prop :=
  exists v, last = Some (Ev (Invoke Doc "save" [] []) (Returned v)).

(** The step at place [j] of the chain was completed by a call that
    returned. *)
Definition completed (p : Steps.plan) (log : list event) (j : nat) : Prop :=
  exists c v, In (Ev c (Returned v)) log
              /\ Steps.stage p (signature c) = j
              /\ Steps.completes p (signature c) = true.

(** A call of the chunk's method [meth] returned. *)
Definition returned (log : list event) (meth : string) : Prop :=
  exists c v, In (Ev c (Returned v)) log /\ is_method meth (signature c) = true.

(** An assignment to [fixed_calibration] of a sensor returned. *)
Definition calibration_set (log : list event) : Prop :=
  exists i x v, In (Ev (SetAttr (Sensor i) "fixed_calibration" x) (Returned v)) log.

(** The engine methods of the chain, in the order of the scripts. *)
Definition steps_B : list string :=
  ["addPhotos"; "importReference"; "matchPhotos"; "alignCameras"; "optimizeCameras";
   "buildDepthMaps"; "buildModel"; "exportCameras"].

Definition steps_A : list string :=
  ["addPhotos"; "importCameras"; "matchPhotos"; "alignCameras";
   "buildDepthMaps"; "buildModel"].

End Ending.

(** ** What a log shows *)

Module Log.

(** The lines printed, with their streams, in order. *)
Definition prints (log : list event) : list (stream * string) :=
  flat_map (fun ev => match ev with
                      | Printed s t => [(s, t)]
                      | Ev _ _ => []
                      end) log.

(** The interactions with the engine, in order. *)
Definition calls (log : list event) : list call :=
  flat_map (fun ev => match ev with
                      | Ev c _ => [c]
                      | Printed _ _ => []
                      end) log.

End Log.

(** ** What the engine is handed *)

Module Collect.
Import Str FS Sig.

(** The calls of a log that [sel] selects, in order. *)
Definition selected (sel : call -> bool) (log : list event) : list call :=
  filter sel (Log.calls log).

(** The monitor that collects them. *)
Definition step (sel : call -> bool) (q : list call) (ev : event) : option (list call) :=
  match ev with
  | Ev c _ => Some (if sel c then q ++ [c] else q)%list
  | Printed _ _ => Some q
  end.

(** The calls that name a file of the unit: the photos, the reference
    file, the camera file. *)
Definition names_a_file (c : call) : bool :=
  is_method "addPhotos" (signature c) || is_method "importReference" (signature c)
  || is_method "exportCameras" (signature c) || is_method "importCameras" (signature c).

(** The paths of the images, as [addPhotos] gets them. *)
Definition photo_paths (scan_dir : path) (uid : string) (imgs : list string) : list string :=
  map (fun i => path_str (child (child scan_dir (uid ++ "__edof")) i)) imgs.

(** Method B, lines 176, 208-217 and 341-361. *)
Definition file_calls_B (scan_dir : path) (uid dataset_id : string) (imgs : list string)
           (campos : string) (crs : pyval) : list call :=
  let cams_xml :=
    path_str (child (child scan_dir "models") (Names.cams_xml_name uid dataset_id)) in
  [Invoke Chunk "addPhotos" [PStrs (photo_paths scan_dir uid imgs)] [];
   Invoke Chunk "importReference" []
     [("path", PStr campos);
      ("format", PEnum "ReferenceFormatCSV");
      ("columns", PStr "nxyz");
      ("delimiter", PStr " ");
      ("items", PEnum "ReferenceItemsCameras");
      ("crs", crs_or_None crs);
      ("skip_rows", PInt 1);
      ("group_delimiters", PBool false)];
   Invoke Chunk "exportCameras" [] (MethodB.export_primary cams_xml crs);
   Invoke Chunk "exportCameras" [] (MethodB.export_legacy cams_xml crs)].

(** Method A, lines 101 and 110-116. *)
Definition file_calls_A (scan_dir : path) (uid : string) (imgs : list string)
           (xml : string) (crs : pyval) : list call :=
  let xml_path := path_str (child (child scan_dir "models") xml) in
  [Invoke Chunk "addPhotos" [PStrs (photo_paths scan_dir uid imgs)] [];
   Invoke Chunk "importCameras" [PStr xml_path; PEnum "CamerasFormatXML"; crs_or_None crs] [];
   Invoke Chunk "importCameras" [PStr xml_path; PEnum "CamerasFormatXML"] []].

(** The calls that the options of Method A govern: matching, and the
    thinning of the project. *)
Definition governed (c : call) : bool :=
  match c with
  | Invoke Chunk m _ _ =>
      String.eqb m "matchPhotos" || String.eqb m "clearDepthMaps"
      || String.eqb m "removeMatches"
  | SetAttr Chunk a _ => String.eqb a "depth_maps"
  | HasAttr Chunk a => String.eqb a "removeMatches"
  | _ => false
  end.

(** Method A, lines 128-150 and 66-74, under the options [--key-limit],
    [--tie-limit], [--keep-keypoints], [--keep-depth] and [--keep-matches]. *)
Definition governed_calls (key_limit tie_limit : Z)
           (keep_keypoints keep_depth keep_matches : bool) : list call :=
  [Invoke Chunk "matchPhotos" [] (MethodA.match_primary key_limit tie_limit keep_keypoints);
   Invoke Chunk "matchPhotos" [] (MethodA.match_fallback key_limit tie_limit keep_keypoints)]
  ++ (if keep_depth then []
      else [Invoke Chunk "clearDepthMaps" [] []; SetAttr Chunk "depth_maps" PNone])
  ++ (if keep_matches then []
      else [HasAttr Chunk "removeMatches"; Invoke Chunk "removeMatches" [] []]).

(** The calls that give the chunk a coordinate system. *)
Definition sets_crs (c : call) : bool :=
  match c with
  | SetAttr Chunk a _ => String.eqb a "crs" || String.eqb a "camera_crs"
  | HasAttr Chunk a => String.eqb a "camera_crs"
  | _ => false
  end.

(** Method B, lines 204-207, and Method A, lines 104-107. *)
Definition crs_calls (crs : pyval) : list call :=
  if truthy crs
  then [SetAttr Chunk "crs" crs; HasAttr Chunk "camera_crs"; SetAttr Chunk "camera_crs" crs]
  else [].

End Collect.

(* ================================================================== *)
(** * Part II. Theorems *)
(* ================================================================== *)

(** ** Strings *)

Module StrFacts.
Import Str.

Lemma append_nil_r (s : string) : s ++ EmptyString = s.
Proof. induction s; simpl; congruence. Qed.

Lemma append_assoc (a b c : string) : (a ++ b) ++ c = a ++ (b ++ c).
Proof. induction a; simpl; congruence. Qed.

Lemma length_app (a b : string) : length (a ++ b) = length a + length b.
Proof. induction a; simpl; congruence. Qed.

Lemma substring_app_prefix (x r : string) : substring 0 (length x) (x ++ r) = x.
Proof.
  induction x as [|a x IH]; simpl.
  - destruct r; reflexivity.
  - now rewrite IH.
Qed.

Lemma is_empty_true (s : string) : is_empty s = true -> s = EmptyString.
Proof. destruct s; simpl; congruence. Qed.

(** [lstrip] removes a prefix of spaces, and what is left does not start
    with a space. *)
Lemma lstrip_split (s : string) :
  exists w, s = w ++ lstrip s /\ all_space w = true.
Proof.
  induction s as [|c s [w [Hs Hw]]]; simpl.
  - exists EmptyString; auto.
  - destruct (isspace c) eqn:Hc.
    + exists (String c w); simpl. rewrite Hc, Hw, <- Hs. auto.
    + exists EmptyString; auto.
Qed.

Lemma lstrip_nonspace (c : ascii) (s : string) :
  isspace c = false -> lstrip (String c s) = String c s.
Proof. intros H; simpl; now rewrite H. Qed.

Lemma lstrip_app_space (w s : string) :
  all_space w = true -> lstrip (w ++ s) = lstrip s.
Proof.
  induction w as [|c w IH]; simpl; auto.
  intros H; apply andb_prop in H as [Hc Hw]. rewrite Hc; auto.
Qed.

Lemma rstrip_all_space (t : string) : all_space t = true -> rstrip t = EmptyString.
Proof.
  induction t as [|c t IH]; simpl; auto.
  intros H; apply andb_prop in H as [Hc Ht]. rewrite (IH Ht), Hc. reflexivity.
Qed.

(** [rstrip] removes a suffix of spaces. *)
Lemma rstrip_split (s : string) :
  exists t, s = rstrip s ++ t /\ all_space t = true.
Proof.
  induction s as [|c s [t [Hs Ht]]]; simpl.
  - exists EmptyString; auto.
  - destruct (is_empty (rstrip s) && isspace c) eqn:He.
    + apply andb_prop in He as [He Hc]. exists (String c s). simpl. rewrite Hc.
      split; auto. apply is_empty_true in He. rewrite He in Hs. simpl in Hs. now subst t.
    + exists t. simpl. split; auto. now rewrite <- Hs.
Qed.

(** A string that ends with a character that is no space is left alone
    by [rstrip], whatever spaces follow it. *)
Lemma rstrip_app_space (s t : string) (c : ascii) :
  isspace c = false -> all_space t = true ->
  rstrip ((s ++ String c EmptyString) ++ t) = s ++ String c EmptyString.
Proof.
  intros Hc Ht. induction s as [|d s IH]; simpl.
  - rewrite (rstrip_all_space t Ht). simpl. now rewrite Hc.
  - rewrite IH. destruct s; simpl; reflexivity.
Qed.

Lemma rstrip_head (c : ascii) (s : string) :
  isspace c = false -> exists r, rstrip (String c s) = String c r.
Proof.
  intros Hc. simpl. rewrite Hc, andb_false_r. eauto.
Qed.

End StrFacts.

(** ** The scan list *)

Module ScanListFacts.
Import Str ScanList StrFacts.

Example splitlines_ex :
  splitlines ("a" ++ String "010" EmptyString ++ String "013" (String "010" EmptyString) ++ "b c" ++ String "013" EmptyString)
  = ["a"; EmptyString; "b c"].
Proof. reflexivity. Qed.

Example read_dates_ex :
  read_dates ("# list" ++ String "010" EmptyString ++ " 20250502T082851  " ++ String "010" EmptyString
              ++ String "010" EmptyString ++ "2025-05-02" ++ String "010" EmptyString ++ "20250502T145837")
  = ["20250502T082851"; "20250502T145837"].
Proof. reflexivity. Qed.

Lemma isdigit_not_space (c : ascii) : isdigit c = true -> isspace c = false.
Proof.
  unfold isdigit, isspace. intros H.
  apply andb_prop in H as [H1 H2].
  apply N.leb_le in H1. 
  destruct (N_of_ascii c <=? 13)%N eqn:A; [apply N.leb_le in A; lia|].
  destruct (N_of_ascii c <=? 32)%N eqn:B; [apply N.leb_le in B; lia|].
  now rewrite !andb_false_r.
Qed.

(** [digits n s = Some r]: [s] is [n] characters followed by [r], and the
    last of the [n] (when there is one) is no space. *)
Lemma digits_split (n : nat) : forall s r,
  digits n s = Some r ->
  exists d, s = d ++ r /\ length d = n /\ substring 0 n s = d
            /\ (n <> 0 -> exists d' c, d = d' ++ String c EmptyString /\ isspace c = false).
Proof.
  induction n as [|n IH]; simpl; intros s r H.
  - inversion H; subst. exists EmptyString. repeat split; auto.
    + destruct r; reflexivity.
    + congruence.
  - destruct s as [|c s]; [discriminate|].
    destruct (isdigit c) eqn:Hc; [|discriminate].
    destruct (IH _ _ H) as (d & Hs & Hl & Hsub & Hlast).
    exists (String c d). simpl. repeat split; try congruence.
    intros _. destruct n as [|n].
    + destruct d; [|discriminate]. exists EmptyString, c. split; auto using isdigit_not_space.
    + destruct Hlast as (d' & c' & Hd & Hc'); [congruence|].
      exists (String c d'), c'. simpl. split; congruence.
Qed.

Lemma digits_app (n : nat) : forall s r t,
  digits n s = Some r -> digits n (s ++ t) = Some (r ++ t).
Proof.
  induction n as [|n IH]; simpl; intros s r t H.
  - congruence.
  - destruct s as [|c s]; [discriminate|]. simpl.
    destruct (isdigit c); [auto|discriminate].
Qed.

Lemma digits_swap (n : nat) : forall d r r' x,
  length d = n -> digits n (d ++ r) = Some r' -> digits n (d ++ x) = Some x.
Proof.
  induction n as [|n IH]; intros d r r' x Hl H.
  - destruct d; [reflexivity|discriminate].
  - destruct d as [|a d]; [discriminate|]. simpl in *.
    destruct (isdigit a); [|discriminate]. apply (IH d r r'); auto.
Qed.

Lemma stamp_prefix_app (s r t : string) :
  stamp_prefix s = Some r -> stamp_prefix (s ++ t) = Some (r ++ t).
Proof.
  unfold stamp_prefix. intros H.
  destruct (digits 8 s) as [[|c r8]|] eqn:H8; try discriminate.
  rewrite (digits_app _ _ _ t H8). cbn [append].
  destruct (Ascii.eqb c "T"); [|discriminate].
  now apply digits_app.
Qed.

(** [stamp_prefix s = Some r]: [s] is a timestamp of 15 characters that
    ends with a digit, followed by [r]. *)
Lemma stamp_prefix_split (s r : string) :
  stamp_prefix s = Some r ->
  exists core c, s = (core ++ String c EmptyString) ++ r /\ isspace c = false
                 /\ substring 0 15 s = core ++ String c EmptyString
                 /\ is_stamp (core ++ String c EmptyString) = true.
Proof.
  unfold is_stamp, stamp_prefix. intros H.
  destruct (digits 8 s) as [[|t r8]|] eqn:H8; try discriminate.
  destruct (Ascii.eqb t "T") eqn:Ht; [|discriminate].
  destruct (digits_split _ _ _ H8) as (d8 & Hs & Hl8 & Hsub8 & _).
  destruct (digits_split _ _ _ H) as (d6 & Hr & Hl6 & Hsub6 & Hlast).
  destruct Hlast as (d' & c & Hd6 & Hc); [congruence|].
  exists (d8 ++ String t d'), c.
  assert (Hcore : (d8 ++ String t d') ++ String c EmptyString = d8 ++ String t d6).
  { rewrite append_assoc. simpl. now rewrite Hd6. }
  rewrite Hcore.
  assert (Hs' : s = (d8 ++ String t d6) ++ r).
  { rewrite append_assoc. simpl. now rewrite <- Hr. }
  assert (L : length (d8 ++ String t d6) = 15).
  { rewrite length_app. simpl. lia. }
  repeat split; auto.
  - rewrite Hs', <- L. apply substring_app_prefix.
  - (* the core alone is a timestamp *)
    rewrite Hs in H8. rewrite (digits_swap _ _ _ _ (String t d6) Hl8 H8), Ht.
    rewrite Hr in H. rewrite <- (append_nil_r d6) at 1.
    now rewrite (digits_swap _ _ _ _ EmptyString Hl6 H).
Qed.

(** [match_date] is the match on the trimmed line. *)
Lemma match_date_strip (line : string) :
  match_date line = if is_stamp (strip line) then Some (strip line) else None.
Proof.
  unfold match_date, strip.
  destruct (stamp_prefix (lstrip line)) as [rest|] eqn:Hp.
  - destruct (stamp_prefix_split _ _ Hp) as (core & c & Hs & Hc & Hsub & Hst).
    destruct (all_space rest) eqn:Hr.
    + rewrite Hsub. rewrite Hs. rewrite (rstrip_app_space _ _ _ Hc Hr), Hst. reflexivity.
    + destruct (is_stamp (rstrip (lstrip line))) eqn:Hst'; auto. exfalso.
      destruct (rstrip_split (lstrip line)) as (t & Hl & Ht).
      unfold is_stamp in Hst'.
      destruct (stamp_prefix (rstrip (lstrip line))) as [[|]|] eqn:Hq; try discriminate.
      apply (stamp_prefix_app _ _ t) in Hq. rewrite <- Hl, Hp in Hq. simpl in Hq.
      inversion Hq; subst. congruence.
  - destruct (is_stamp (rstrip (lstrip line))) eqn:Hst'; auto. exfalso.
    destruct (rstrip_split (lstrip line)) as (t & Hl & Ht).
    unfold is_stamp in Hst'.
    destruct (stamp_prefix (rstrip (lstrip line))) as [[|]|] eqn:Hq; try discriminate.
    apply (stamp_prefix_app _ _ t) in Hq. rewrite <- Hl, Hp in Hq. discriminate.
Qed.

Lemma is_stamp_head_digit (s : string) :
  is_stamp s = true -> exists c r, s = String c r /\ isdigit c = true.
Proof.
  unfold is_stamp, stamp_prefix. destruct s as [|c r]; simpl; [discriminate|].
  destruct (isdigit c) eqn:Hc; [eauto|discriminate].
Qed.

(** [match_date] computes the match of the regular expression. *)
Lemma match_date_regex (line core : string) :
  match_date line = Some core <-> re_date line core.
Proof.
  rewrite match_date_strip. split.
  - destruct (is_stamp (strip line)) eqn:Hst; [|discriminate].
    intros H; inversion H; subst core; clear H.
    destruct (lstrip_split line) as (w1 & Hl & Hw1).
    destruct (rstrip_split (lstrip line)) as (w2 & Hr & Hw2).
    exists w1, w2. unfold strip in *. rewrite <- Hr, <- Hl. auto.
  - intros (w1 & w2 & Hl & Hw1 & Hst & Hw2).
    destruct (is_stamp_head_digit _ Hst) as (c & r & Hc & Hd).
    assert (Hs : strip line = core).
    { unfold strip. rewrite Hl, (lstrip_app_space _ _ Hw1).
      unfold is_stamp in Hst.
      destruct (stamp_prefix core) as [[|]|] eqn:Hq; try discriminate.
      destruct (stamp_prefix_split _ _ Hq) as (k & z & Hk & Hz & _).
      rewrite append_nil_r in Hk.
      assert (Hls : lstrip (core ++ w2) = core ++ w2).
      { rewrite Hc. simpl. now rewrite (isdigit_not_space _ Hd). }
      rewrite Hls, Hk. apply rstrip_app_space; auto. }
    now rewrite Hs, Hst.
Qed.

Lemma is_stamp_blank (line : string) :
  is_empty (strip line) = true -> is_stamp (strip line) = false.
Proof. intros H. apply is_empty_true in H. now rewrite H. Qed.

Lemma is_stamp_comment (line : string) :
  startswith "#" (lstrip line) = true -> is_stamp (strip line) = false.
Proof.
  unfold strip. destruct (lstrip line) as [|c s] eqn:Hl; [discriminate|].
  cbn [startswith]. rewrite andb_true_r. intros H. apply Ascii.eqb_eq in H. subst c.
  destruct (rstrip_head "#" s eq_refl) as (r & Hr). rewrite Hr. reflexivity.
Qed.

Lemma read_lines_filter (lines : list string) :
  read_lines lines = map strip (filter (fun l => is_stamp (strip l)) lines).
Proof.
  induction lines as [|l ls IH]; [reflexivity|].
  cbn [read_lines filter].
  destruct (is_empty (strip l) || startswith "#" (lstrip l)) eqn:Hskip.
  - apply orb_prop in Hskip as [H|H].
    + now rewrite (is_stamp_blank _ H).
    + now rewrite (is_stamp_comment _ H).
  - rewrite match_date_strip. destruct (is_stamp (strip l)); cbn [map]; congruence.
Qed.

(** [read_dates] as a filter: it keeps, trimmed and in order, the lines
    on which the matcher succeeds once they are trimmed; a blank line and
    a line whose first non-blank character is [#] are not among them. *)
Lemma read_dates_as_filter (text : string) :
  read_dates text
  = map strip (filter (fun l => is_stamp (strip l)) (splitlines text))
  /\ (forall l, is_empty (strip l) = true \/ startswith "#" (lstrip l) = true ->
                is_stamp (strip l) = false)
  /\ (forall l d, In d (read_lines [l]) <-> re_date l d).
Proof.
  split; [apply read_lines_filter|]. split.
  - intros l [H|H]; [now apply is_stamp_blank | now apply is_stamp_comment].
  - intros l d. rewrite read_lines_filter. cbn [filter].
    rewrite <- match_date_regex, match_date_strip.
    destruct (is_stamp (strip l)); cbn [map In]; split; intros H.
    + destruct H as [H|[]]. congruence.
    + left. congruence.
    + contradiction.
    + discriminate.
Qed.

End ScanListFacts.

(** ** The file system *)

Module FSFacts.
Import Str FS Spec.

Lemma find_entry_some (nm : string) (f : folder) (e : entry) :
  find_entry nm f = Some e -> e_name e = nm /\ In e f.
Proof.
  induction f as [|x f IH]; simpl; [discriminate|].
  destruct (String.eqb_spec (e_name x) nm).
  - intros H; inversion H; subst. auto.
  - intros H. destruct (IH H). auto.
Qed.

Lemma glob_in_nonempty (nm pat : string) (f : folder) :
  glob_in nm pat f <> [] ->
  exists names, find_entry nm f = Some {| e_name := nm; e_children := Some names |}.
Proof.
  unfold glob_in. destruct (find_entry nm f) as [[n [names|]]|] eqn:H; try congruence.
  intros _. apply find_entry_some in H as [H _]. simpl in H. subst n. eauto.
Qed.

Lemma insert_sorted_not_nil (x : string) (l : list string) : insert_sorted x l <> [].
Proof. destruct l; simpl; [|destruct (Str.leb x s)]; discriminate. Qed.

Lemma sorted_nil (l : list string) : sorted l = [] -> l = [].
Proof.
  destruct l; simpl; auto. intros H. now apply insert_sorted_not_nil in H.
Qed.

Lemma path_eqb_refl (p : path) : path_eqb p p = true.
Proof. induction p; simpl; auto. now rewrite String.eqb_refl. Qed.

Lemma path_eqb_eq (p q : path) : path_eqb p q = true -> p = q.
Proof.
  revert q. induction p as [|a p IH]; destruct q as [|b q]; simpl; try discriminate; auto.
  intros H. apply andb_prop in H as [H1 H2]. apply String.eqb_eq in H1. f_equal; auto.
Qed.

(** Writing a folder that exists makes it the one that is read back. *)
Lemma tree_get_set (p : path) (f f0 : folder) (t : list (path * option folder)) :
  tree_get p t = Some f0 -> tree_get p (tree_set p f t) = Some f.
Proof.
  induction t as [|[q n] t IH]; simpl; [discriminate|].
  destruct (path_eqb p q) eqn:H; simpl; rewrite H; auto.
Qed.

Lemma listdir_with_folder (d : fs) (p : path) (f : folder) :
  listdir d p <> [] -> listdir (with_folder d p f) p = f.
Proof.
  unfold listdir, with_folder; simpl.
  destruct (tree_get p (tree d)) as [f0|] eqn:H; [|congruence].
  intros _. now rewrite (tree_get_set _ f _ _ H).
Qed.

Lemma find_entry_app_new (nm : string) (f : folder) (e : entry) :
  find_entry nm f = None -> e_name e = nm -> find_entry nm (f ++ [e])%list = Some e.
Proof.
  intros H He. induction f as [|x f IH]; simpl in *.
  - rewrite He, String.eqb_refl. reflexivity.
  - destruct (String.eqb (e_name x) nm); [discriminate|auto].
Qed.

Lemma find_entry_nonempty (nm : string) (f : folder) (e : entry) :
  find_entry nm f = Some e -> f <> [].
Proof. destruct f; simpl; congruence. Qed.

End FSFacts.

(** ** The monad *)

Module MonadFacts.

Lemma bind_val {E A B} (m : M E A) (k : A -> M E B) (w w' : world E) (a : A) :
  m w = (Val a, w') -> bind m k w = k a w'.
Proof. unfold bind. now intros ->. Qed.

Lemma bind_exc {E A B} (m : M E A) (k : A -> M E B) (w w' : world E) (e : exn) :
  m w = (Exc e, w') -> bind m k w = (Exc e, w').
Proof. unfold bind. now intros ->. Qed.

Lemma catch_val {E A} (m : M E A) (h : exn -> M E A) (w w' : world E) (a : A) :
  m w = (Val a, w') -> catch m h w = (Val a, w').
Proof. unfold catch. now intros ->. Qed.

Lemma catch_exc {E A} (m : M E A) (h : exn -> M E A) (w w' : world E) (e : exn) :
  m w = (Exc e, w') -> catch m h w = h e w'.
Proof. unfold catch. now intros ->. Qed.

End MonadFacts.

(** ** Validation of a scan folder *)

Module Validation.
Import Str FS Spec FSFacts MonadFacts.

Section Engine.
Context {E : Type}.
Variable respond : E -> call -> reply * E.

(** What [mkdir_models] does: nothing when [models] is a directory, a new
    empty directory when it is missing, [FileExistsError] when it is a
    regular file.  The engine is not involved. *)
Lemma mkdir_models_cases (scan_dir : path) (w : world E) :
  let f := listdir (w_fs w) scan_dir in
  (exists e, find_entry "models" f = Some e /\ is_dir e = true
             /\ MethodA.mkdir_models (E:=E) scan_dir w = (Val tt, w))
  \/ (find_entry "models" f = None
      /\ MethodA.mkdir_models (E:=E) scan_dir w
         = (Val tt, {| w_fs := with_folder (w_fs w) scan_dir
                                 (f ++ [{| e_name := "models"; e_children := Some [] |}])%list;
                       w_eng := w_eng w; w_log := w_log w |}))
  \/ (exists e, find_entry "models" f = Some e /\ is_dir e = false
                /\ MethodA.mkdir_models (E:=E) scan_dir w
                   = (Exc {| e_class := FileExistsError;
                             e_text := "[Errno 17] File exists: '"
                                       ++ path_str (child scan_dir "models") ++ "'" |}, w)).
Proof.
  intros f. unfold MethodA.mkdir_models, bind, read_fs, mkdir_in. fold f.
  destruct (find_entry "models" f) as [e|] eqn:H.
  - destruct (is_dir e) eqn:Hd; [left|right; right]; exists e; auto.
  - right; left. auto.
Qed.

(** After a successful [mkdir_models] the folder has a [models]
    directory, provided the scan folder is there. *)
Lemma mkdir_models_dir (scan_dir : path) (w w' : world E) :
  listdir (w_fs w) scan_dir <> [] ->
  MethodA.mkdir_models (E:=E) scan_dir w = (Val tt, w') ->
  has_models_dir (listdir (w_fs w') scan_dir) /\ no_engine_call w w'.
Proof.
  intros Hne H.
  destruct (mkdir_models_cases scan_dir w) as [(e & He & Hd & R)|[(He & R)|(e & He & Hd & R)]];
    rewrite R in H; inversion H; subst; clear H.
  - split; [|split; reflexivity].
    destruct e as [n [names|]]; [|discriminate].
    apply find_entry_some in He as He'. destruct He' as [Hn _]. simpl in Hn. subst n.
    exists names. exact He.
  - split; [|split; reflexivity]. simpl.
    rewrite listdir_with_folder by assumption.
    exists []. now apply find_entry_app_new.
Qed.

(** [find_xml] reads [models/] and takes the first match in sorted order;
    it refuses the empty pattern. *)
Lemma find_xml_val (scan_dir : path) (xml_glob : string) (w : world E) :
  is_empty xml_glob = false ->
  MethodA.find_xml (E:=E) scan_dir xml_glob w
  = (Val (MethodA.first_xml xml_glob (models_names (listdir (w_fs w) scan_dir))), w).
Proof.
  intros Hg. unfold MethodA.find_xml, bind, read_fs, ret, models_names. rewrite Hg.
  destruct (find_entry "models" (listdir (w_fs w) scan_dir)) as [[n [names|]]|]; reflexivity.
Qed.

(** A pattern of the fragment is not empty. *)
Lemma plain_not_empty (pat : string) : plain pat = true -> is_empty pat = false.
Proof. destruct pat; [discriminate|reflexivity]. Qed.

(** Whatever the pattern, the lookup leaves the world as it is. *)
Lemma find_xml_world (scan_dir : path) (xml_glob : string) (w : world E) :
  snd (MethodA.find_xml (E:=E) scan_dir xml_glob w) = w.
Proof.
  unfold MethodA.find_xml, bind, read_fs, ret, raise.
  destruct (is_empty xml_glob); reflexivity.
Qed.

Lemma find_xml_empty (scan_dir : path) (w : world E) :
  MethodA.find_xml (E:=E) scan_dir EmptyString w
  = (Exc {| e_class := ValueError; e_text := "Unacceptable pattern: ''" |}, w).
Proof. reflexivity. Qed.

Lemma edof_images_folder (f : folder) (uid : string) :
  edof_images f uid <> [] -> has_edof_folder f uid.
Proof.
  unfold edof_images, has_edof_folder. intros H.
  apply glob_in_nonempty with (pat := "*.png"). intros H0. apply H. now rewrite H0.
Qed.

(** Method B: the validation either hands the unit, fully resolved, to the
    pipeline, or rejects it and leaves the world as it was. *)
Lemma process_scan_B_resolution (scan_dir : path) (f_px : Q) (crs : pyval) (w : world E) :
  let f := listdir (w_fs w) scan_dir in
  (exists uid campos,
      has_edof_folder f uid /\ edof_images f uid <> []
      /\ glob "*__CamPos.txt" f = [campos]
      /\ MethodB.process_scan respond scan_dir f_px crs w
         = MethodB.run_pipeline respond scan_dir uid
             (remove_all "__DISC3D" (name scan_dir)) (edof_images f uid)
             (path_str (child scan_dir (e_name campos))) f_px crs w)
  \/ (exists reason,
         In reason (rejections_B scan_dir f)
         /\ MethodB.process_scan respond scan_dir f_px crs w = (Val ("fail", reason), w)).
Proof.
  intros f. unfold MethodB.process_scan, MethodB.get_uid_and_dataset, rejections_B.
  cbn [bind read_fs]. fold f.
  destruct (MethodB.first_uid (glob "*__edof" f)) as [uid|] eqn:Hu.
  - fold (edof_images f uid).
    destruct (edof_images f uid) as [|i imgs] eqn:Hi.
    + right. eexists. split; [|reflexivity]. simpl. auto.
    + destruct (glob "*__CamPos.txt" f) as [|campos [|c2 rest]] eqn:Hc.
      * right. eexists. split; [|reflexivity]. simpl. auto.
      * left. exists uid, campos. repeat split; auto; try congruence.
        apply edof_images_folder. congruence.
      * right. eexists. split; [|reflexivity]. simpl. auto.
  - right. eexists. split; [|reflexivity]. simpl. auto.
Qed.

(** Method A: the validation hands the unit to the pipeline, or rejects
    it, or raises: [models] is a regular file, or the pattern is empty.
    The engine is not called before the pipeline starts. *)
Lemma process_scan_A_resolution (scan_dir : path) (crs : pyval) (gpu : option Z)
      (xml_glob : string) (kl tl : Z) (kk kd km : bool) (w : world E) :
  let f := listdir (w_fs w) scan_dir in
  (exists uid xml w',
      has_edof_folder f uid /\ edof_images f uid <> []
      /\ MethodA.mkdir_models scan_dir w = (Val tt, w')
      /\ has_models_dir (listdir (w_fs w') scan_dir)
      /\ MethodA.first_xml xml_glob (models_names (listdir (w_fs w') scan_dir)) = Some xml
      /\ no_engine_call w w'
      /\ MethodA.process_scan respond scan_dir crs gpu xml_glob kl tl kk kd km w
         = MethodA.run_pipeline respond scan_dir uid
             (remove_all "__DISC3D" (name scan_dir)) (edof_images f uid) xml
             crs gpu kl tl kk kd km w')
  \/ (exists reason w',
         In reason (rejections_A scan_dir xml_glob f)
         /\ no_engine_call w w'
         /\ MethodA.process_scan respond scan_dir crs gpu xml_glob kl tl kk kd km w
            = (Val ("fail", reason), w'))
  \/ (exists e w',
         no_engine_call w w'
         /\ MethodA.process_scan respond scan_dir crs gpu xml_glob kl tl kk kd km w
            = (Exc e, w')
         /\ ((e_class e = FileExistsError
              /\ exists m, find_entry "models" f = Some m /\ is_dir m = false)
             \/ (e_class e = ValueError /\ xml_glob = EmptyString))).
Proof.
  intros f. unfold MethodA.process_scan, MethodA.get_uid_dataset, rejections_A.
  cbn [bind read_fs]. fold f.
  destruct (MethodA.first_uid (glob "*__edof" f)) as [uid|] eqn:Hu.
  2:{ right; left. exists "No '<uid>__edof' folder found", w.
      split; [simpl; auto|]. split; [split; reflexivity|reflexivity]. }
  fold (edof_images f uid).
  destruct (edof_images f uid) as [|i imgs] eqn:Hi.
  { right; left. eexists _, w. split; cycle 1.
    { split; [split; reflexivity|reflexivity]. }
    simpl; auto. }
  assert (Hf : has_edof_folder f uid) by (apply edof_images_folder; congruence).
  assert (Hne : f <> []) by (destruct Hf as [n Hn]; now apply find_entry_nonempty in Hn).
  destruct (MethodA.mkdir_models scan_dir w) as [[[]|e] w'] eqn:Hmk.
  - destruct (mkdir_models_dir scan_dir w w' Hne Hmk) as [Hmd Hno].
    rewrite (bind_val _ _ _ _ _ Hmk).
    destruct (is_empty xml_glob) eqn:Hg.
    + apply StrFacts.is_empty_true in Hg. subst xml_glob.
      rewrite (bind_exc _ _ _ _ _ (find_xml_empty scan_dir w')).
      right; right. eexists _, w'. split; [exact Hno|]. split; [reflexivity|].
      right. split; reflexivity.
    + rewrite (bind_val _ _ _ _ _ (find_xml_val scan_dir xml_glob w' Hg)).
      destruct (MethodA.first_xml xml_glob (models_names (listdir (w_fs w') scan_dir)))
        as [xml|] eqn:Hx.
      * left. exists uid, xml, w'. rewrite <- Hi. repeat split; auto; try apply Hno.
        congruence.
      * right; left. eexists _, w'. split; cycle 1.
        { split; [exact Hno|reflexivity]. }
        simpl; auto.
  - right; right. exists e, w'. rewrite (bind_exc _ _ _ _ _ Hmk).
    destruct (mkdir_models_cases scan_dir w) as [(m & Hm & Hd & R)|[(Hm & R)|(m & Hm & Hd & R)]];
      rewrite R in Hmk; inversion Hmk; subst; clear Hmk.
    split; [split; reflexivity|]. split; [reflexivity|].
    left. split; [reflexivity|]. exists m. auto.
Qed.

End Engine.



End Validation.

(** ** Sorting names *)

Module SortFacts.
Import Str Spec.

Lemma ascii_compare_N (a b : ascii) :
  Ascii.compare a b = N.compare (N_of_ascii a) (N_of_ascii b).
Proof. reflexivity. Qed.

Lemma compare_not_gt_trans (a : string) : forall b c,
  String.compare a b <> Gt -> String.compare b c <> Gt -> String.compare a c <> Gt.
Proof.
  induction a as [|x a IH]; intros [|y b] [|z c]; simpl; try congruence.
  rewrite !ascii_compare_N.
  destruct (N.compare_spec (N_of_ascii x) (N_of_ascii y)) as [Hxy|Hxy|Hxy];
    destruct (N.compare_spec (N_of_ascii y) (N_of_ascii z)) as [Hyz|Hyz|Hyz];
    destruct (N.compare_spec (N_of_ascii x) (N_of_ascii z)) as [Hxz|Hxz|Hxz];
    try congruence; try lia.
  apply IH.
Qed.

Lemma leb_trans (a b c : string) :
  Str.leb a b = true -> Str.leb b c = true -> Str.leb a c = true.
Proof.
  unfold Str.leb, String.leb. intros H1 H2.
  assert (A : String.compare a b <> Gt) by (destruct (String.compare a b); congruence).
  assert (B : String.compare b c <> Gt) by (destruct (String.compare b c); congruence).
  pose proof (compare_not_gt_trans a b c A B).
  destruct (String.compare a c); congruence.
Qed.


Lemma insert_sorted_perm (x : string) (l : list string) :
  Permutation (x :: l) (insert_sorted x l).
Proof.
  induction l as [|y l IH]; simpl; auto.
  destruct (Str.leb x y); auto.
  eapply perm_trans; [apply perm_swap|]. now constructor.
Qed.

(** [sorted] rearranges its argument. *)
Lemma sorted_perm (l : list string) : Permutation l (sorted l).
Proof.
  induction l as [|x l IH]; simpl; auto.
  eapply perm_trans; [|apply insert_sorted_perm]. now constructor.
Qed.

Lemma sorted_in (l : list string) (x : string) : In x (sorted l) <-> In x l.
Proof.
  split; apply Permutation_in; [apply Permutation_sym|]; apply sorted_perm.
Qed.





End SortFacts.

(** ** Method A: which calibrated-camera file is taken *)

Module XmlSelection.
Import Str FS Spec FSFacts SortFacts MonadFacts Validation.


Lemma filter_perm {A} (p : A -> bool) (l l' : list A) :
  Permutation l l' -> Permutation (filter p l) (filter p l').
Proof.
  induction 1; simpl; auto.
  - destruct (p x); auto.
  - destruct (p x), (p y); auto. apply perm_swap.
  - eapply perm_trans; eauto.
Qed.


Lemma first_xml_none (xml_glob : string) (names : list string) :
  MethodA.first_xml xml_glob names = None <-> filter (fnmatch xml_glob) names = [].
Proof.
  unfold MethodA.first_xml. split.
  - destruct (sorted _) eqn:H; [|discriminate]. intros _. now apply sorted_nil.
  - now intros ->.
Qed.


Section Engine.
Context {E : Type}.
Variable respond : E -> call -> reply * E.

Lemma models_names_mkdir (scan_dir : path) (w w' : world E) :
  listdir (w_fs w) scan_dir <> [] ->
  MethodA.mkdir_models scan_dir w = (Val tt, w') ->
  models_names (listdir (w_fs w') scan_dir) = models_names (listdir (w_fs w) scan_dir).
Proof.
  intros Hne H.
  destruct (mkdir_models_cases scan_dir w) as [(e & He & Hd & R)|[(He & R)|(e & He & Hd & R)]];
    rewrite R in H; inversion H; subst; clear H; auto.
  simpl. rewrite listdir_with_folder by assumption.
  unfold models_names. rewrite He.
  now rewrite (find_entry_app_new "models" _ {| e_name := "models"; e_children := Some [] |} He).
Qed.

End Engine.



End XmlSelection.

(** ** Reasoning about logs with monitors *)

Module MonitorFacts.
Import Monitor.

Section Rules.
Context {Q : Type}.
Variable step : Q -> event -> option Q.

Lemma run_snoc (q : Q) (log : list event) (ev : event) :
  run step q (log ++ [ev])%list = feed step (run step q log) ev.
Proof. unfold run. now rewrite fold_left_app. Qed.

Lemma feed_none (log : list event) : fold_left (feed step) log None = None.
Proof. induction log; simpl; auto. Qed.

Lemma run_app (q : Q) (l1 l2 : list event) :
  run step q (l1 ++ l2)%list
  = match run step q l1 with
    | Some q1 => run step q1 l2
    | None => None
    end.
Proof.
  unfold run. rewrite fold_left_app.
  destruct (fold_left (feed step) l1 (Some q)); auto using feed_none.
Qed.

Lemma run_nil (q q' : Q) : run step q [] = Some q' -> q = q'.
Proof. unfold run. simpl. congruence. Qed.

Lemma run_cons (q q' : Q) (ev : event) (log : list event) :
  run step q (ev :: log) = Some q' ->
  exists q1, step q ev = Some q1 /\ run step q1 log = Some q'.
Proof.
  unfold run. cbn [fold_left feed]. destruct (step q ev) as [q1|]; [eauto|].
  now rewrite feed_none.
Qed.

Lemma run_split (q q' : Q) (pre post : list event) (ev : event) :
  run step q (pre ++ ev :: post)%list = Some q' ->
  exists q1 q2, run step q pre = Some q1 /\ step q1 ev = Some q2
                /\ run step q2 post = Some q'.
Proof.
  rewrite run_app. destruct (run step q pre) as [q1|]; [|discriminate].
  intros H. apply run_cons in H as (q2 & H1 & H2). eauto.
Qed.

Context {E : Type}.
Variable respond : E -> call -> reply * E.
Variable init : Q.

Local Abbreviation moves := (moves (E:=E) step init).
Local Abbreviation at_state := (at_state (E:=E) step init).

Lemma moves_ret {A} (q : Q) (a : A) (Qv : A -> Q -> Prop) (Qe : exn -> Q -> Prop) :
  Qv a q -> moves q (ret a) Qv Qe.
Proof. intros H w Hw. simpl. eauto. Qed.

Lemma moves_raise {A} (q : Q) (e : exn) (Qv : A -> Q -> Prop) (Qe : exn -> Q -> Prop) :
  Qe e q -> moves q (raise e) Qv Qe.
Proof. intros H w Hw. simpl. eauto. Qed.

Lemma moves_bind {A B} (q : Q) (m : M E A) (k : A -> M E B)
      (R : A -> Q -> Prop) (Qv : B -> Q -> Prop) (Qe : exn -> Q -> Prop) :
  moves q m R Qe ->
  (forall a q', R a q' -> moves q' (k a) Qv Qe) ->
  moves q (bind m k) Qv Qe.
Proof.
  intros Hm Hk w Hw. unfold bind. specialize (Hm w Hw).
  destruct (m w) as [[a|e] w1]; destruct Hm as (q1 & H1 & H2).
  - apply (Hk a q1 H2 w1 H1).
  - eauto.
Qed.

Lemma moves_catch {A} (q : Q) (m : M E A) (h : exn -> M E A)
      (R : exn -> Q -> Prop) (Qv : A -> Q -> Prop) (Qe : exn -> Q -> Prop) :
  moves q m Qv R ->
  (forall e q', R e q' -> moves q' (h e) Qv Qe) ->
  moves q (catch m h) Qv Qe.
Proof.
  intros Hm Hh w Hw. unfold catch. specialize (Hm w Hw).
  destruct (m w) as [[a|e] w1]; destruct Hm as (q1 & H1 & H2).
  - eauto.
  - apply (Hh e q1 H2 w1 H1).
Qed.

Lemma moves_weaken {A} (q : Q) (m : M E A)
      (Qv Qv' : A -> Q -> Prop) (Qe Qe' : exn -> Q -> Prop) :
  moves q m Qv Qe ->
  (forall a q', Qv a q' -> Qv' a q') ->
  (forall e q', Qe e q' -> Qe' e q') ->
  moves q m Qv' Qe'.
Proof.
  intros Hm Hv He w Hw. specialize (Hm w Hw).
  destruct (m w) as [[a|e] w1]; destruct Hm as (q1 & H1 & H2); eauto.
Qed.

(** One interaction with the engine: the monitor takes the event, whatever
    the engine answers. *)
Lemma moves_engine (q : Q) (c : call) (Qv : pyval -> Q -> Prop) (Qe : exn -> Q -> Prop) :
  (forall v, exists q', step q (Ev c (Returned v)) = Some q' /\ Qv v q') ->
  (forall e, exists q', step q (Ev c (Threw e)) = Some q' /\ Qe e q') ->
  moves q (engine respond c) Qv Qe.
Proof.
  intros Hv He w Hw. unfold engine.
  destruct (respond (w_eng w) c) as [[v|e] s'].
  - destruct (Hv v) as (q' & H1 & H2). exists q'. split; auto.
    unfold Monitor.at_state in *. simpl. now rewrite run_snoc, Hw.
  - destruct (He e) as (q' & H1 & H2). exists q'. split; auto.
    unfold Monitor.at_state in *. simpl. now rewrite run_snoc, Hw.
Qed.

Lemma moves_print (q : Q) (s : stream) (text : string)
      (Qv : unit -> Q -> Prop) (Qe : exn -> Q -> Prop) :
  (exists q', step q (Printed s text) = Some q' /\ Qv tt q') ->
  moves q (print s text) Qv Qe.
Proof.
  intros (q' & H1 & H2) w Hw. unfold print. exists q'. split; auto.
  unfold Monitor.at_state in *. simpl. now rewrite run_snoc, Hw.
Qed.

Lemma moves_read_fs (q : Q) (Qv : FS.fs -> Q -> Prop) (Qe : exn -> Q -> Prop) :
  (forall d, Qv d q) -> moves q read_fs Qv Qe.
Proof. intros H w Hw. simpl. eauto. Qed.

Lemma moves_write_fs (q : Q) (d : FS.fs) (Qv : unit -> Q -> Prop) (Qe : exn -> Q -> Prop) :
  Qv tt q -> moves q (write_fs d) Qv Qe.
Proof. intros H w Hw. simpl. eauto. Qed.

(** Sequencing when the state after the first part is known. *)
Lemma moves_seq {A B} (q q1 : Q) (m : M E A) (k : A -> M E B)
      (Qv : B -> Q -> Prop) (Qe : exn -> Q -> Prop) :
  moves q m (fun _ q' => q' = q1) Qe ->
  (forall a, moves q1 (k a) Qv Qe) ->
  moves q (bind m k) Qv Qe.
Proof.
  intros Hm Hk. apply moves_bind with (R := fun _ q' => q' = q1); auto.
  intros a q' ->. apply Hk.
Qed.

(** A computation that the monitor follows from [init] on an empty log
    leaves a log that the monitor accepts. *)
Lemma moves_accepts {A} (m : M E A) (Qv : A -> Q -> Prop) (Qe : exn -> Q -> Prop)
      (w : world E) :
  w_log w = [] ->
  moves init m Qv Qe ->
  accepts step init (w_log (snd (m w))) = true.
Proof.
  intros Hl Hm. specialize (Hm w). unfold Monitor.at_state in Hm. rewrite Hl in Hm.
  specialize (Hm eq_refl). destruct (m w) as [r w']. destruct Hm as (q' & H & _).
  unfold accepts. simpl. now rewrite H.
Qed.

(** What a computation logs from an empty log is read by the monitor to
    the end. *)
Lemma moves_run {A} (m : M E A) (Qv : A -> Q -> Prop) (Qe : exn -> Q -> Prop)
      (w : world E) :
  w_log w = [] ->
  moves init m Qv Qe ->
  exists q, run step init (w_log (snd (m w))) = Some q.
Proof.
  intros Hl Hm. specialize (Hm w). unfold Monitor.at_state in Hm. rewrite Hl in Hm.
  specialize (Hm eq_refl). destruct (m w) as [r w']. destruct Hm as (q' & H & _).
  eauto.
Qed.

End Rules.

End MonitorFacts.

(** ** Running a script against every engine *)

Module Exec.
Import Monitor MonitorFacts.

(** Unfold the monad and the helpers of the scripts. *)
Ltac script_unfold :=
  cbv beta iota zeta delta
      [bind catch ret raise engine print read_fs write_fs read_text read_text_ignore
       invoke getattr getattr_or_None setattr setattr_of hasattr save save_as when
       MethodA.format_hex].

(** One case split: on the answer of the engine to the next interaction,
    on the class of an exception a handler looks at, on a truth value the
    script tests. *)
Ltac exec_split :=
  match goal with
  | |- context [match ?X with (_, _) => _ end] =>
      lazymatch X with
      | ?f ?s ?c => lazymatch type of c with call => idtac end
      end;
      let s' := fresh "s" in destruct X as [[?v|?e] s']
  | |- context [is_TypeError ?e] => is_var e; destruct (is_TypeError e) eqn:?
  | |- context [is_AttributeError ?e] => is_var e; destruct (is_AttributeError e) eqn:?
  | |- context [truthy ?v] => is_var v; destruct (truthy v) eqn:?
  | |- context [match ?v with PObj _ => _ | _ => _ end] =>
      is_var v; lazymatch type of v with pyval => idtac end; destruct v
  | |- context [if ?b then _ else _] =>
      lazymatch type of b with bool => idtac end; destruct b eqn:?
  end;
  cbv beta iota zeta; cbn [fst snd w_fs w_eng w_log truthy negb].

(** At the end of a path: the monitor has followed the events logged.
    [leaf_strings] is for a monitor that compares strings the script
    computes. *)
Ltac leaf_strings := idtac.

Ltac exec_leaf Hw :=
  cbv beta iota zeta;
  eexists; split;
  [ unfold at_state; cbn [w_log]; rewrite ?run_snoc, Hw;
    leaf_strings;
    cbv -[is_TypeError is_AttributeError truthy];
    repeat match goal with
           | H : is_TypeError _ = _ |- _ => rewrite ?H; clear H
           | H : is_AttributeError _ = _ |- _ => rewrite ?H; clear H
           | H : truthy _ = _ |- _ => rewrite ?H; clear H
           end;
    cbv -[is_TypeError is_AttributeError truthy]; reflexivity
  | cbv beta; first [ reflexivity | exact I | idtac ] ].

(** A statement of the script taken as a whole: every path through it. *)
Ltac exec_block :=
  let w := fresh "w" in let Hw := fresh "Hw" in
  intros w Hw; script_unfold; cbn [truthy negb];
  repeat exec_split;
  exec_leaf Hw.

(** A script, statement by statement.  The state of the monitor after
    each statement is found by running the statement; when the paths
    through a statement leave the monitor in different states, the statement
    is run together with what follows it in its block.  [known] is tried
    first on a named block (a loop has a lemma of its own). *)
Ltac head_of m :=
  lazymatch m with
  | ?f _ => head_of f
  | _ => m
  end.

Ltac exec_using known :=
  lazymatch goal with
  | |- Monitor.moves _ _ _ (bind _ _) _ _ =>
      tryif (eapply moves_seq; [ solve [exec_using known] | ])
      then (intros ?a; cbv beta; exec_using known)
      else exec_block
  | |- Monitor.moves _ _ _ (catch _ _) _ _ => exec_block
  | |- Monitor.moves _ _ _ (engine _ _) _ _ => exec_block
  | |- Monitor.moves _ _ _ (ret _) _ _ => exec_block
  | |- Monitor.moves _ _ _ (raise _) _ _ => exec_block
  | |- Monitor.moves _ _ _ (print _ _) _ _ => exec_block
  | |- Monitor.moves _ _ _ read_fs _ _ => exec_block
  | |- Monitor.moves _ _ _ (write_fs _) _ _ => exec_block
  | |- Monitor.moves _ _ _ (if ?b then _ else _) _ _ => destruct b eqn:?; exec_using known
  | |- Monitor.moves _ _ _ (match ?x with _ => _ end) _ _ => destruct x eqn:?; exec_using known
  | |- Monitor.moves _ _ _ (let (_, _) := ?x in _) _ _ => destruct x eqn:?; exec_using known
  | |- Monitor.moves _ _ _ ?m _ _ =>
      first [ known | let h := head_of m in unfold h; exec_using known ]
  end.

Ltac exec := exec_using fail.

(** Use a lemma that states more than the goal asks for. *)
Tactic Notation "by_lemma" uconstr(L) :=
  eapply moves_weaken;
  [ apply L
  | cbv beta; first [ intros ? ? ->; reflexivity | auto ]
  | cbv beta; first [ intros ? ? ->; reflexivity | auto ] ].

End Exec.

(** ** The tally of units reported as done *)

Module TallyFacts.
Import Monitor MonitorFacts Exec Tally.

Section Engine.
Context {E : Type}.
Variable respond : E -> call -> reply * E.

Local Abbreviation keeps m :=
  (forall k, moves count 0 (E:=E) k m (fun _ k' => k' = k) (fun _ k' => k' = k)).

(** [process_scan] prints no line that [main] would print for a unit
    that is done. *)
Lemma process_scan_B_tally (scan_dir : FS.path) (f_px : Q) (crs : pyval) :
  keeps (MethodB.process_scan respond scan_dir f_px crs).
Proof. intros k. exec. Qed.

Lemma lock_from_tally (n : nat) : forall i, keeps (MethodA.lock_from respond i n).
Proof.
  induction n as [|n IH]; intros i k; cbn [MethodA.lock_from].
  - exec.
  - exec_using ltac:(apply IH).
Qed.

Lemma process_scan_A_tally (scan_dir : FS.path) (crs : pyval) (gpu : option Z)
      (xml_glob : string) (kl tl : Z) (kk kd km : bool) :
  keeps (MethodA.process_scan respond scan_dir crs gpu xml_glob kl tl kk kd km).
Proof.
  intros k.
  exec_using ltac:(apply lock_from_tally).
Qed.

End Engine.
End TallyFacts.

(** ** The batch runner *)

Module BatchFacts.
Import Str FS Monitor MonitorFacts Exec Tally Batch TallyFacts.

Section Engine.
Context {E : Type}.
Variable respond : E -> call -> reply * E.

Local Abbreviation moves := (moves (E:=E) count 0).
Local Abbreviation keeps m :=
  (forall k, moves k m (fun _ k' => k' = k) (fun _ k' => k' = k)).

(** The first statement of [main] reads the host; what follows is run
    with what was read. *)
Lemma moves_main {A} (q : nat) (k : fs -> M E A)
      (Qv : fs -> A -> nat -> Prop) (Qe : exn -> nat -> Prop) :
  (forall d, moves q (k d) (Qv d) Qe) ->
  forall w, at_state count 0 q w ->
    match bind read_fs k w with
    | (r, w') =>
        exists q', at_state count 0 q' w'
                   /\ match r with
                      | Val a => Qv (w_fs w) a q'
                      | Exc e => Qe e q'
                      end
    end.
Proof. intros H w Hw. apply (H (w_fs w) w Hw). Qed.

Lemma pin_gpu_tally (gpu : option Z) : keeps (MethodB.pin_gpu respond gpu).
Proof. intros k. exec. Qed.

Lemma load_crs_B_tally : keeps (MethodB.load_crs respond).
Proof. intros k. exec. Qed.

Lemma load_crs_A_tally : keeps (MethodA.load_crs respond).
Proof. intros k. exec. Qed.

(** The count returned by the loop goes up with the lines [OK ...]. *)
Lemma run_scans_B_tally (f_px : Q) (crs : pyval) (scans : list path) :
  forall ok k,
    moves k (MethodB.run_scans respond f_px crs scans ok)
          (fun n k' => n + k = ok + k') (fun _ _ => True).
Proof.
  induction scans as [|s rest IH]; intros ok k; cbn [MethodB.run_scans].
  - exec.
  - eapply moves_bind with (R := fun _ k' => k' = k).
    + by_lemma process_scan_B_tally.
    + intros [status msg] k' ->. destruct (String.eqb status "ok").
      * eapply moves_seq; [exec|]. intros _.
        eapply moves_weaken; [apply (IH (S ok) (S k))| |]; cbv beta; auto.
        intros; lia.
      * eapply moves_seq; [exec|]. intros _. apply IH.
Qed.

Lemma run_scans_A_tally (a : MethodA.args) (crs : pyval) (scans : list path) :
  forall ok k,
    moves k (MethodA.run_scans respond a crs scans ok)
          (fun n k' => n + k = ok + k') (fun _ _ => True).
Proof.
  induction scans as [|s rest IH]; intros ok k; cbn [MethodA.run_scans].
  - exec.
  - eapply moves_bind with (R := fun _ k' => k' = k).
    + by_lemma process_scan_A_tally.
    + intros [status msg] k' ->. destruct (String.eqb status "ok").
      * eapply moves_seq; [exec|]. intros _.
        eapply moves_weaken; [apply (IH (S ok) (S k))| |]; cbv beta; auto.
        intros; lia.
      * eapply moves_seq; [exec|]. intros _. apply IH.
Qed.

Ltac config_case :=
  unfold status_says, config_ok;
  repeat match goal with
         | H : root_exists _ = _ |- _ => rewrite H; clear H
         | H : list_file _ = _ |- _ => rewrite H; clear H
         end;
  cbn [andb text_of];
  repeat match goal with
         | H : text_of _ = _ |- _ => rewrite H; clear H
         | H : ScanList.read_dates _ = _ |- _ => rewrite H; clear H
         end;
  auto.

Lemma count_run (log : list event) : forall k,
  run count k log = Some (k + ok_lines log).
Proof.
  unfold run, ok_lines. induction log as [|ev log IH]; intros k; simpl.
  - f_equal. lia.
  - unfold count at 2. destruct (is_ok_line ev); rewrite IH; simpl; f_equal; lia.
Qed.

Lemma at_state_ok_lines (k : nat) (w : world E) :
  at_state count 0 k w -> ok_lines (w_log w) = k.
Proof. unfold at_state. rewrite count_run. now intros [= <-]. Qed.

Lemma main_B_status (a : MethodB.args) (w : world E) :
  w_log w = [] ->
  match MethodB.main respond a w with
  | (Val code, w') => status_says (w_fs w) code (ok_lines (w_log w'))
  | (Exc _, _) => True
  end.
Proof.
  intros Hl.
  assert (Hw : at_state count 0 0 w) by (unfold at_state; now rewrite Hl).
  unfold MethodB.main.
  match goal with
  | |- context [bind read_fs ?k] =>
      assert (Hk : forall d, moves 0 (k d) (fun code k' => status_says d code k')
                                   (fun _ _ => True))
  end.
  { intros d. cbv beta.
    destruct (root_exists d) eqn:Hr; cbn [negb].
    2:{ exec. config_case. }
    eapply moves_seq; [by_lemma pin_gpu_tally|]. intros _.
    destruct (list_file d) as [f|] eqn:Ht.
    2:{ exec. config_case. }
    destruct f as [text|text msg|msg]; [|exec_block..].
    change (bind (read_text (Text text)) ?k) with (k text). cbv beta.
    destruct (ScanList.read_dates text) as [|dt dates] eqn:Hd.
    { exec. config_case. }
    eapply moves_seq.
    { destruct (MethodB.arg_mm_prj a) as [p|]; [destruct (negb (is_empty p))|];
        first [by_lemma load_crs_B_tally | exec]. }
    intros crs.
    destruct (MethodB.find_scans d (dt :: dates)) as [|s scans].
    { exec. config_case. }
    eapply moves_bind; [apply (run_scans_B_tally _ _ _ 0 0)|].
    cbv beta. intros n k' Hn.
    destruct (Nat.eqb n 0) eqn:Hz.
    - apply Nat.eqb_eq in Hz. exec. assert (k' = 0) by lia. subst. config_case.
    - apply Nat.eqb_neq in Hz. exec. config_case. right; right. repeat split; auto. lia. }
  pose proof (moves_main 0 _ _ _ Hk w Hw) as H.
  destruct (bind read_fs _ w) as [[code|e] w']; auto.
  destruct H as (q' & Hq & Hs). now rewrite (at_state_ok_lines _ _ Hq).
Qed.

Lemma main_A_status (a : MethodA.args) (w : world E) :
  w_log w = [] ->
  match MethodA.main respond a w with
  | (Val code, w') => status_says (w_fs w) code (ok_lines (w_log w'))
  | (Exc _, _) => True
  end.
Proof.
  intros Hl.
  assert (Hw : at_state count 0 0 w) by (unfold at_state; now rewrite Hl).
  unfold MethodA.main.
  match goal with
  | |- context [bind read_fs ?k] =>
      assert (Hk : forall d, moves 0 (k d) (fun code k' => status_says d code k')
                                   (fun _ _ => True))
  end.
  { intros d. cbv beta.
    destruct (root_exists d) eqn:Hr; cbn [negb].
    2:{ exec. config_case. }
    destruct (list_file d) as [f|] eqn:Ht.
    2:{ exec. config_case. }
    assert (Hf : (exists text, text_of f = Some text
                   /\ forall A (k : string -> M E A), bind (read_text_ignore f) k = k text)
                 \/ exists msg, f = Unreadable msg).
    { destruct f as [text|text msg|msg]; [left; exists text; split; [reflexivity|]
                                         |left; exists text; split; [reflexivity|]
                                         |right; eauto];
        intros A k; reflexivity. }
    destruct Hf as [(text & Hx & Hb)|(msg & ->)]; [|exec_block].
    rewrite Hb.
    destruct (ScanList.read_dates text) as [|dt dates] eqn:Hd.
    { exec. config_case. }
    eapply moves_seq.
    { destruct (MethodA.arg_mm_prj a) as [p|]; [destruct (negb (is_empty p))|];
        first [by_lemma load_crs_A_tally | exec]. }
    intros crs.
    destruct (MethodA.find_scans d (dt :: dates)) as [|s scans].
    { exec. config_case. }
    eapply moves_bind; [apply (run_scans_A_tally _ _ _ 0 0)|].
    cbv beta. intros n k' Hn.
    destruct (Nat.eqb n 0) eqn:Hz.
    - apply Nat.eqb_eq in Hz. exec. assert (k' = 0) by lia. subst. config_case.
    - apply Nat.eqb_neq in Hz. exec. config_case. right; right. repeat split; auto. lia. }
  pose proof (moves_main 0 _ _ _ Hk w Hw) as H.
  destruct (bind read_fs _ w) as [[code|e] w']; auto.
  destruct H as (q' & Hq & Hs). now rewrite (at_state_ok_lines _ _ Hq).
Qed.

Lemma pin_gpu_returns (gpu : option Z) (w : world E) :
  fst (MethodB.pin_gpu respond gpu w) = Val tt.
Proof.
  destruct gpu as [g|]; [|reflexivity].
  unfold MethodB.pin_gpu. script_unfold. destruct (g <? 0)%Z; [reflexivity|].
  repeat exec_split; reflexivity.
Qed.

(** A configuration error: status 2, and the log holds the error line
    after, at most, the pinning of the GPU. *)
Lemma main_B_config_error (a : MethodB.args) (w : world E) :
  config_ok (w_fs w) = false ->
  list_refused true (w_fs w) = None ->
  fst (MethodB.main respond a w) = Val 2%Z
  /\ exists msg,
       w_log (snd (MethodB.main respond a w))
       = (w_log w ++ [Printed Stderr msg])%list
       \/ w_log (snd (MethodB.main respond a w))
          = (w_log (snd (MethodB.pin_gpu respond (MethodB.arg_gpu a) w))
             ++ [Printed Stderr msg])%list.
Proof.
  unfold config_ok, list_refused, MethodB.main. intros Hc Hr.
  change (bind read_fs ?k w) with (k (w_fs w) w). cbv beta.
  destruct (root_exists (w_fs w)); cbn [negb andb] in *.
  2:{ split; [reflexivity|]. eexists. left. reflexivity. }
  pose proof (pin_gpu_returns (MethodB.arg_gpu a) w) as Hp.
  destruct (MethodB.pin_gpu respond (MethodB.arg_gpu a) w) as [[[]|e] w1] eqn:Hg;
    [|discriminate]. cbn [snd].
  rewrite !(MonadFacts.bind_val _ _ _ _ _ Hg).
  destruct (list_file (w_fs w)) as [[text|text msg|msg]|]; try discriminate.
  2:{ split; [reflexivity|]. eexists. right. reflexivity. }
  cbn [text_of] in Hc.
  change (bind (read_text (Text text)) ?k w1) with (k text w1). cbv beta.
  destruct (ScanList.read_dates text); [|discriminate].
  split; [reflexivity|]. eexists. right. reflexivity.
Qed.

Lemma main_A_config_error (a : MethodA.args) (w : world E) :
  config_ok (w_fs w) = false ->
  list_refused false (w_fs w) = None ->
  fst (MethodA.main respond a w) = Val 2%Z
  /\ exists msg,
       w_log (snd (MethodA.main respond a w)) = (w_log w ++ [Printed Stderr msg])%list.
Proof.
  unfold config_ok, list_refused, MethodA.main. intros Hc Hr.
  change (bind read_fs ?k w) with (k (w_fs w) w). cbv beta.
  destruct (root_exists (w_fs w)); cbn [negb andb] in *.
  2:{ split; [reflexivity|]. eexists. reflexivity. }
  destruct (list_file (w_fs w)) as [[text|text msg|msg]|]; try discriminate.
  3:{ split; [reflexivity|]. eexists. reflexivity. }
  - cbn [text_of] in Hc.
    change (bind (read_text_ignore (Text text)) ?k w) with (k text w). cbv beta.
    destruct (ScanList.read_dates text); [|discriminate].
    split; [reflexivity|]. eexists. reflexivity.
  - cbn [text_of] in Hc.
    change (bind (read_text_ignore (Damaged text msg)) ?k w) with (k text w). cbv beta.
    destruct (ScanList.read_dates text); [|discriminate].
    split; [reflexivity|]. eexists. reflexivity.
Qed.

(** A list that cannot be read: the exception of the reading leaves
    [main], after the pinning of the GPU in Method B and before anything
    else. *)
Lemma main_B_list_refused (a : MethodB.args) (w : world E) (e : exn) :
  list_refused true (w_fs w) = Some e ->
  MethodB.main respond a w
  = (Exc e, snd (MethodB.pin_gpu respond (MethodB.arg_gpu a) w)).
Proof.
  unfold list_refused, MethodB.main. intros Hr.
  change (bind read_fs ?k w) with (k (w_fs w) w). cbv beta.
  destruct (root_exists (w_fs w)); [|discriminate]. cbn [negb].
  pose proof (pin_gpu_returns (MethodB.arg_gpu a) w) as Hp.
  destruct (MethodB.pin_gpu respond (MethodB.arg_gpu a) w) as [[[]|e'] w1] eqn:Hg;
    [|discriminate]. cbn [snd].
  rewrite !(MonadFacts.bind_val _ _ _ _ _ Hg).
  destruct (list_file (w_fs w)) as [[text|text msg|msg]|]; try discriminate;
    injection Hr as <-; reflexivity.
Qed.

Lemma main_A_list_refused (a : MethodA.args) (w : world E) (e : exn) :
  list_refused false (w_fs w) = Some e ->
  MethodA.main respond a w = (Exc e, w).
Proof.
  unfold list_refused, MethodA.main. intros Hr.
  change (bind read_fs ?k w) with (k (w_fs w) w). cbv beta.
  destruct (root_exists (w_fs w)); [|discriminate]. cbn [negb].
  destruct (list_file (w_fs w)) as [[text|text msg|msg]|]; try discriminate;
    injection Hr as <-; reflexivity.
Qed.

End Engine.

(** C6 as stated fails: with two units in order and an engine that
    reports a failure in the second one, the first unit is done (its [OK]
    line is printed) and the run does not exit with status 0: the
    exception leaves [main]. *)
Lemma success_without_status_0 :
  let run := MethodB.main (Sample.failing_at 50 operation_error) args_B
               (start two_units 0) in
  fst run = Exc operation_error /\ ok_lines (w_log (snd run)) = 1.
Proof. vm_compute. split; reflexivity. Qed.

(** C6, amended.  For both scripts, started on any host with any engine:
    a configuration error (root missing, list missing, a list that is
    read and holds no valid timestamp) gives status 2 with nothing logged
    but the error line (after the pinning of the GPU in Method B), so
    before any unit is processed; a list that exists and cannot be read
    (for Method B also one that is not valid UTF-8) ends [main] by the
    exception of the reading, with no status and before any unit; and
    whenever [main] ends with a status, the status is 2 for a
    configuration error, 1 when no unit was reported done, and 0 when at
    least one was.  (An exception that leaves a unit leaves [main] too:
    then there is no status from [main], whatever was done before.) *)
Theorem exit_status_of_main
        {E : Type} (respond : E -> call -> reply * E)
        (aB : MethodB.args) (aA : MethodA.args) (d : fs) (s : E) :
  let w := start d s in
  (config_ok d = false -> list_refused true d = None ->
   fst (MethodB.main respond aB w) = Val 2%Z
   /\ exists msg,
        w_log (snd (MethodB.main respond aB w)) = [Printed Stderr msg]
        \/ w_log (snd (MethodB.main respond aB w))
           = (w_log (snd (MethodB.pin_gpu respond (MethodB.arg_gpu aB) w))
              ++ [Printed Stderr msg])%list)
  /\ (config_ok d = false -> list_refused false d = None ->
      fst (MethodA.main respond aA w) = Val 2%Z
      /\ exists msg, w_log (snd (MethodA.main respond aA w)) = [Printed Stderr msg])
  /\ (forall e, list_refused true d = Some e ->
      MethodB.main respond aB w
      = (Exc e, snd (MethodB.pin_gpu respond (MethodB.arg_gpu aB) w)))
  /\ (forall e, list_refused false d = Some e ->
      MethodA.main respond aA w = (Exc e, w))
  /\ match MethodB.main respond aB w with
     | (Val code, w') => status_says d code (ok_lines (w_log w'))
     | (Exc _, _) => True
     end
  /\ match MethodA.main respond aA w with
     | (Val code, w') => status_says d code (ok_lines (w_log w'))
     | (Exc _, _) => True
     end.
Proof.
  intros w. repeat apply conj.
  - intros Hc Hr. apply (main_B_config_error respond aB w Hc Hr).
  - intros Hc Hr. apply (main_A_config_error respond aA w Hc Hr).
  - intros e Hr. apply (main_B_list_refused respond aB w e Hr).
  - intros e Hr. apply (main_A_list_refused respond aA w e Hr).
  - apply (main_B_status respond aB w eq_refl).
  - apply (main_A_status respond aA w eq_refl).
Qed.

End BatchFacts.

(** ** Failures of a unit and the runner *)

Module Isolation.
Import Str FS Monitor MonitorFacts Exec Batch TallyFacts.

Section Engine.
Context {E : Type}.
Variable respond : E -> call -> reply * E.

Lemma any_run (log : list event) : run any tt log = Some tt.
Proof. unfold run. induction log; simpl; auto. Qed.

Lemma lock_from_any (n : nat) : forall i,
  moves (E:=E) any tt tt (MethodA.lock_from respond i n)
        (fun _ q' => q' = tt) (fun _ _ => True).
Proof.
  induction n as [|n IH]; intros i; cbn [MethodA.lock_from].
  - exec.
  - exec_using ltac:(apply IH).
Qed.

Lemma enable_gpu_index_any (idx : option Z) :
  moves (E:=E) any tt tt (MethodA.enable_gpu_index respond idx)
        (fun _ q' => q' = tt) (fun _ _ => True).
Proof.
  intros w Hw. destruct (MethodA.enable_gpu_index respond idx w) as [[[]|e] w'].
  - exists tt. split; auto. apply any_run.
  - exists tt. split; auto. apply any_run.
Qed.

Lemma process_scan_B_returns (scan_dir : path) (f_px : Q) (crs : pyval) :
  moves (E:=E) any tt tt (MethodB.process_scan respond scan_dir f_px crs)
        (fun r _ => returns_B r) (fun _ _ => True).
Proof.
  exec.
  all: first [left; reflexivity | right; split; reflexivity].
Qed.

Lemma import_cameras_any (xml : string) (crs : pyval) :
  moves (E:=E) any tt tt (MethodA.import_cameras respond xml crs)
        (fun r _ => match r with
                    | Some reason => startswith "importCameras failed: " reason = true
                    | None => True
                    end)
        (fun _ _ => True).
Proof. unfold MethodA.import_cameras. exec_block. Qed.

Lemma run_pipeline_A_returns (scan_dir : path) (uid ds : string) (imgs : list string)
      (xml : string) (crs : pyval) (gpu : option Z) (kl tl : Z) (kk kd km : bool) :
  moves (E:=E) any tt tt
        (MethodA.run_pipeline respond scan_dir uid ds imgs xml crs gpu kl tl kk kd km)
        (fun r _ => returns_A r) (fun _ _ => True).
Proof.
  unfold MethodA.run_pipeline.
  do 8 (eapply moves_seq;
        [exec_using ltac:(apply enable_gpu_index_any)| intros ?; cbv beta]).
  eapply moves_bind; [apply import_cameras_any|]. cbv beta.
  intros [reason|] [] Hr.
  - exec. right. split; [reflexivity|]. cbn [snd]. unfold fail_reason_A.
    rewrite Hr. now rewrite !orb_true_r.
  - exec_using ltac:(apply lock_from_any). left; reflexivity.
Qed.

Lemma process_scan_A_returns (scan_dir : path) (crs : pyval) (gpu : option Z)
      (xml_glob : string) (kl tl : Z) (kk kd km : bool) :
  moves (E:=E) any tt tt
        (MethodA.process_scan respond scan_dir crs gpu xml_glob kl tl kk kd km)
        (fun r _ => returns_A r) (fun _ _ => True).
Proof.
  exec_using ltac:(apply run_pipeline_A_returns).
  all: first [left; reflexivity | right; split; reflexivity].
Qed.

(** One turn of the loop of [main]. *)
Lemma run_scans_B_turn (f_px : Q) (crs : pyval) (s : path) (rest : list path)
      (ok : nat) (w : world E) :
  match MethodB.process_scan respond s f_px crs w with
  | (Val r, w1) =>
      MethodB.run_scans respond f_px crs (s :: rest) ok w
      = MethodB.run_scans respond f_px crs rest
          (if String.eqb (fst r) "ok" then S ok else ok) (logged w1 (report s r))
  | (Exc e, w1) =>
      MethodB.run_scans respond f_px crs (s :: rest) ok w = (Exc e, w1)
  end.
Proof.
  cbn [MethodB.run_scans].
  destruct (MethodB.process_scan respond s f_px crs w) as [[[status msg]|e] w1] eqn:H.
  - rewrite (MonadFacts.bind_val _ _ _ _ _ H).
    unfold report. cbn [fst snd]. destruct (String.eqb status "ok"); reflexivity.
  - now rewrite (MonadFacts.bind_exc _ _ _ _ _ H).
Qed.

Lemma run_scans_A_turn (a : MethodA.args) (crs : pyval) (s : path) (rest : list path)
      (ok : nat) (w : world E) :
  match MethodA.process_scan respond s crs (MethodA.arg_gpu a) (MethodA.arg_xml_glob a)
          (MethodA.arg_key_limit a) (MethodA.arg_tie_limit a)
          (MethodA.arg_keep_keypoints a) (MethodA.arg_keep_depth a)
          (MethodA.arg_keep_matches a) w with
  | (Val r, w1) =>
      MethodA.run_scans respond a crs (s :: rest) ok w
      = MethodA.run_scans respond a crs rest
          (if String.eqb (fst r) "ok" then S ok else ok) (logged w1 (report s r))
  | (Exc e, w1) =>
      MethodA.run_scans respond a crs (s :: rest) ok w = (Exc e, w1)
  end.
Proof.
  cbn [MethodA.run_scans].
  destruct (MethodA.process_scan respond s crs _ _ _ _ _ _ _ w) as [[[status msg]|e] w1] eqn:H.
  - rewrite (MonadFacts.bind_val _ _ _ _ _ H).
    unfold report. cbn [fst snd]. destruct (String.eqb status "ok"); reflexivity.
  - now rewrite (MonadFacts.bind_exc _ _ _ _ _ H).
Qed.

End Engine.

(** C1 as stated fails: the engine reports a failure in [addPhotos] of
    the first of two units.  No result is recorded for that unit and no
    line is printed: the exception leaves [process_scan] and [main], and the
    second unit is never started (the log ends with the failed call). *)
Lemma engine_failure_stops_the_batch :
  let run := MethodB.main (Sample.failing_at 4 operation_error) args_B
               (start two_units 0) in
  fst run = Exc operation_error
  /\ List.length (w_log (snd run)) = 5
  /\ filter (fun ev => match ev with Printed _ _ => true | _ => false end)
            (w_log (snd run)) = [].
Proof. vm_compute. repeat split. Qed.

(** C1, amended.  For every engine, every unit [s] and every state of the
    run: when [process_scan] returns, its result is [ok] or a failure with
    one of the reasons of the script (a validation failure; no sensor after
    adding photos in Method B; a failed [importCameras] in Method A), the
    result is reported on one line and the loop goes on with the remaining
    units; when an exception leaves [process_scan] (an engine call raised
    and no handler of the step took it), the loop ends with that exception
    and the remaining units are not processed. *)
Theorem unit_result_reported_or_exception_raised
        {E : Type} (respond : E -> call -> reply * E)
        (f_px : Q) (crs : pyval) (a : MethodA.args)
        (s : path) (rest : list path) (ok : nat) (w : world E) :
  match MethodB.process_scan respond s f_px crs w with
  | (Val r, w1) =>
      returns_B r
      /\ MethodB.run_scans respond f_px crs (s :: rest) ok w
         = MethodB.run_scans respond f_px crs rest
             (if String.eqb (fst r) "ok" then S ok else ok) (logged w1 (report s r))
  | (Exc e, w1) =>
      MethodB.run_scans respond f_px crs (s :: rest) ok w = (Exc e, w1)
  end
  /\
  match MethodA.process_scan respond s crs (MethodA.arg_gpu a) (MethodA.arg_xml_glob a)
          (MethodA.arg_key_limit a) (MethodA.arg_tie_limit a)
          (MethodA.arg_keep_keypoints a) (MethodA.arg_keep_depth a)
          (MethodA.arg_keep_matches a) w with
  | (Val r, w1) =>
      returns_A r
      /\ MethodA.run_scans respond a crs (s :: rest) ok w
         = MethodA.run_scans respond a crs rest
             (if String.eqb (fst r) "ok" then S ok else ok) (logged w1 (report s r))
  | (Exc e, w1) =>
      MethodA.run_scans respond a crs (s :: rest) ok w = (Exc e, w1)
  end.
Proof.
  split.
  - pose proof (run_scans_B_turn respond f_px crs s rest ok w) as T.
    pose proof (process_scan_B_returns respond s f_px crs w (any_run _)) as R.
    destruct (MethodB.process_scan respond s f_px crs w) as [[r|e] w1]; auto.
    destruct R as (q & _ & R). auto.
  - pose proof (run_scans_A_turn respond a crs s rest ok w) as T.
    pose proof (process_scan_A_returns respond s crs (MethodA.arg_gpu a)
                  (MethodA.arg_xml_glob a) (MethodA.arg_key_limit a)
                  (MethodA.arg_tie_limit a) (MethodA.arg_keep_keypoints a)
                  (MethodA.arg_keep_depth a) (MethodA.arg_keep_matches a) w (any_run _)) as R.
    destruct (MethodA.process_scan respond s crs _ _ _ _ _ _ _ w) as [[r|e] w1]; auto.
    destruct R as (q & _ & R). auto.
Qed.

End Isolation.

(** ** What a rejected unit leaves on disk *)

Module Atomicity.
Import Str FS Spec FSFacts MonadFacts Validation XmlSelection.
Import Monitor MonitorFacts Exec Batch.

Section Engine.
Context {E : Type}.
Variable respond : E -> call -> reply * E.

(** When the pipeline of Method A returns a failure, it is the import of
    the cameras that failed. *)
Lemma run_pipeline_A_fails_on_import (scan_dir : path) (uid ds : string)
      (imgs : list string) (xml : string) (crs : pyval) (gpu : option Z)
      (kl tl : Z) (kk kd km : bool) (w : world E) :
  match MethodA.run_pipeline respond scan_dir uid ds imgs xml crs gpu kl tl kk kd km w with
  | (Val r, _) => fst r = "ok" \/ startswith "importCameras failed: " (snd r) = true
  | (Exc _, _) => True
  end.
Proof.
  assert (H : moves (E:=E) any tt tt
                (MethodA.run_pipeline respond scan_dir uid ds imgs xml crs gpu kl tl kk kd km)
                (fun r _ => fst r = "ok" \/ startswith "importCameras failed: " (snd r) = true)
                (fun _ _ => True)).
  { unfold MethodA.run_pipeline.
    do 8 (eapply moves_seq;
          [exec_using ltac:(apply Isolation.enable_gpu_index_any)| intros ?; cbv beta]).
    eapply moves_bind; [apply Isolation.import_cameras_any|]. cbv beta.
    intros [reason|] [] Hr.
    - exec. right. exact Hr.
    - exec_using ltac:(apply Isolation.lock_from_any). left; reflexivity. }
  specialize (H w (Isolation.any_run (w_log w))).
  destruct (MethodA.run_pipeline _ _ _ _ _ _ _ _ _ _ _ _ _ w) as [[r|e] w']; [|exact I].
  destruct H as (q & _ & H). exact H.
Qed.

Lemma not_both_reasons (reason : string) :
  startswith "importCameras failed: " reason = true ->
  startswith "No calibrated cameras XML found in " reason = true -> False.
Proof.
  destruct reason as [|c r]; [discriminate|]. cbn [startswith].
  intros H1 H2. apply andb_prop in H1 as [H1 _]. apply andb_prop in H2 as [H2 _].
  apply Ascii.eqb_eq in H1, H2. congruence.
Qed.

End Engine.

(** C10.  Method B: each validation failure (no [<uid>__edof] folder, no
    PNG image, not exactly one CamPos file) returns with the world as it
    was: nothing is created and the engine is not called.  Method A: the
    first two failures leave the world as it was too, but a unit rejected
    for a missing calibrated-camera XML has a [models/] directory
    afterwards, created by then if the folder had none.  This last part
    is stated twice: from the rejection itself, whatever the configured
    pattern, and, for a pattern of the fragment [plain], from the fact
    that no name in [models/] matches. *)
Theorem validation_failures_and_models_dir
        {E : Type} (respond : E -> call -> reply * E)
        (scan_dir : path) (f_px : Q) (crs : pyval) (gpu : option Z)
        (xml_glob : string) (kl tl : Z) (kk kd km : bool) (w : world E) :
  let f := listdir (w_fs w) scan_dir in
  let run_B := MethodB.process_scan respond scan_dir f_px crs w in
  let run_A := MethodA.process_scan respond scan_dir crs gpu xml_glob kl tl kk kd km w in
  (* Method B *)
  (MethodB.first_uid (glob "*__edof" f) = None ->
   run_B = (Val ("fail", "No '<uid>__edof' folder found"), w))
  /\ (forall uid, MethodB.first_uid (glob "*__edof" f) = Some uid ->
        edof_images f uid = [] ->
        run_B = (Val ("fail", "No PNGs in " ++ path_str (child scan_dir (uid ++ "__edof"))), w))
  /\ (forall uid, MethodB.first_uid (glob "*__edof" f) = Some uid ->
        edof_images f uid <> [] ->
        List.length (glob "*__CamPos.txt" f) <> 1 ->
        run_B = (Val ("fail", "Missing or multiple CamPos.txt"), w))
  (* Method A *)
  /\ (MethodA.first_uid (glob "*__edof" f) = None ->
      run_A = (Val ("fail", "No '<uid>__edof' folder found"), w))
  /\ (forall uid, MethodA.first_uid (glob "*__edof" f) = Some uid ->
        edof_images f uid = [] ->
        run_A = (Val ("fail", "No PNGs in " ++ path_str (child scan_dir (uid ++ "__edof"))), w))
  /\ (forall reason w',
        run_A = (Val ("fail", reason), w') ->
        startswith "No calibrated cameras XML found in " reason = true ->
        no_engine_call w w'
        /\ has_models_dir (listdir (w_fs w') scan_dir)
        /\ (find_entry "models" f = None ->
            listdir (w_fs w') scan_dir
            = (f ++ [{| e_name := "models"; e_children := Some [] |}])%list))
  /\ (forall uid w', MethodA.first_uid (glob "*__edof" f) = Some uid ->
        edof_images f uid <> [] ->
        MethodA.mkdir_models scan_dir w = (Val tt, w') ->
        plain xml_glob = true ->
        filter (fnmatch xml_glob) (models_names f) = [] ->
        run_A = (Val ("fail", "No calibrated cameras XML found in "
                              ++ path_str (child scan_dir "models")
                              ++ " matching '" ++ xml_glob ++ "'"), w')
        /\ no_engine_call w w'
        /\ has_models_dir (listdir (w_fs w') scan_dir)
        /\ (find_entry "models" f = None ->
            listdir (w_fs w') scan_dir
            = (f ++ [{| e_name := "models"; e_children := Some [] |}])%list)).
Proof.
  intros f run_B run_A. subst run_B run_A.
  unfold MethodB.process_scan, MethodB.get_uid_and_dataset,
         MethodA.process_scan, MethodA.get_uid_dataset.
  cbn [bind read_fs]. fold f.
  split; [|split; [|split; [|split; [|split; [|split]]]]].
  - intros ->. reflexivity.
  - intros uid -> Hi. fold (edof_images f uid). rewrite Hi. reflexivity.
  - intros uid -> Hi Hc. fold (edof_images f uid).
    destruct (edof_images f uid); [congruence|].
    destruct (glob "*__CamPos.txt" f) as [|c [|c2 r]]; simpl in Hc; try reflexivity.
    congruence.
  - intros ->. reflexivity.
  - intros uid -> Hi. fold (edof_images f uid). rewrite Hi. reflexivity.
  - intros reason w' Hrun Hre.
    destruct (MethodA.first_uid (glob "*__edof" f)) as [uid|] eqn:Hu.
    2:{ injection Hrun as <- _. discriminate Hre. }
    fold (edof_images f uid) in Hrun.
    destruct (edof_images f uid) as [|i imgs] eqn:Hi.
    { injection Hrun as <- _. discriminate Hre. }
    assert (Hi' : edof_images f uid <> []) by congruence.
    assert (Hne : f <> []).
    { destruct (edof_images_folder f uid Hi') as [n Hn]. now apply find_entry_nonempty in Hn. }
    destruct (MethodA.mkdir_models scan_dir w) as [[[]|e] w1] eqn:Hmk.
    2:{ rewrite (bind_exc _ _ _ _ _ Hmk) in Hrun. discriminate. }
    rewrite (bind_val _ _ _ _ _ Hmk) in Hrun.
    pose proof (find_xml_world (E:=E) scan_dir xml_glob w1) as Hw.
    destruct (MethodA.find_xml scan_dir xml_glob w1) as [[[xml|]|e] w2] eqn:Hx;
      cbn [snd] in Hw; subst w2.
    3:{ rewrite (bind_exc _ _ _ _ _ Hx) in Hrun. discriminate. }
    { rewrite (bind_val _ _ _ _ _ Hx) in Hrun.
      pose proof (run_pipeline_A_fails_on_import respond scan_dir uid
                    (remove_all "__DISC3D" (name scan_dir)) (i :: imgs) xml
                    crs gpu kl tl kk kd km w1) as Hp.
      rewrite Hrun in Hp. cbn [fst snd] in Hp. destruct Hp as [Hp|Hp]; [discriminate|].
      destruct (not_both_reasons _ Hp Hre). }
    rewrite (bind_val _ _ _ _ _ Hx) in Hrun. injection Hrun as _ <-.
    destruct (mkdir_models_dir scan_dir w w1 Hne Hmk) as [Hdir Hno].
    split; [exact Hno|split; [exact Hdir|]].
    intros Hnone.
    destruct (mkdir_models_cases scan_dir w) as [(e & He & Hd & R)|[(He & R)|(e & He & Hd & R)]];
      fold f in He; try congruence.
    rewrite R in Hmk. inversion Hmk; subst; clear Hmk. simpl.
    now rewrite listdir_with_folder.
  - intros uid w' Hu Hi Hmk Hg Hf. apply plain_not_empty in Hg.
    assert (Hne : f <> []).
    { destruct (edof_images_folder f uid Hi) as [n Hn]. now apply find_entry_nonempty in Hn. }
    destruct (mkdir_models_dir scan_dir w w' Hne Hmk) as [Hdir Hno].
    split; [|split; [exact Hno|split; [exact Hdir|]]].
    + rewrite Hu. fold (edof_images f uid).
      destruct (edof_images f uid) as [|i imgs] eqn:Hi'; [congruence|].
      rewrite (bind_val _ _ _ _ _ Hmk).
      rewrite (bind_val _ _ _ _ _ (find_xml_val scan_dir xml_glob w' Hg)).
      rewrite (models_names_mkdir scan_dir w w' Hne Hmk). fold f.
      apply first_xml_none in Hf. rewrite Hf. reflexivity.
    + intros Hnone.
      destruct (mkdir_models_cases scan_dir w) as [(e & He & Hd & R)|[(He & R)|(e & He & Hd & R)]];
        fold f in He; try congruence.
      rewrite R in Hmk. inversion Hmk; subst; clear Hmk. simpl.
      now rewrite listdir_with_folder.
Qed.

(** The second scenario under both methods.  Method B: the CamPos file is
    missing, the unit is rejected and the folder is as before.  Method A on
    the same folder: no calibrated-camera XML, the unit is rejected and the
    folder has gained [models/]. *)
Example missing_reference_artifact :
  let w := Batch.start (Sample.host Sample.list_text_1
                           [(Sample.scan_dir, Some Sample.folder_no_campos)]) tt in
  MethodB.process_scan Sample.accepting Sample.scan_dir (10276.64)%Q PNone w
  = (Val ("fail", "Missing or multiple CamPos.txt"), w)
  /\ (let (r, w') := MethodA.process_scan Sample.accepting Sample.scan_dir PNone None
                       "*_Calibrated_Cameras_*.xml" 250000 250000 false false false w in
      r = Val ("fail", "No calibrated cameras XML found in "
                       ++ "20250502T082851__067870__Carabus_violaceus__DISC3D/models"
                       ++ " matching '*_Calibrated_Cameras_*.xml'")
      /\ w_log w' = []
      /\ listdir (w_fs w') Sample.scan_dir
         = [Sample.edof; {| e_name := "models"; e_children := Some [] |}]).
Proof. vm_compute. repeat split. Qed.

End Atomicity.

(** ** Fallbacks: what follows an engine call that raised *)

Module FallbackFacts.
Import Str FS Monitor MonitorFacts Exec Sig Fallback.

Section Engine.
Context {E : Type}.
Variable respond : E -> call -> reply * E.

Local Abbreviation block policy m :=
  (moves (E:=E) (step policy) Free Free m
         (fun _ q' => q' = Free) (fun _ q' => settled q' = true)).

Local Abbreviation follows policy m :=
  (moves (E:=E) (step policy) Free Free m
         (fun _ q' => settled q' = true) (fun _ q' => settled q' = true)).





End Engine.

Lemma obj_eqb_eq (a b : obj) : obj_eqb a b = true -> a = b.
Proof.
  destruct a, b; simpl; try discriminate; auto.
  intros H. apply Nat.eqb_eq in H. now subst.
Qed.







End FallbackFacts.

(** ** Order of the steps and checkpoints *)

Module StepsFacts.
Import Str FS Monitor MonitorFacts Exec Sig Steps.

Section Engine.
Context {E : Type}.
Variable respond : E -> call -> reply * E.

(** A statement of the script that leaves [n] stages done and no save
    due, when started with [k] stages done. *)
Local Abbreviation reaches p k n m :=
  (moves (E:=E) (step p) (0, false) (k, false) m
         (fun _ q' => q' = (n, false)) (fun _ q' => snd q' = false)).

Local Abbreviation checked p m :=
  (moves (E:=E) (step p) (0, false) (0, false) m
         (fun _ q' => snd q' = false) (fun _ q' => snd q' = false)).

Lemma process_scan_B_steps (scan_dir : path) (f_px : Q) (crs : pyval) :
  checked plan_B (MethodB.process_scan respond scan_dir f_px crs).
Proof. exec. Qed.

Lemma lock_from_steps (n : nat) : forall i, reaches plan_A 2 2 (MethodA.lock_from respond i n).
Proof.
  induction n as [|n IH]; intros i; cbn [MethodA.lock_from].
  - exec.
  - exec_using ltac:(apply IH).
Qed.

Lemma run_pipeline_A_steps (scan_dir : path) (uid ds : string) (imgs : list string)
      (xml : string) (crs : pyval) (gpu : option Z) (kl tl : Z) (kk kd km : bool) :
  checked plan_A
    (MethodA.run_pipeline respond scan_dir uid ds imgs xml crs gpu kl tl kk kd km).
Proof.
  unfold MethodA.run_pipeline.
  do 8 (eapply moves_seq; [exec | intros ?; cbv beta]).
  eapply moves_bind
    with (R := fun r q' => q' = (match r with Some _ => 1 | None => 2 end, false)).
  - unfold MethodA.import_cameras. exec_block.
  - intros [reason|] q' ->.
    + exec.
    + exec_using ltac:(apply lock_from_steps).
Qed.

Lemma process_scan_A_steps (scan_dir : path) (crs : pyval) (gpu : option Z)
      (xml_glob : string) (kl tl : Z) (kk kd km : bool) :
  checked plan_A (MethodA.process_scan respond scan_dir crs gpu xml_glob kl tl kk kd km).
Proof. exec_using ltac:(apply run_pipeline_A_steps). Qed.

(** The saves: the first names the project file, the later ones no file. *)
Local Abbreviation saves psz b m :=
  (moves (E:=E) (save_step psz) false b m (fun _ _ => True) (fun _ _ => True)).

Lemma save_as_saves (psz : string) :
  moves (E:=E) (save_step psz) false false (save_as respond psz)
        (fun _ q' => q' = true) (fun _ _ => True).
Proof.
  intros w Hw. unfold save_as, invoke, bind, engine, ret.
  destruct (respond (w_eng w) (Invoke Doc "save" [PStr psz] [])) as [[v|e] s'];
    cbv beta iota zeta; eexists; (split; [|try reflexivity; exact I]);
    unfold at_state; cbn [w_log]; rewrite run_snoc, Hw;
    cbn [feed save_step signature is_save List.length map negb andb];
    rewrite !String.eqb_refl; reflexivity.
Qed.

Lemma run_pipeline_B_saves (scan_dir : path) (uid : string) (imgs : list string)
      (campos : string) (f_px : Q) (crs : pyval) :
  saves (project_file scan_dir) false
        (MethodB.run_pipeline respond scan_dir uid
           (remove_all "__DISC3D" (name scan_dir)) imgs campos f_px crs).
Proof. unfold MethodB.run_pipeline. exec_using ltac:(apply save_as_saves). Qed.

Lemma process_scan_B_saves (scan_dir : path) (f_px : Q) (crs : pyval) :
  saves (project_file scan_dir) false (MethodB.process_scan respond scan_dir f_px crs).
Proof.
  unfold MethodB.process_scan, MethodB.get_uid_and_dataset.
  exec_using ltac:(apply run_pipeline_B_saves).
Qed.

Lemma lock_from_saves (psz : string) (n : nat) :
  forall i, moves (E:=E) (save_step psz) false true (MethodA.lock_from respond i n)
                  (fun _ q' => q' = true) (fun _ _ => True).
Proof.
  induction n as [|n IH]; intros i; cbn [MethodA.lock_from].
  - exec.
  - exec_using ltac:(apply IH).
Qed.

Lemma run_pipeline_A_saves (scan_dir : path) (uid : string) (imgs : list string)
      (xml : string) (crs : pyval) (gpu : option Z) (kl tl : Z) (kk kd km : bool) :
  saves (project_file scan_dir) false
        (MethodA.run_pipeline respond scan_dir uid
           (remove_all "__DISC3D" (name scan_dir)) imgs xml crs gpu kl tl kk kd km).
Proof.
  unfold MethodA.run_pipeline.
  exec_using ltac:(first [apply save_as_saves | apply lock_from_saves]).
Qed.

Lemma process_scan_A_saves (scan_dir : path) (crs : pyval) (gpu : option Z)
      (xml_glob : string) (kl tl : Z) (kk kd km : bool) :
  saves (project_file scan_dir) false
        (MethodA.process_scan respond scan_dir crs gpu xml_glob kl tl kk kd km).
Proof.
  unfold MethodA.process_scan, MethodA.get_uid_dataset.
  exec_using ltac:(apply run_pipeline_A_saves).
Qed.

End Engine.

Section Meaning.
Variable p : plan.
Hypothesis save_apart :
  forall s, is_save s = true ->
            stage p s = 0 /\ side p s = 0 /\ saves_after p s = false.

(** Every stage that the monitor counts as done was completed by a call
    that returned. *)
Lemma run_done (log : list event) :
  forall d due, run (step p) (0, false) log = Some (d, due) ->
  forall j, 1 <= j <= d ->
  exists c v, In (Ev c (Returned v)) log
              /\ stage p (signature c) = j /\ completes p (signature c) = true.
Proof.
  induction log as [|ev log IH] using rev_ind; intros d due H j Hj.
  - cbn in H. inversion H; subst. lia.
  - rewrite run_snoc in H.
    destruct (run (step p) (0, false) log) as [[d0 due0]|] eqn:H0; [|discriminate].
    assert (Hold : j <= d0 ->
                   exists c v, In (Ev c (Returned v)) (log ++ [ev])%list
                               /\ stage p (signature c) = j
                               /\ completes p (signature c) = true).
    { intros Hle. destruct (IH d0 due0 eq_refl j) as (c & v & Hin & Hc); [lia|].
      exists c, v. split; [apply in_or_app; auto|exact Hc]. }
    cbn [feed step] in H. destruct ev as [c r|st txt].
    + destruct due0.
      * destruct (is_save (signature c)); inversion H; subst. apply Hold; lia.
      * destruct ((Nat.eqb (stage p (signature c)) 0
                   || Nat.leb (stage p (signature c) - 1) d0)
                  && Nat.leb (side p (signature c)) d0) eqn:G; [|discriminate].
        destruct r as [v|e]; inversion H; subst; clear H; [|apply Hold; lia].
        destruct (completes p (signature c)) eqn:Hc; [|apply Hold; lia].
        destruct (Nat.le_gt_cases j d0) as [Hle|Hgt]; [now apply Hold|].
        apply andb_prop in G as [G _]. apply orb_prop in G as [G|G].
        -- apply Nat.eqb_eq in G. lia.
        -- apply Nat.leb_le in G. exists c, v. split; [|split; [lia|exact Hc]].
           apply in_or_app. right. now left.
    + destruct due0; inversion H; subst. apply Hold; lia.
Qed.

Lemma run_ordered (log : list event) (q : nat * bool) :
  run (step p) (0, false) log = Some q -> ordered p log.
Proof.
  intros H pre c r post -> j Hj Hlt. rewrite run_app in H.
  destruct (run (step p) (0, false) pre) as [[d0 due0]|] eqn:H0; [|discriminate].
  apply (run_done pre d0 due0 H0). split; [exact Hj|].
  unfold run in H. cbn [fold_left feed step] in H. destruct due0.
  - destruct (is_save (signature c)) eqn:Hs.
    + destruct (save_apart _ Hs) as (H1 & H2 & _). lia.
    + now rewrite feed_none in H.
  - destruct ((Nat.eqb (stage p (signature c)) 0
               || Nat.leb (stage p (signature c) - 1) d0)
              && Nat.leb (side p (signature c)) d0) eqn:G;
      [|now rewrite feed_none in H].
    apply andb_prop in G as [G1 G2]. apply Nat.leb_le in G2.
    apply orb_prop in G1 as [G1|G1];
      [apply Nat.eqb_eq in G1|apply Nat.leb_le in G1]; lia.
Qed.

Lemma run_checkpointed (log : list event) (d : nat) :
  run (step p) (0, false) log = Some (d, false) -> checkpointed p log.
Proof.
  intros H pre c v post -> Hsave. rewrite run_app in H.
  destruct (run (step p) (0, false) pre) as [[d0 due0]|]; [|discriminate].
  unfold run in H. cbn [fold_left feed step] in H.
  assert (Hdue : fold_left (feed (step p)) post
                           (Some (if completes p (signature c)
                                  then Nat.max d0 (stage p (signature c)) else d0, true))
                 = Some (d, false)).
  { destruct due0.
    - destruct (is_save (signature c)) eqn:Hs; [|now rewrite feed_none in H].
      destruct (save_apart _ Hs) as (_ & _ & H3). congruence.
    - destruct ((Nat.eqb (stage p (signature c)) 0
                 || Nat.leb (stage p (signature c) - 1) d0)
                && Nat.leb (side p (signature c)) d0);
        [|now rewrite feed_none in H].
      now rewrite Hsave in H. }
  clear H. destruct post as [|[c' r|st txt] post'].
  - discriminate.
  - exists c', r, post'. split; [reflexivity|].
    cbn [fold_left feed step] in Hdue.
    destruct (is_save (signature c')); [reflexivity|now rewrite feed_none in Hdue].
  - cbn [fold_left feed step] in Hdue. now rewrite feed_none in Hdue.
Qed.

End Meaning.

Lemma save_apart_B (s : call_sig) :
  is_save s = true ->
  stage plan_B s = 0 /\ side plan_B s = 0 /\ saves_after plan_B s = false.
Proof.
  destruct s as [o m n names| | |]; try discriminate. destruct o; try discriminate.
  intros _. repeat split.
Qed.

Lemma save_apart_A (s : call_sig) :
  is_save s = true ->
  stage plan_A s = 0 /\ side plan_A s = 0 /\ saves_after plan_A s = false.
Proof.
  destruct s as [o m n names| | |]; try discriminate. destruct o; try discriminate.
  intros _. repeat split.
Qed.

Section Alignment.
Variable p : plan.
Variables km ka : nat.
Hypothesis km_pos : 1 <= km.
Hypothesis ka_pos : 1 <= ka.
Hypothesis depth_later :
  forall s, is_method "buildDepthMaps" s || is_method "buildModel" s = true ->
            km < stage p s /\ ka < stage p s.
Hypothesis km_match : forall s, stage p s = km -> is_method "matchPhotos" s = true.
Hypothesis ka_align : forall s, stage p s = ka -> is_method "alignCameras" s = true.

Lemma ordered_after_alignment (log : list event) :
  ordered p log -> after_alignment log.
Proof.
  intros Hord pre c r post Hlog Hc. destruct (depth_later _ Hc) as [Hm Ha].
  destruct (Hord pre c r post Hlog km km_pos (or_introl Hm)) as (cm & vm & Hin1 & Hs1 & _).
  destruct (Hord pre c r post Hlog ka ka_pos (or_introl Ha)) as (ca & va & Hin2 & Hs2 & _).
  exists cm, vm, ca, va. auto.
Qed.

End Alignment.

Ltac by_method :=
  let s := fresh "s" in
  intros s; destruct s as [[] m n names|o a|[] a|o a];
  cbv beta iota delta [plan_B plan_A stage stage_B stage_A chunk_stage is_method
                       find fst snd];
  repeat match goal with
         | |- context [String.eqb ?a ?b] => destruct (String.eqb a b) eqn:?
         end;
  cbv beta iota; try discriminate; try lia;
  repeat match goal with
         | H : String.eqb _ _ = true |- _ => apply String.eqb_eq in H; subst
         end;
  try discriminate;
  try match goal with
      | H : String.eqb _ _ = false |- _ => vm_compute in H; discriminate H
      end;
  try (intros _; split; lia); try reflexivity.

Lemma after_alignment_B (log : list event) : ordered plan_B log -> after_alignment log.
Proof.
  apply (ordered_after_alignment plan_B 4 5); try lia.
  - by_method.
  - by_method.
  - by_method.
Qed.

Lemma after_alignment_A (log : list event) : ordered plan_A log -> after_alignment log.
Proof.
  apply (ordered_after_alignment plan_A 3 4); try lia.
  - by_method.
  - by_method.
  - by_method.
Qed.

Lemma save_step_named (psz : string) (named q : bool) (c : call) (r : reply) :
  save_step psz named (Ev c r) = Some q ->
  is_save (signature c) = true ->
  (named = false /\ c = Invoke Doc "save" [PStr psz] []
   /\ q = match r with Returned _ => true | Threw _ => false end)
  \/ (named = true /\ c = Invoke Doc "save" [] [] /\ q = true).
Proof.
  intros H Hs. unfold save_step in H. rewrite Hs in H.
  destruct c as [o m args kw| | |]; try discriminate.
  assert (o = Doc /\ m = "save") as [-> ->].
  { destruct o; try discriminate. cbn in Hs. apply String.eqb_eq in Hs. auto. }
  destruct args as [|[| | | |f| | | |] [|? ?]]; destruct kw; try discriminate.
  - right. destruct named; inversion H; auto.
  - left. destruct named; try discriminate. cbn [negb andb] in H.
    destruct (String.eqb f psz) eqn:Hf; inversion H. apply String.eqb_eq in Hf.
    subst. auto.
Qed.

Lemma save_step_other (psz : string) (named q : bool) (ev : event) :
  save_step psz named ev = Some q ->
  q = named \/ exists c r, ev = Ev c r /\ is_save (signature c) = true.
Proof.
  destruct ev as [c r|st txt]; cbn.
  - destruct (is_save (signature c)) eqn:Hs; [eauto|]. intros H. inversion H. auto.
  - intros H. inversion H. auto.
Qed.

(** Once the monitor has seen the file named, a save that named it has
    returned. *)
Lemma run_named (psz : string) (log : list event) :
  run (save_step psz) false log = Some true ->
  exists v, In (Ev (Invoke Doc "save" [PStr psz] []) (Returned v)) log.
Proof.
  induction log as [|ev log IH] using rev_ind; [discriminate|].
  rewrite run_snoc. destruct (run (save_step psz) false log) as [named|]; [|discriminate].
  cbn [feed]. intros H.
  assert (Hold : named = true ->
                 exists v, In (Ev (Invoke Doc "save" [PStr psz] []) (Returned v))
                              (log ++ [ev])%list).
  { intros ->. destruct (IH eq_refl) as [v Hv]. exists v. apply in_or_app. auto. }
  destruct (save_step_other _ _ _ _ H) as [<-|(c & r & -> & Hs)]; [auto|].
  destruct (save_step_named _ _ _ _ _ H Hs) as [(-> & -> & Hq)|(-> & _)]; [|auto].
  destruct r as [v|e]; [|discriminate]. exists v. apply in_or_app. right. now left.
Qed.

Lemma run_in_place (psz : string) (log : list event) (q : bool) :
  run (save_step psz) false log = Some q -> in_place psz log.
Proof.
  intros H pre c r post -> Hs. rewrite run_app in H.
  destruct (run (save_step psz) false pre) as [named|] eqn:Hpre; [|discriminate].
  unfold run in H. cbn [fold_left feed] in H.
  destruct (save_step psz named (Ev c r)) as [q1|] eqn:Hstep;
    [|now rewrite feed_none in H].
  destruct (save_step_named _ _ _ _ _ Hstep Hs) as [(_ & -> & _)|(-> & -> & _)]; [auto|].
  right. split; [reflexivity|]. now apply run_named.
Qed.

Lemma saves_meaning {E A} (psz : string) (m : M E A) (w : world E) :
  w_log w = [] ->
  moves (save_step psz) false false m (fun _ _ => True) (fun _ _ => True) ->
  in_place psz (w_log (snd (m w))).
Proof.
  intros Hl Hm. specialize (Hm w). unfold at_state in Hm. rewrite Hl in Hm.
  specialize (Hm eq_refl). destruct (m w) as [r w']. destruct Hm as (q & Hrun & _).
  now apply (run_in_place psz _ q).
Qed.

Lemma checked_meaning {E A} (p : plan) (m : M E A) (w : world E) :
  (forall s, is_save s = true ->
             stage p s = 0 /\ side p s = 0 /\ saves_after p s = false) ->
  w_log w = [] ->
  moves (step p) (0, false) (0, false) m
        (fun _ q' => snd q' = false) (fun _ q' => snd q' = false) ->
  ordered p (w_log (snd (m w))) /\ checkpointed p (w_log (snd (m w))).
Proof.
  intros Hp Hl Hm. specialize (Hm w). unfold at_state in Hm. rewrite Hl in Hm.
  specialize (Hm eq_refl). destruct (m w) as [r w']. destruct Hm as ([d due] & Hrun & Hq).
  assert (due = false) by (destruct r; exact Hq). subst due. split.
  - now apply (run_ordered p Hp _ _ Hrun).
  - now apply (run_checkpointed p Hp _ _ Hrun).
Qed.

(** The monitor is not idle: a depth call with nothing before it is out
    of order, and a log that ends on a completed step lacks its save. *)
Example depth_first_is_out_of_order :
  ~ ordered plan_B [Ev (Invoke Chunk "buildDepthMaps" [] []) (Returned PNone)].
Proof.
  intros H.
  destruct (H [] (Invoke Chunk "buildDepthMaps" [] []) (Returned PNone) [] eq_refl 1)
    as (c & v & [] & _); [lia|left; cbn; lia].
Qed.

Example step_without_save :
  ~ checkpointed plan_A [Ev (Invoke Chunk "addPhotos" [PStrs ["a.png"]] []) (Returned PNone)].
Proof.
  intros H.
  destruct (H [] (Invoke Chunk "addPhotos" [PStrs ["a.png"]] []) PNone [] eq_refl eq_refl)
    as (c & r & post & Hp & _).
  discriminate.
Qed.

(** C3 as stated fails for Method A.  The engine rejects the signature of
    [optimizeCameras]; the unit is done all the same: the optimize step did
    not succeed (event 13) and the depth maps are built after it (event 15),
    and after the cameras were imported (event 6) the next call is
    [updateTransform], not a save (event 7).  So the log is neither in the
    order the claim words nor saved after every step. *)
Lemma rejected_optimize_is_passed_over :
  let run := MethodA.process_scan optimize_rejected Sample.scan_dir PNone None
               "*_Calibrated_Cameras_*.xml" 250000%Z 250000%Z false false false
               (Batch.start (Sample.host Sample.list_text_1
                               [(Sample.scan_dir, Some Sample.folder_A)]) tt) in
  (exists msg, fst run = Val ("ok", msg))
  /\ nth_error (w_log (snd run)) 6
     = Some (Ev (Invoke Chunk "importCameras"
                   [PStr (path_str (child (child Sample.scan_dir "models")
                                          "a_Calibrated_Cameras_1.xml"));
                    PEnum "CamerasFormatXML"; PNone] [])
                (Returned PNone))
  /\ nth_error (w_log (snd run)) 7
     = Some (Ev (Invoke Chunk "updateTransform" [] []) (Returned PNone))
  /\ nth_error (w_log (snd run)) 13
     = Some (Ev (Invoke Chunk "optimizeCameras" [] MethodA.optimize_kwargs)
                (Threw {| e_class := TypeError; e_text := "rejected" |}))
  /\ nth_error (w_log (snd run)) 15
     = Some (Ev (Invoke Chunk "buildDepthMaps" []
                   [("quality", PEnum "UltraQuality"); ("filter", PEnum "MildFiltering")])
                (Returned PNone))
  /\ ~ ordered claimed_A (w_log (snd run))
  /\ ~ checkpointed claimed_A (w_log (snd run)).
Proof.
  cbv zeta.
  split; [vm_compute; eexists; reflexivity|].
  do 4 (split; [vm_compute; reflexivity|]).
  match goal with
  | |- ~ ordered _ ?l /\ _ =>
      let l' := eval vm_compute in l in change l with l'
  end.
  split; intros H.
  - match type of H with
    | ordered _ ?l =>
        destruct (H (firstn 15 l) (Invoke Chunk "buildDepthMaps" []
                     [("quality", PEnum "UltraQuality"); ("filter", PEnum "MildFiltering")])
                    (Returned PNone) (skipn 16 l) eq_refl 5)
          as (c & v & Hin & Hst & _); [lia|left; cbn; lia|]
    end.
    cbn [firstn In] in Hin.
    repeat (destruct Hin as [Hin|Hin];
            [inversion Hin; subst; vm_compute in Hst; discriminate|]).
    exact Hin.
  - match type of H with
    | checkpointed _ ?l =>
        destruct (H (firstn 6 l)
                    (Invoke Chunk "importCameras"
                       [PStr (path_str (child (child Sample.scan_dir "models")
                                              "a_Calibrated_Cameras_1.xml"));
                        PEnum "CamerasFormatXML"; PNone] [])
                    PNone (skipn 7 l) eq_refl eq_refl)
          as (c & r & post & Hp & Hs)
    end.
    cbn [skipn] in Hp. inversion Hp; subst. discriminate.
Qed.

(** C3, amended.  For every engine, every folder and every unit, in the
    log of [process_scan] of either method:
    - the steps of the chain come in order ([ordered]): a call of a step
      is logged only after every earlier step of the chain was completed by
      a call that returned, an exception that no handler takes ending the
      unit.  The chain of Method B is ingest, calibrate, import reference,
      match, align, optimize, build depth, build mesh, export; the chain of
      Method A is ingest, import cameras, match, align, build depth, build
      mesh.  The snapshot of Method B and the optimization and the thinning
      of Method A lie beside the chain: they come after the alignment
      (after the mesh, for the thinning), and the chain goes on when they
      fail;
    - in particular a depth or mesh call is logged only after a
      [matchPhotos] and an [alignCameras] that returned ([after_alignment]);
    - the project is saved right after the call that completes a step
      ([checkpointed]): in Method B after every step of the chain, match
      and align taken as one; in Method A after ingest, align, optimize
      (when it returns), build depth and build mesh, and not after
      the import of the cameras;
    - every save goes to the one project file of the unit ([in_place]):
      the first save names [models/<dataset>.psz], the later ones name no
      file and so write over the same file. *)
Theorem steps_in_order_and_saved
        {E : Type} (respond : E -> call -> reply * E)
        (scan_dir : path) (f_px : Q) (crs : pyval) (gpu : option Z)
        (xml_glob : string) (kl tl : Z) (kk kd km : bool) (d : fs) (s : E) :
  let log_B :=
    w_log (snd (MethodB.process_scan respond scan_dir f_px crs (Batch.start d s))) in
  let log_A :=
    w_log (snd (MethodA.process_scan respond scan_dir crs gpu xml_glob
                  kl tl kk kd km (Batch.start d s))) in
  (ordered plan_B log_B /\ after_alignment log_B
   /\ checkpointed plan_B log_B /\ in_place (project_file scan_dir) log_B)
  /\ (ordered plan_A log_A /\ after_alignment log_A
      /\ checkpointed plan_A log_A /\ in_place (project_file scan_dir) log_A).
Proof.
  cbv zeta. split.
  - destruct (checked_meaning plan_B (MethodB.process_scan respond scan_dir f_px crs)
                (Batch.start d s) save_apart_B eq_refl
                (process_scan_B_steps respond scan_dir f_px crs)) as [Ho Hc].
    repeat split; auto using after_alignment_B.
    apply saves_meaning; [reflexivity|apply process_scan_B_saves].
  - destruct (checked_meaning plan_A
                (MethodA.process_scan respond scan_dir crs gpu xml_glob kl tl kk kd km)
                (Batch.start d s) save_apart_A eq_refl
                (process_scan_A_steps respond scan_dir crs gpu xml_glob kl tl kk kd km))
      as [Ho Hc].
    repeat split; auto using after_alignment_A.
    apply saves_meaning; [reflexivity|apply process_scan_A_saves].
Qed.

End StepsFacts.

(** * The snapshot of the aligned state *)

Module SnapshotFacts.
Import Str FS Monitor MonitorFacts Exec Sig Snapshot.

Lemma same_text_refl (a : string) : same_text a a = true.
Proof. apply String.eqb_refl. Qed.

Ltac leaf_strings ::=
  repeat progress
    (cbv -[is_TypeError is_AttributeError truthy same_text String.append py_str];
     repeat match goal with
            | H : is_TypeError _ = _ |- _ => rewrite H
            | H : is_AttributeError _ = _ |- _ => rewrite H
            | H : truthy _ = _ |- _ => rewrite H
            end;
     rewrite ?same_text_refl).

Section Engine.
Context {E : Type}.
Variable respond : E -> call -> reply * E.

Lemma process_scan_B_snapshot (scan_dir : path) (f_px : Q) (crs : pyval) :
  moves (E:=E) step Idle Idle (MethodB.process_scan respond scan_dir f_px crs)
        (fun _ q' => settled q' = true) (fun _ q' => settled q' = true).
Proof. exec. Qed.

End Engine.

Ltac leaf_strings ::= idtac.

(** What the tokens are. *)
Ltac kind_cases ev :=
  destruct ev as [[[] km kargs kkw|[] ka|[] ka kx|[] ka] kr|[] kt]; cbn [kind];
  repeat (match goal with
          | |- context [String.eqb ?a ?b] => destruct (String.eqb a b) eqn:?
          end; cbv beta iota);
  try discriminate;
  repeat match goal with
         | H : String.eqb _ _ = true |- _ => apply String.eqb_eq in H; subst
         end.

Lemma kind_align (c : call) (r : reply) :
  is_method "alignCameras" (signature c) = true -> kind (Ev c r) = Align (returned r).
Proof.
  destruct c as [[] m args kw| | |]; cbn [signature is_method]; try discriminate.
  intros H. cbn [kind]. now rewrite H.
Qed.

Lemma kind_optimize (c : call) (r : reply) :
  is_method "optimizeCameras" (signature c) = true -> kind (Ev c r) = Optimize.
Proof.
  destruct c as [[] m args kw| | |]; cbn [signature is_method]; try discriminate.
  intros H. apply String.eqb_eq in H. subst. reflexivity.
Qed.

Lemma kind_save_inv (ev : event) (b : bool) :
  kind ev = Save b ->
  exists c r, ev = Ev c r /\ is_save (signature c) = true /\ returned r = b.
Proof.
  kind_cases ev; try (destruct kargs, kkw; discriminate);
    try (destruct kx as [| [] | | | | | | |]; discriminate).
  intros H. inversion H. eauto.
Qed.

Lemma kind_copy_inv (ev : event) (x : option pyval) :
  kind ev = Copy x -> exists r, ev = Ev copy_call r /\ value r = x.
Proof.
  kind_cases ev; try (destruct kargs, kkw; try discriminate);
    try (destruct kx as [| [] | | | | | | |]; discriminate).
  intros H. inversion H. eauto.
Qed.

Lemma kind_duplicate_inv (ev : event) (x : option pyval) :
  kind ev = Duplicate x -> exists r, ev = Ev duplicate_call r /\ value r = x.
Proof.
  kind_cases ev; try (destruct kargs, kkw; try discriminate);
    try (destruct kx as [| [] | | | | | | |]; discriminate).
  intros H. inversion H. eauto.
Qed.

Lemma kind_read_inv (ev : event) (x : option pyval) :
  kind ev = ReadLabel x -> exists r, ev = Ev read_label r /\ value r = x.
Proof.
  kind_cases ev; try (destruct kargs, kkw; discriminate);
    try (destruct kx as [| [] | | | | | | |]; discriminate).
  intros H. inversion H. eauto.
Qed.

Lemma kind_write_inv (ev : event) (x : pyval) :
  kind ev = WriteLabel x -> exists r, ev = Ev (SetAttr QcChunk "label" x) r.
Proof.
  kind_cases ev; try (destruct kargs, kkw; discriminate);
    try (destruct kx as [| [] | | | | | | |]; discriminate).
  intros H. inversion H. eauto.
Qed.

Lemma kind_disable_inv (ev : event) :
  kind ev = Disable -> exists r, ev = Ev disable r.
Proof.
  kind_cases ev; try (destruct kargs, kkw; discriminate).
  destruct kx as [| [] | | | | | | |]; try discriminate. eauto.
Qed.

Lemma kind_warn_inv (ev : event) : kind ev = Warn -> ev = warning.
Proof.
  kind_cases ev; try (destruct kargs, kkw; discriminate);
    try (destruct kx as [| [] | | | | | | |]; discriminate).
  reflexivity.
Qed.

Lemma kind_optimize_inv (ev : event) :
  kind ev = Optimize ->
  exists c r, ev = Ev c r /\ is_method "optimizeCameras" (signature c) = true.
Proof.
  kind_cases ev; try (destruct kargs, kkw; discriminate);
    try (destruct kx as [| [] | | | | | | |]; discriminate).
  eauto.
Qed.

Lemma halted_end (log : list event) (q : state) :
  run step Halted log = Some q -> log = [].
Proof.
  destruct log as [|ev log]; auto. intros H.
  apply run_cons in H as (q1 & H1 & _). unfold step in H1.
  destruct (kind ev); discriminate.
Qed.

(** The next event, when the monitor cannot end where it is. *)
Ltac next_event Hr ev post q Hst :=
  match type of Hr with
  | run step _ ?l = Some _ =>
      destruct l as [|ev post];
      [apply run_nil in Hr; subst; discriminate
      |apply run_cons in Hr as (q & Hst & Hr); unfold step in Hst]
  end.

Lemma run_right_after_alignment (log : list event) (qf : state) :
  run step Idle log = Some qf -> settled qf = true -> right_after_alignment log.
Proof.
  intros H Hs pre c v post -> Hc.
  apply run_split in H as (q1 & q2 & Hpre & Hst & Hr).
  unfold step in Hst. rewrite (kind_align c _ Hc) in Hst. cbn [returned] in Hst.
  destruct q1 as [| | | |[]| | | | | | |]; try discriminate Hst.
  inversion Hst; subst q2; clear Hst.
  next_event Hr ev2 post2 q3 Hst2.
  destruct (kind ev2) as [|[]| | | | | | | | |] eqn:K; try discriminate Hst2;
    inversion Hst2; subst q3; clear Hst2;
    apply kind_save_inv in K as (cs & rs & -> & Hsave & Hret);
    exists cs, rs, post2; (split; [reflexivity|split; [exact Hsave|]]);
    destruct rs; try discriminate Hret.
  - next_event Hr ev3 post3 q4 Hst3.
    destruct (kind ev3) eqn:K3; try discriminate Hst3.
    apply kind_copy_inv in K3 as (r & -> & _). eauto.
  - now apply halted_end in Hr.
Qed.
Lemma run_copied (log : list event) :
  forall q, run step Idle log = Some q ->
  match q with
  | Idle | Aligned | Saved | Halted => True
  | _ => exists r, In (Ev copy_call r) log
  end.
Proof.
  induction log as [|ev log IH] using rev_ind; intros q H.
  - apply run_nil in H. now subst.
  - rewrite run_snoc in H.
    destruct (run step Idle log) as [q0|]; [|discriminate].
    specialize (IH q0 eq_refl). cbn [feed] in H. unfold step in H.
    assert (Hold : (exists r, In (Ev copy_call r) log) ->
                   exists r, In (Ev copy_call r) (log ++ [ev])).
    { intros [r Hr]. exists r. apply in_or_app. auto. }
    assert (Hnew : forall x, kind ev = Copy x ->
                   exists r, In (Ev copy_call r) (log ++ [ev])).
    { intros x K. apply kind_copy_inv in K as (r & -> & _). exists r.
      apply in_or_app. right. now left. }
    destruct q0 as [| | | |[]| | | | | | |];
      destruct (kind ev) as [[]|[]|[v|]|[v|]|[lb|]| | | | | |] eqn:K;
      cbn [next] in H; try discriminate H;
      try (unfold got in H; destruct (truthy v));
      try (destruct (label_ok _ _); [|discriminate H]);
      inversion H; subst q; clear H; eauto; exact I.
Qed.

Lemma run_before_optimization (log : list event) (qf : state) :
  run step Idle log = Some qf -> before_optimization log.
Proof.
  intros H pre c r post -> Hc.
  apply run_split in H as (q1 & q2 & Hpre & Hst & _).
  unfold step in Hst. rewrite (kind_optimize c r Hc) in Hst.
  apply run_copied in Hpre.
  destruct q1 as [| | | |[]| | | | | | |]; try discriminate Hst; exact Hpre.
Qed.

Lemma run_duplicate_after_copy (log : list event) (qf : state) :
  run step Idle log = Some qf -> settled qf = true -> duplicate_after_copy log.
Proof.
  intros H Hs pre e post ->.
  apply run_split in H as (q1 & q2 & Hpre & Hst & Hr).
  unfold step in Hst. cbn [kind copy_call] in Hst. 
  destruct q1 as [| | | |[]| | | | | | |]; try discriminate Hst.
  inversion Hst; subst q2; clear Hst.
  next_event Hr ev2 post2 q3 Hst2.
  destruct (kind ev2) eqn:K; try discriminate Hst2.
  apply kind_duplicate_inv in K as (r & -> & _). eauto.
Qed.
Lemma label_ok_eq (l x : pyval) :
  label_ok l x = true -> SetAttr QcChunk "label" x = relabel l.
Proof.
  destruct x; try discriminate. cbn [label_ok]. unfold same_text. intros H.
  apply String.eqb_eq in H. now subst.
Qed.

Lemma from_disabled (post : list event) (qf : state) :
  run step Disabled post = Some qf -> settled qf = true ->
  exists cs rs post', post = Ev cs rs :: post' /\ is_save (signature cs) = true.
Proof.
  intros Hr Hs. next_event Hr ev post' q Hst.
  destruct (kind ev) eqn:K; try discriminate Hst.
  apply kind_save_inv in K as (cs & rs & -> & Hsave & _). eauto.
Qed.

Lemma from_labelled (post : list event) (qf : state) :
  run step Labelled post = Some qf -> settled qf = true ->
  exists r2 cs rs post',
    post = Ev disable r2 :: Ev cs rs :: post' /\ is_save (signature cs) = true.
Proof.
  intros Hr Hs. next_event Hr ev post' q Hst.
  destruct (kind ev) eqn:K; try discriminate Hst.
  inversion Hst; subst q; clear Hst.
  apply kind_disable_inv in K as (r2 & ->).
  destruct (from_disabled _ _ Hr Hs) as (cs & rs & post'' & -> & Hsave). eauto 6.
Qed.

Lemma from_taken (post : list event) (qf : state) :
  run step (Taken true) post = Some qf -> settled qf = true ->
  exists rl r2 cs rs post',
    is_save (signature cs) = true
    /\ match rl with
       | Returned l =>
           exists r1,
           post = Ev read_label rl :: Ev (relabel l) r1
                     :: Ev disable r2 :: Ev cs rs :: post'
       | Threw _ =>
           post = Ev read_label rl :: Ev disable r2 :: Ev cs rs :: post'
       end.
Proof.
  intros Hr Hs. next_event Hr ev post1 q Hst.
  destruct (kind ev) as [| | | |[l|]| | | | | |] eqn:K; try discriminate Hst;
    inversion Hst; subst q; clear Hst;
    apply kind_read_inv in K as (rl & -> & Hv); destruct rl as [l'|e];
    try discriminate Hv.
  - inversion Hv; subst l'; clear Hv.
    next_event Hr ev2 post2 q Hst.
    destruct (kind ev2) eqn:K; try discriminate Hst.
    cbn [next] in Hst. destruct (label_ok l x) eqn:Hl; [|discriminate Hst].
    inversion Hst; subst q; clear Hst.
    apply kind_write_inv in K as (r1 & ->). rewrite (label_ok_eq _ _ Hl).
    destruct (from_labelled _ _ Hr Hs) as (r2 & cs & rs & post' & -> & Hsave).
    exists (Returned l), r2, cs, rs, post'. eauto.
  - destruct (from_labelled _ _ Hr Hs) as (r2 & cs & rs & post' & -> & Hsave).
    exists (Threw e), r2, cs, rs, post'. eauto.
Qed.

Lemma run_relabelled_and_disabled (log : list event) (qf : state) :
  run step Idle log = Some qf -> settled qf = true -> relabelled_and_disabled log.
Proof.
  intros H Hs pre c o post -> Hc.
  apply run_split in H as (q1 & q2 & Hpre & Hst & Hr).
  apply (from_taken post qf); [|exact Hs].
  unfold step in Hst.
  destruct Hc as [-> | ->]; cbn [kind copy_call duplicate_call value] in Hst;
    destruct q1 as [| | | |[]| | | | | | |]; try discriminate Hst;
    inversion Hst; subst q2; exact Hr.
Qed.

Lemma from_missing (post : list event) (qf : state) :
  run step Missing post = Some qf -> settled qf = true ->
  exists co ro post',
    post = warning :: Ev co ro :: post'
    /\ is_method "optimizeCameras" (signature co) = true.
Proof.
  intros Hr Hs. next_event Hr ev post1 q Hst.
  destruct (kind ev) eqn:K; try discriminate Hst.
  inversion Hst; subst q; clear Hst. apply kind_warn_inv in K. subst ev.
  next_event Hr ev2 post2 q Hst.
  destruct (kind ev2) eqn:K; try discriminate Hst.
  apply kind_optimize_inv in K as (co & ro & -> & Hm). eauto.
Qed.

Lemma run_warned_and_resumed (log : list event) (qf : state) :
  run step Idle log = Some qf -> settled qf = true -> warned_and_resumed log.
Proof.
  intros H Hs pre c r post -> Hc Hd.
  apply run_split in H as (q1 & q2 & Hpre & Hst & Hr).
  apply (from_missing post qf); [|exact Hs].
  unfold step in Hst.
  destruct Hc as [[-> Hret] | ->]; destruct r as [v|e];
    try discriminate Hret; cbn [kind copy_call duplicate_call value] in Hst;
    cbn [duplicate_of] in Hd;
    destruct q1 as [| | | |[]| | | | | | |]; try discriminate Hst;
    cbv -[truthy is_obj] in Hst;
    try (destruct (truthy v) eqn:Ht; [discriminate Hd|]);
    inversion Hst; subst q2; exact Hr.
Qed.

Lemma kind_duplicate_use (c : call) (r : reply) :
  call_obj c = QcChunk ->
  kind (Ev c r) = Stray
  \/ (exists x, c = SetAttr QcChunk "label" x /\ kind (Ev c r) = WriteLabel x)
  \/ (c = disable /\ kind (Ev c r) = Disable).
Proof.
  destruct c as [o m args kw|o a|o a x|o a]; cbn [call_obj]; intros ->; cbn [kind];
    auto.
  destruct (String.eqb a "label") eqn:Hl.
  - apply String.eqb_eq in Hl. subst. eauto.
  - destruct (String.eqb a "enabled") eqn:He; auto.
    apply String.eqb_eq in He. subst.
    destruct x as [| [] | | | | | | |]; auto.
Qed.

Lemma run_original_kept (log : list event) (qf : state) :
  run step Idle log = Some qf -> original_kept log.
Proof.
  intros H pre c r post -> Hc.
  apply run_split in H as (q1 & q2 & Hpre & Hst & Hr).
  unfold step in Hst.
  destruct (kind_duplicate_use c r Hc) as [K|[(x & -> & K)|(-> & K)]];
    rewrite K in Hst; auto.
  - destruct q1 as [| | | |[]| | | | | | |]; discriminate Hst.
  - left. destruct q1 as [| | | |[]|l| | | | | |]; try discriminate Hst.
    cbn [next] in Hst. destruct (label_ok l x) eqn:Hl; [|discriminate Hst].
    exists l. now apply label_ok_eq.
Qed.

Lemma snapshot_meaning {E A} (m : M E A) (w : world E) :
  w_log w = [] ->
  moves step Idle Idle m (fun _ q' => settled q' = true) (fun _ q' => settled q' = true) ->
  let log := w_log (snd (m w)) in
  right_after_alignment log /\ before_optimization log
  /\ duplicate_after_copy log /\ relabelled_and_disabled log
  /\ warned_and_resumed log /\ original_kept log.
Proof.
  intros Hl Hm. specialize (Hm w). unfold at_state in Hm. rewrite Hl in Hm.
  specialize (Hm eq_refl). cbv zeta. destruct (m w) as [r w'].
  destruct Hm as (qf & Hrun & Hq). cbn [snd].
  assert (Hs : settled qf = true) by (destruct r; exact Hq).
  split; [exact (run_right_after_alignment _ _ Hrun Hs)|].
  split; [exact (run_before_optimization _ _ Hrun)|].
  split; [exact (run_duplicate_after_copy _ _ Hrun Hs)|].
  split; [exact (run_relabelled_and_disabled _ _ Hrun Hs)|].
  split; [exact (run_warned_and_resumed _ _ Hrun Hs)|].
  exact (run_original_kept _ _ Hrun).
Qed.

(** A run of Method B where the engine duplicates the chunk: after the
    alignment and its save come the copy, the label, the disabling and a
    save, and then the optimization. *)
Example snapshot_taken :
  let run := MethodB.process_scan Sample.accepting Sample.scan_dir (10276.64)%Q PNone
               (Batch.start (Sample.host Sample.list_text_1
                               [(Sample.scan_dir, Some Sample.folder_B)]) tt) in
  firstn 7 (skipn 33 (map (fun ev => match ev with
                                     | Ev c _ => Some c
                                     | Printed _ _ => None
                                     end) (w_log (snd run))))
  = [Some (Invoke Chunk "alignCameras" [] [("adaptive_fitting", PBool false)]);
     Some (Invoke Doc "save" [] []);
     Some copy_call;
     Some read_label;
     Some (SetAttr QcChunk "label" (PStr "DISC3D__QC_ALIGNED"));
     Some disable;
     Some (Invoke Doc "save" [] [])].
Proof. vm_compute. reflexivity. Qed.

(** A run of Method B where the engine cannot duplicate: the warning is
    printed, the optimization follows and the unit is done. *)
Example snapshot_failure_is_warned :
  let run := MethodB.process_scan no_duplicate Sample.scan_dir (10276.64)%Q PNone
               (Batch.start (Sample.host Sample.list_text_1
                               [(Sample.scan_dir, Some Sample.folder_B)]) tt) in
  (exists msg, fst run = Val ("ok", msg))
  /\ firstn 4 (skipn 35 (w_log (snd run)))
     = [Ev copy_call (Threw {| e_class := RuntimeError; e_text := "cannot duplicate" |});
        Ev duplicate_call (Threw {| e_class := RuntimeError; e_text := "cannot duplicate" |});
        warning;
        Ev (Invoke Chunk "optimizeCameras" [] MethodB.optimize_primary) (Returned PNone)].
Proof. vm_compute. split; [eexists|]; reflexivity. Qed.

(** C8 as stated fails for Method A, which takes no snapshot: in the run
    of a unit that is done, the alignment (event 11) and its save (event 12)
    are followed by the optimization (event 13), and neither [copy] nor
    [duplicate] is ever called. *)
Lemma no_snapshot_in_method_A :
  let run := MethodA.process_scan Sample.accepting Sample.scan_dir PNone None
               "*_Calibrated_Cameras_*.xml" 250000%Z 250000%Z false false false
               (Batch.start (Sample.host Sample.list_text_1
                               [(Sample.scan_dir, Some Sample.folder_A)]) tt) in
  (exists msg, fst run = Val ("ok", msg))
  /\ firstn 3 (skipn 11 (w_log (snd run)))
     = [Ev (Invoke Chunk "alignCameras" [] [("adaptive_fitting", PBool false)])
           (Returned PNone);
        Ev (Invoke Doc "save" [] []) (Returned PNone);
        Ev (Invoke Chunk "optimizeCameras" [] MethodA.optimize_kwargs) (Returned PNone)]
  /\ (forall r, ~ In (Ev copy_call r) (w_log (snd run)))
  /\ (forall r, ~ In (Ev duplicate_call r) (w_log (snd run)))
  /\ ~ right_after_alignment (w_log (snd run))
  /\ ~ before_optimization (w_log (snd run)).
Proof.
  cbv zeta.
  split; [vm_compute; eexists; reflexivity|].
  split; [vm_compute; reflexivity|].
  match goal with
  | |- (forall r, ~ In _ ?l) /\ _ =>
      let l' := eval vm_compute in l in change l with l'
  end.
  assert (Hno : forall c, c = copy_call \/ c = duplicate_call ->
                forall r l, In (Ev c r) l ->
                Forall (fun ev => match ev with
                                  | Ev (Invoke Chunk m _ _) _ =>
                                      String.eqb m "copy" || String.eqb m "duplicate"
                                  | _ => false
                                  end = false) l -> False).
  { intros c Hc r l Hin Hall. rewrite Forall_forall in Hall.
    specialize (Hall _ Hin). destruct Hc as [-> | ->]; discriminate Hall. }
  split; [|split; [|split]].
  - intros r Hin. apply (Hno copy_call (or_introl eq_refl) r _ Hin).
    repeat constructor.
  - intros r Hin. apply (Hno duplicate_call (or_intror eq_refl) r _ Hin).
    repeat constructor.
  - intros H.
    match type of H with
    | right_after_alignment ?l =>
        destruct (H (firstn 11 l)
                    (Invoke Chunk "alignCameras" [] [("adaptive_fitting", PBool false)])
                    PNone (skipn 12 l) eq_refl eq_refl)
          as (cs & rs & post' & Hp & _ & Hnext)
    end.
    cbn [skipn] in Hp. inversion Hp; subst. destruct Hnext as (r & post'' & Hc).
    discriminate Hc.
  - intros H.
    match type of H with
    | before_optimization ?l =>
        destruct (H (firstn 13 l)
                    (Invoke Chunk "optimizeCameras" [] MethodA.optimize_kwargs)
                    (Returned PNone) (skipn 14 l) eq_refl eq_refl)
          as (r & Hin)
    end.
    apply (Hno copy_call (or_introl eq_refl) r _ Hin). cbn [firstn].
    repeat constructor.
Qed.

(** C8, amended: the snapshot is taken by Method B.  For every engine,
    every folder and every unit, in the log of [process_scan] of Method B:
    - once [alignCameras] has returned the project is saved and, when the
      save returns, the next call is [chunk.copy()]
      ([right_after_alignment]); no [optimizeCameras] is called before the
      copy was asked for ([before_optimization]);
    - when [copy] raises, [chunk.duplicate()] is called
      ([duplicate_after_copy]);
    - a duplicate that the engine gave is relabelled
      [<label of the chunk>__QC_ALIGNED] and disabled, the answers of the
      engine to the two assignments being ignored, and the project is saved
      ([relabelled_and_disabled]);
    - when no duplicate was made the warning is printed and the next call
      is [optimizeCameras] on the chunk ([warned_and_resumed]): the unit
      goes on;
    - the duplicate is used for nothing else ([original_kept]): the
      pipeline goes on with the chunk. *)
Theorem snapshot_of_aligned_state
        {E : Type} (respond : E -> call -> reply * E)
        (scan_dir : path) (f_px : Q) (crs : pyval) (d : fs) (s : E) :
  let log :=
    w_log (snd (MethodB.process_scan respond scan_dir f_px crs (Batch.start d s))) in
  right_after_alignment log /\ before_optimization log
  /\ duplicate_after_copy log /\ relabelled_and_disabled log
  /\ warned_and_resumed log /\ original_kept log.
Proof.
  apply (snapshot_meaning (MethodB.process_scan respond scan_dir f_px crs)
           (Batch.start d s) eq_refl).
  apply process_scan_B_snapshot.
Qed.

End SnapshotFacts.

(** * The fit mask *)

Module FitMaskFacts.
Import Str FS Monitor MonitorFacts Exec Sig FitMask.

Lemma same_value_refl (x : pyval) : same_value x x = true.
Proof.
  destruct x; cbn [same_value]; auto using Bool.eqb_reflx, Z.eqb_refl, String.eqb_refl,
    Nat.eqb_refl.
  - now rewrite Z.eqb_refl, Pos.eqb_refl.
  - unfold names_eqb. induction l; cbn; auto. now rewrite String.eqb_refl.
  - destruct o; cbn; auto using Nat.eqb_refl.
Qed.

Lemma same_write_refl (o : obj) (a : string) (x : pyval) :
  same_call (SetAttr o a x) (SetAttr o a x) = true.
Proof.
  cbn [same_call]. rewrite String.eqb_refl, same_value_refl.
  destruct o; cbn [obj_eqb andb]; auto. now rewrite Nat.eqb_refl.
Qed.

Ltac leaf_strings ::=
  repeat progress
    (cbv -[is_TypeError is_AttributeError truthy same_call];
     repeat match goal with
            | H : is_TypeError _ = _ |- _ => rewrite H
            | H : is_AttributeError _ = _ |- _ => rewrite H
            | H : truthy _ = _ |- _ => rewrite H
            end;
     rewrite ?same_write_refl).

Section Engine.
Context {E : Type}.
Variable respond : E -> call -> reply * E.

Lemma process_scan_B_mask (scan_dir : path) (f_px : Q) (crs : pyval) :
  moves (E:=E) step_B (Pending (seed_B f_px)) (Pending (seed_B f_px))
        (MethodB.process_scan respond scan_dir f_px crs)
        (fun _ _ => True) (fun _ _ => True).
Proof. exec. Qed.

Lemma lock_from_mask (n : nat) :
  forall i, moves (E:=E) step_A Unread (Pending (locks_from i n))
                  (MethodA.lock_from respond i n)
                  (fun _ q' => q' = Pending []) (fun _ _ => True).
Proof.
  induction n as [|n IH]; intros i; cbn [MethodA.lock_from locks_from].
  - exec.
  - exec_using ltac:(apply IH).
Qed.

Lemma lock_intrinsics_mask :
  moves (E:=E) step_A Unread Unread (MethodA.lock_intrinsics respond)
        (fun _ q' => q' = Pending []) (fun _ _ => True).
Proof.
  unfold MethodA.lock_intrinsics.
  eapply moves_seq; [exec|intros _].
  eapply moves_bind
    with (R := fun v q' => q' = Pending (locks_from 0 (sensor_count v))).
  - exec_block.
  - intros v q' ->. destruct v; try exec. apply lock_from_mask.
Qed.

Lemma process_scan_A_mask (scan_dir : path) (crs : pyval) (gpu : option Z)
      (xml_glob : string) (kl tl : Z) (kk kd km : bool) :
  moves (E:=E) step_A Unread Unread
        (MethodA.process_scan respond scan_dir crs gpu xml_glob kl tl kk kd km)
        (fun _ _ => True) (fun _ _ => True).
Proof. exec_using ltac:(apply lock_intrinsics_mask). Qed.

(** A unit that returns [ok] has come to the matching. *)
Lemma process_scan_B_matched (scan_dir : path) (f_px : Q) (crs : pyval) :
  moves (E:=E) step_B (Pending (seed_B f_px)) (Pending (seed_B f_px))
        (MethodB.process_scan respond scan_dir f_px crs)
        (fun r q' => fst r = "ok" -> q' = Matched) (fun _ _ => True).
Proof. exec. all: intros G; first [discriminate G | reflexivity]. Qed.

Lemma process_scan_A_matched (scan_dir : path) (crs : pyval) (gpu : option Z)
      (xml_glob : string) (kl tl : Z) (kk kd km : bool) :
  moves (E:=E) step_A Unread Unread
        (MethodA.process_scan respond scan_dir crs gpu xml_glob kl tl kk kd km)
        (fun r q' => fst r = "ok" -> q' = Matched) (fun _ _ => True).
Proof.
  exec_using ltac:(apply lock_intrinsics_mask).
  all: intros G; first [discriminate G | reflexivity].
Qed.

End Engine.

Ltac leaf_strings ::= idtac.

Lemma writes_app (l1 l2 : list event) : writes (l1 ++ l2) = (writes l1 ++ writes l2)%list.
Proof.
  induction l1 as [|[c r|st t] l1 IH]; cbn [writes app]; auto.
  destruct (is_write c); cbn [app]; now rewrite IH.
Qed.

Lemma same_value_eq (x y : pyval) : same_value x y = true -> x = y.
Proof.
  destruct x, y; cbn [same_value]; try discriminate; intros H; auto.
  - apply Bool.eqb_prop in H. now subst.
  - apply Z.eqb_eq in H. now subst.
  - apply andb_prop in H as [H1 H2]. apply Z.eqb_eq in H1. apply Pos.eqb_eq in H2.
    destruct q, q0. cbn in *. now subst.
  - apply String.eqb_eq in H. now subst.
  - apply FSFacts.path_eqb_eq in H. now subst.
  - apply String.eqb_eq in H. now subst.
  - apply Nat.eqb_eq in H. now subst.
  - apply FallbackFacts.obj_eqb_eq in H. now subst.
Qed.

Lemma same_call_eq (c c0 : call) : same_call c c0 = true -> c = c0 /\ is_write c = touches c.
Proof.
  destruct c, c0; cbn [same_call]; try discriminate. intros H.
  apply andb_prop in H as [H H3]. apply andb_prop in H as [H1 H2].
  apply FallbackFacts.obj_eqb_eq in H1. apply String.eqb_eq in H2.
  apply same_value_eq in H3. subst. split; [reflexivity|].
  unfold touches. cbn [signature is_method]. now rewrite orb_false_r.
Qed.

Lemma matching_no_touch (c : call) : is_matching c = true -> touches c = false.
Proof.
  unfold is_matching, touches.
  destruct c as [[] m args kw| | |]; cbn [signature is_method is_write orb];
    try discriminate.
  intros H. destruct (String.eqb m "importCameras") eqn:Hm; [|reflexivity].
  apply String.eqb_eq in Hm. subst. discriminate H.
Qed.

Lemma no_touch_no_write (c : call) : touches c = false -> is_write c = false.
Proof. unfold touches. intros H. now apply orb_false_elim in H as [H _]. Qed.

Lemma begin_matching_inv (q q' : state) :
  begin_matching q = Some q' -> (q = Pending [] \/ q = Matched) /\ q' = Matched.
Proof.
  destruct q as [|[|]| |]; cbn; try discriminate; intros H; inversion H; auto.
Qed.

(** Method B. *)
Lemma step_B_cases (q q' : state) (c : call) (r : reply) :
  step_B q (Ev c r) = Some q' ->
  mask_B c = true
  /\ ((is_matching c = true /\ is_write c = false
       /\ (q = Pending [] \/ q = Matched) /\ q' = Matched)
      \/ (is_matching c = false /\ touches c = true /\ is_write c = true
          /\ exists todo, q = Pending (c :: todo)
                          /\ q' = if Snapshot.returned r then Pending todo else Over)
      \/ (is_matching c = false /\ touches c = false /\ is_write c = false /\ q' = q)).
Proof.
  cbn [step_B]. destruct (mask_B c); [|discriminate]. cbn [negb].
  intros H. split; [reflexivity|].
  destruct (is_matching c) eqn:Hm.
  - left. apply begin_matching_inv in H as [Hq ->].
    auto using no_touch_no_write, matching_no_touch.
  - destruct (touches c) eqn:Ht.
    + right. left. destruct q as [|[|c0 todo]| |]; try discriminate H.
      cbn [expect] in H. destruct (same_call c c0) eqn:Hc; [|discriminate H].
      apply same_call_eq in Hc as [-> Hw]. rewrite Ht in Hw.
      inversion H. rewrite orb_false_r. eauto 6.
    + right. right. inversion H. auto using no_touch_no_write.
Qed.

Lemma run_seeded (f_px : Q) (log : list event) :
  forall q, run step_B (Pending (seed_B f_px)) log = Some q ->
  match q with
  | Pending todo =>
      map (fun w => (w, true)) (seed_B f_px)
      = (writes log ++ map (fun w => (w, true)) todo)%list
  | Matched => writes log = map (fun w => (w, true)) (seed_B f_px)
  | Unread => False
  | Over => True
  end.
Proof.
  induction log as [|ev log IH] using rev_ind; intros q H.
  - apply run_nil in H. now subst.
  - rewrite run_snoc in H.
    destruct (run step_B (Pending (seed_B f_px)) log) as [q0|]; [|discriminate].
    specialize (IH q0 eq_refl). cbn [feed] in H. rewrite writes_app.
    destruct ev as [c r|st t].
    + apply step_B_cases in H
        as (_ & [(_ & Hw & Hq & ->)|[(_ & _ & Hw & todo & -> & ->)|(_ & _ & Hw & ->)]]);
        cbn [writes]; rewrite Hw.
      * rewrite app_nil_r. destruct Hq as [-> | ->]; [|exact IH].
        cbn [map] in IH. now rewrite app_nil_r in IH.
      * destruct (Snapshot.returned r); [|exact I].
        rewrite IH. cbn [map]. now rewrite <- app_assoc.
      * now rewrite app_nil_r.
    + inversion H; subst q. cbn [writes]. now rewrite app_nil_r.
Qed.

Lemma run_seeded_before_matching (f_px : Q) (log : list event) (qf : state) :
  run step_B (Pending (seed_B f_px)) log = Some qf -> seeded_before_matching f_px log.
Proof.
  intros H pre c r post -> Hc.
  apply run_split in H as (q1 & q2 & Hpre & Hst & _).
  apply run_seeded in Hpre.
  apply step_B_cases in Hst as (_ & [(_ & _ & Hq & _)|[(Hm & _)|(Hm & _)]]);
    try congruence.
  destruct Hq as [-> | ->]; [|exact Hpre].
  cbn [map] in Hpre. now rewrite app_nil_r in Hpre.
Qed.

Lemma run_matched_B (q0 : state) (log : list event) :
  forall q, run step_B q0 log = Some q ->
  forall c r, In (Ev c r) log -> is_matching c = true -> q = Matched.
Proof.
  induction log as [|ev log IH] using rev_ind; intros q H c r Hin Hc; [destruct Hin|].
  rewrite run_snoc in H. destruct (run step_B q0 log) as [q1|]; [|discriminate].
  cbn [feed] in H. apply in_app_or in Hin as [Hin|[->|[]]].
  - specialize (IH q1 eq_refl c r Hin Hc). subst q1. destruct ev as [c' r'|st t].
    + apply step_B_cases in H
        as (_ & [(_ & _ & _ & ->)|[(_ & _ & _ & todo & Hq & _)|(_ & _ & _ & ->)]]);
        auto; discriminate Hq.
    + now inversion H.
  - apply step_B_cases in H as (_ & [(_ & _ & _ & ->)|[(Hm & _)|(Hm & _)]]);
      auto; congruence.
Qed.

Lemma run_untouched_B (q0 qf : state) (log : list event) :
  run step_B q0 log = Some qf -> untouched_after_matching log.
Proof.
  intros H pre c r post -> Hc c' r' Hin.
  destruct (is_matching c') eqn:Hm; [|reflexivity].
  apply run_split in H as (q1 & q2 & Hpre & Hst & _).
  rewrite (run_matched_B _ _ _ Hpre c' r' Hin Hm) in Hst.
  apply step_B_cases in Hst
    as (_ & [(Hx & _)|[(_ & _ & _ & todo & Hq & _)|(_ & Ht & _)]]).
  - apply matching_no_touch in Hx. congruence.
  - discriminate Hq.
  - congruence.
Qed.

Lemma all_held_incl (terms : list string) (c : call) :
  all_held terms c = true -> incl terms (held c).
Proof.
  unfold all_held. rewrite forallb_forall. intros H t Ht.
  specialize (H t Ht). apply existsb_exists in H as (t' & Hin & Heq).
  apply String.eqb_eq in Heq. now subst.
Qed.

Lemma run_only_f_fitted (q0 qf : state) (log : list event) :
  run step_B q0 log = Some qf -> only_f_fitted log.
Proof.
  intros H c r Hin. apply in_split in Hin as (pre & post & ->).
  apply run_split in H as (q1 & q2 & _ & Hst & _).
  apply step_B_cases in Hst as (Hmask & _). unfold mask_B in Hmask.
  destruct (is_method "optimizeCameras" (signature c)).
  - apply andb_prop in Hmask as [H1 H2]. apply FSFacts.path_eqb_eq in H1.
    auto using all_held_incl.
  - now apply FSFacts.path_eqb_eq in Hmask.
Qed.

(** Method A. *)
Lemma is_read_sensors_eq (c : call) : is_read_sensors c = true -> c = read_sensors.
Proof.
  destruct c as [| [] a | |]; cbn [is_read_sensors]; try discriminate.
  intros H. apply String.eqb_eq in H. now subst.
Qed.

Lemma step_A_cases (q q' : state) (c : call) (r : reply) :
  step_A q (Ev c r) = Some q' ->
  mask_A c = true
  /\ ((is_matching c = true /\ is_write c = false
       /\ (q = Pending [] \/ q = Matched) /\ q' = Matched)
      \/ (is_matching c = false /\ touches c = true /\ is_write c = true
          /\ exists todo, q = Pending (c :: todo) /\ q' = Pending todo)
      \/ (is_matching c = false /\ touches c = true /\ is_write c = false
          /\ q = Unread /\ q' = Unread)
      \/ (is_matching c = false /\ touches c = false /\ is_write c = false
          /\ c = read_sensors /\ q = Unread
          /\ q' = match r with
                  | Returned v => Pending (locks_from 0 (sensor_count v))
                  | Threw _ => Unread
                  end)
      \/ (is_matching c = false /\ touches c = false /\ is_write c = false /\ q' = q)).
Proof.
  cbn [step_A]. destruct (mask_A c); [|discriminate]. cbn [negb].
  intros H. split; [reflexivity|].
  destruct (is_matching c) eqn:Hm.
  - left. apply begin_matching_inv in H as [Hq ->].
    auto using no_touch_no_write, matching_no_touch.
  - right. unfold touches. destruct (is_write c) eqn:Hw; cbn [orb].
    + left. destruct q as [|[|c0 todo]| |]; try discriminate H.
      cbn [expect] in H. destruct (same_call c c0) eqn:Hc; [|discriminate H].
      apply same_call_eq in Hc as [-> _]. rewrite orb_true_r in H.
      inversion H. eauto 6.
    + right. destruct (is_method "importCameras" (signature c)).
      * left. destruct q; try discriminate H. inversion H. auto.
      * right. destruct (is_read_sensors c) eqn:Hr.
        -- left. apply is_read_sensors_eq in Hr.
           destruct q; try discriminate H. inversion H. auto 6.
        -- right. inversion H. auto.
Qed.

Lemma run_locked (log : list event) :
  forall q, run step_A Unread log = Some q ->
  match q with
  | Unread => writes log = []
  | Pending todo =>
      exists v, In (Ev read_sensors (Returned v)) log
                /\ locks_from 0 (sensor_count v) = (map fst (writes log) ++ todo)%list
  | Matched =>
      exists v, In (Ev read_sensors (Returned v)) log
                /\ map fst (writes log) = locks_from 0 (sensor_count v)
  | Over => True
  end.
Proof.
  induction log as [|ev log IH] using rev_ind; intros q H.
  - apply run_nil in H. now subst.
  - rewrite run_snoc in H.
    destruct (run step_A Unread log) as [q0|]; [|discriminate].
    specialize (IH q0 eq_refl). cbn [feed] in H. rewrite writes_app.
    assert (Hin : forall v, In (Ev read_sensors (Returned v)) log ->
                            In (Ev read_sensors (Returned v)) (log ++ [ev]))
      by (intros v Hv; apply in_or_app; auto).
    destruct ev as [c r|st t].
    + apply step_A_cases in H
        as (_ & [(_ & Hw & Hq & ->)
                |[(_ & _ & Hw & todo & -> & ->)
                 |[(_ & _ & Hw & -> & ->)
                  |[(_ & _ & Hw & -> & -> & ->)|(_ & _ & Hw & ->)]]]]);
        cbn [writes]; rewrite Hw; rewrite ?app_nil_r.
      * destruct Hq as [-> | ->]; destruct IH as (v & Hv & IH); exists v;
          rewrite ?app_nil_r in IH; auto.
      * destruct IH as (v & Hv & IH). exists v. split; [auto|].
        rewrite IH, map_app. cbn [map fst]. now rewrite <- app_assoc.
      * exact IH.
      * destruct r as [v|e]; [|exact IH]. exists v. rewrite IH. split; [|reflexivity].
        apply in_or_app. right. now left.
      * destruct q0; auto; destruct IH as (v & Hv & IH); eauto.
    + inversion H; subst q. cbn [writes]. rewrite app_nil_r.
      destruct q0; auto; destruct IH as (v & Hv & IH); eauto.
Qed.

Lemma run_locks_requested_before_matching (log : list event) (qf : state) :
  run step_A Unread log = Some qf -> locks_requested_before_matching log.
Proof.
  intros H pre c r post -> Hc.
  apply run_split in H as (q1 & q2 & Hpre & Hst & _).
  apply run_locked in Hpre.
  apply step_A_cases in Hst
    as (_ & [(_ & _ & Hq & _)|[(Hm & _)|[(Hm & _)|[(Hm & _)|(Hm & _)]]]]);
    try congruence.
  destruct Hq as [-> | ->]; destruct Hpre as (v & Hv & Hpre); exists v;
    rewrite ?app_nil_r in Hpre; auto.
Qed.

Lemma run_matched_A (q0 : state) (log : list event) :
  forall q, run step_A q0 log = Some q ->
  forall c r, In (Ev c r) log -> is_matching c = true -> q = Matched.
Proof.
  induction log as [|ev log IH] using rev_ind; intros q H c r Hin Hc; [destruct Hin|].
  rewrite run_snoc in H. destruct (run step_A q0 log) as [q1|]; [|discriminate].
  cbn [feed] in H. apply in_app_or in Hin as [Hin|[->|[]]].
  - specialize (IH q1 eq_refl c r Hin Hc). subst q1. destruct ev as [c' r'|st t].
    + apply step_A_cases in H
        as (_ & [(_ & _ & _ & ->)
                |[(_ & _ & _ & todo & Hq & _)
                 |[(_ & _ & _ & Hq & _)
                  |[(_ & _ & _ & _ & Hq & _)|(_ & _ & _ & ->)]]]]);
        auto; discriminate Hq.
    + now inversion H.
  - apply step_A_cases in H
      as (_ & [(_ & _ & _ & ->)|[(Hm & _)|[(Hm & _)|[(Hm & _)|(Hm & _)]]]]);
      auto; congruence.
Qed.

Lemma run_untouched_A (q0 qf : state) (log : list event) :
  run step_A q0 log = Some qf -> untouched_after_matching log.
Proof.
  intros H pre c r post -> Hc c' r' Hin.
  destruct (is_matching c') eqn:Hm; [|reflexivity].
  apply run_split in H as (q1 & q2 & Hpre & Hst & _).
  rewrite (run_matched_A _ _ _ Hpre c' r' Hin Hm) in Hst.
  apply step_A_cases in Hst
    as (_ & [(Hx & _)
            |[(_ & _ & _ & todo & Hq & _)
             |[(_ & _ & _ & Hq & _)
              |[(_ & Ht & _)|(_ & Ht & _)]]]]);
    try discriminate Hq; try congruence.
  apply matching_no_touch in Hx. congruence.
Qed.

Lemma run_nothing_fitted (q0 qf : state) (log : list event) :
  run step_A q0 log = Some qf -> nothing_fitted log.
Proof.
  intros H c r Hin. apply in_split in Hin as (pre & post & ->).
  apply run_split in H as (q1 & q2 & _ & Hst & _).
  apply step_A_cases in Hst as (Hmask & _). unfold mask_A in Hmask.
  apply andb_prop in Hmask as [H1 H2]. apply FSFacts.path_eqb_eq in H1.
  split; [exact H1|]. intros Ho. rewrite Ho in H2. now apply all_held_incl.
Qed.

(** A run of Method B: when [matchPhotos] is called (event 32) the
    writes so far are the seeding. *)
Example seeded_in_a_run :
  let log := w_log (snd (MethodB.process_scan Sample.accepting Sample.scan_dir
                           (10276.64)%Q PNone
                           (Batch.start (Sample.host Sample.list_text_1
                                           [(Sample.scan_dir, Some Sample.folder_B)]) tt))) in
  nth_error log 32
  = Some (Ev (Invoke Chunk "matchPhotos" [] MethodB.match_primary) (Returned PNone))
  /\ writes (firstn 32 log) = map (fun w => (w, true)) (seed_B (10276.64)%Q).
Proof. vm_compute. split; reflexivity. Qed.

(** A run of Method A: when [matchPhotos] is called (event 10) the one
    sensor is locked. *)
Example locked_in_a_run :
  let log := w_log (snd (MethodA.process_scan Sample.accepting Sample.scan_dir PNone None
                           "*_Calibrated_Cameras_*.xml" 250000%Z 250000%Z
                           false false false
                           (Batch.start (Sample.host Sample.list_text_1
                                           [(Sample.scan_dir, Some Sample.folder_A)]) tt))) in
  nth_error log 10
  = Some (Ev (Invoke Chunk "matchPhotos" [] (MethodA.match_primary 250000 250000 false))
             (Returned PNone))
  /\ writes (firstn 10 log) = [(lock 0, true)].
Proof. vm_compute. split; reflexivity. Qed.

(** The masks tell: an optimization that fits the principal point is
    outside both, and one that fits the focal length is outside Method A's. *)
Example masks_tell :
  mask_B (Invoke Chunk "optimizeCameras" []
            (("fit_cx", PBool true) :: MethodB.optimize_fallback)) = false
  /\ mask_A (Invoke Chunk "optimizeCameras" [] MethodB.optimize_primary) = false
  /\ mask_B (Invoke Chunk "optimizeCameras" [] MethodB.optimize_primary) = true
  /\ mask_B (Invoke Chunk "optimizeCameras" [] MethodB.optimize_fallback) = true
  /\ mask_A (Invoke Chunk "optimizeCameras" [] MethodA.optimize_kwargs) = true.
Proof. vm_compute. repeat split. Qed.

End FitMaskFacts.

From Stdlib Require Import Sorted.

(** ** Prefixes, suffixes and patterns *)

Module GlobFacts.
Import Str FS Glob.

Lemma startswith_app (p s : string) : startswith p (p ++ s) = true.
Proof. induction p as [|c p IH]; cbn; auto. now rewrite Ascii.eqb_refl. Qed.

Lemma startswith_inv (p : string) : forall s,
  startswith p s = true -> exists r, s = p ++ r.
Proof.
  induction p as [|c p IH]; intros s H; cbn in *; [eauto|].
  destruct s as [|d s]; [discriminate|].
  apply andb_prop in H as [H1 H2]. apply Ascii.eqb_eq in H1. subst d.
  destruct (IH s H2) as [r ->]. eauto.
Qed.

Lemma contains_cons (old : string) (c : ascii) (s : string) :
  contains old s = true -> contains old (String c s) = true.
Proof. intros H. cbn [contains]. rewrite H. apply orb_true_r. Qed.

Lemma contains_app (old a b : string) : contains old (a ++ old ++ b) = true.
Proof.
  induction a as [|c a IH]; cbn [append].
  - destruct (old ++ b) eqn:E; cbn [contains];
      rewrite <- E, startswith_app; reflexivity.
  - now apply contains_cons.
Qed.

Lemma contains_inv (old : string) : forall s,
  contains old s = true -> exists a b, s = a ++ old ++ b.
Proof.
  induction s as [|c s IH]; cbn [contains]; intros H.
  - rewrite orb_false_r in H. apply startswith_inv in H as [r ->].
    exists EmptyString, r. reflexivity.
  - apply orb_prop in H as [H|H].
    + apply startswith_inv in H as [r ->]. exists EmptyString, r. reflexivity.
    + destruct (IH H) as (a & b & ->). exists (String c a), b. reflexivity.
Qed.

Lemma fnmatch_star (pat s : string) :
  fnmatch (String "*" pat) s
  = fnmatch pat s
    || match s with
       | EmptyString => false
       | String _ s' => fnmatch (String "*" pat) s'
       end.
Proof. destruct s; reflexivity. Qed.

Lemma fnmatch_literal (p : string) : forall s,
  no_wild p = true -> fnmatch p s = String.eqb p s.
Proof.
  induction p as [|c p IH]; intros s H.
  - destruct s; reflexivity.
  - cbn [no_wild] in H. apply andb_prop in H as [Hc Hp].
    unfold is_wild in Hc. apply negb_true_iff, orb_false_elim in Hc as [H1 H2].
    cbn [fnmatch]. rewrite H1. destruct s as [|d s]; [reflexivity|].
    rewrite H2. cbn [orb String.eqb]. rewrite (IH s Hp). reflexivity.
Qed.

(** [*lit] matches the names that end with [lit]. *)
Lemma fnmatch_star_suffix (lit : string) :
  no_wild lit = true ->
  forall s, fnmatch (String "*" lit) s = true <-> exists a, s = a ++ lit.
Proof.
  intros Hl. induction s as [|c s IH]; rewrite fnmatch_star, (fnmatch_literal _ _ Hl).
  - rewrite orb_false_r. split.
    + intros H. apply String.eqb_eq in H. exists EmptyString. now subst.
    + intros [a H]. destruct a; cbn in H; [subst; apply String.eqb_refl|discriminate].
  - split.
    + intros H. apply orb_prop in H as [H|H].
      * apply String.eqb_eq in H. exists EmptyString. now subst.
      * apply IH in H as [a ->]. exists (String c a). reflexivity.
    + intros [a H]. destruct a as [|d a]; cbn in H.
      * subst lit. now rewrite String.eqb_refl.
      * inversion H; subst. apply orb_true_iff. right. apply IH. eauto.
Qed.

End GlobFacts.

(** ** Discovery of the scan folders: [find_scans] *)

Module Discovery.
Import Str FS Glob GlobFacts.

Lemma insert_path_perm (x : path) (l : list path) :
  Permutation (x :: l) (insert_path x l).
Proof.
  induction l as [|y l IH]; cbn [insert_path]; auto.
  destruct (path_leb x y); auto.
  eapply perm_trans; [apply perm_swap|]. now constructor.
Qed.

Lemma sorted_paths_perm (l : list path) : Permutation l (sorted_paths l).
Proof.
  induction l as [|x l IH]; cbn [sorted_paths]; auto.
  eapply perm_trans; [|apply insert_path_perm]. now constructor.
Qed.

Lemma path_leb_refl (p : path) : path_leb p p = true.
Proof. induction p as [|a p IH]; cbn; auto. now rewrite String.eqb_refl. Qed.

Lemma path_leb_total (p : path) : forall q, path_leb p q = true \/ path_leb q p = true.
Proof.
  induction p as [|a p IH]; intros [|b q]; cbn; auto.
  rewrite (String.eqb_sym b a). destruct (String.eqb a b); [apply IH|].
  apply String.leb_total.
Qed.

Lemma path_leb_antisym (p : path) : forall q,
  path_leb p q = true -> path_leb q p = true -> p = q.
Proof.
  induction p as [|a p IH]; intros [|b q]; cbn; try discriminate; auto.
  rewrite (String.eqb_sym b a). destruct (String.eqb a b) eqn:E.
  - apply String.eqb_eq in E. subst b. intros H1 H2. f_equal. now apply IH.
  - intros H1 H2. apply String.eqb_neq in E. exfalso. apply E.
    now apply String.leb_antisym.
Qed.

Lemma path_leb_trans (p : path) : forall q r,
  path_leb p q = true -> path_leb q r = true -> path_leb p r = true.
Proof.
  induction p as [|a p IH]; intros [|b q] [|c r]; cbn; try discriminate; auto.
  destruct (String.eqb a b) eqn:Eab.
  - apply String.eqb_eq in Eab. subst b. destruct (String.eqb a c); [apply IH|auto].
  - destruct (String.eqb b c) eqn:Ebc.
    + apply String.eqb_eq in Ebc. subst c. rewrite Eab. auto.
    + intros H1 H2. pose proof (SortFacts.leb_trans a b c H1 H2) as H3.
      destruct (String.eqb a c) eqn:Eac; [|exact H3].
      apply String.eqb_eq in Eac. subst c. apply String.eqb_neq in Eab.
      exfalso. apply Eab. now apply String.leb_antisym.
Qed.

Lemma insert_path_sorted (x : path) (l : list path) :
  StronglySorted (fun p q => path_leb p q = true) l ->
  StronglySorted (fun p q => path_leb p q = true) (insert_path x l).
Proof.
  induction 1 as [|y l Hl IH Hy]; cbn [insert_path].
  - repeat constructor.
  - destruct (path_leb x y) eqn:E.
    + constructor; [now constructor|]. constructor; [exact E|].
      rewrite Forall_forall in *. intros z Hz. eapply path_leb_trans; eauto.
    + constructor; [exact IH|]. rewrite Forall_forall in *. intros z Hz.
      apply (Permutation_in _ (Permutation_sym (insert_path_perm x l))) in Hz.
      destruct Hz as [<-|Hz]; [|auto].
      destruct (path_leb_total x y) as [H|H]; congruence.
Qed.

Lemma sorted_paths_sorted (l : list path) :
  StronglySorted (fun p q => path_leb p q = true) (sorted_paths l).
Proof.
  induction l as [|x l IH]; cbn [sorted_paths]; [constructor|].
  now apply insert_path_sorted.
Qed.

(** Two sorted lists with the same elements are the same list. *)
Lemma sorted_unique (l : list path) : forall l',
  StronglySorted (fun p q => path_leb p q = true) l ->
  StronglySorted (fun p q => path_leb p q = true) l' ->
  Permutation l l' -> l = l'.
Proof.
  induction l as [|a l IH]; intros l' Hl Hl' P.
  - apply Permutation_nil in P. now subst.
  - destruct l' as [|b l']; [apply Permutation_sym, Permutation_nil in P; discriminate|].
    inversion Hl as [|? ? Sl Fl]; inversion Hl' as [|? ? Sl' Fl']; subst.
    rewrite Forall_forall in Fl, Fl'.
    assert (a = b).
    { assert (Ia : In a (b :: l')) by (apply (Permutation_in _ P); now left).
      assert (Ib : In b (a :: l))
        by (apply (Permutation_in _ (Permutation_sym P)); now left).
      destruct Ia as [E|Ia]; [now subst|]. destruct Ib as [E|Ib]; [now subst|].
      apply path_leb_antisym; auto. }
    subst b. f_equal. apply IH; auto. now apply Permutation_cons_inv in P.
Qed.

Lemma sorted_paths_order (l l' : list path) :
  Permutation l l' -> sorted_paths l = sorted_paths l'.
Proof.
  intros P. apply sorted_unique; try apply sorted_paths_sorted.
  eapply perm_trans; [apply Permutation_sym, sorted_paths_perm|].
  eapply perm_trans; [exact P|apply sorted_paths_perm].
Qed.

Lemma existsb_same {A} (f : A -> bool) (l l' : list A) :
  (forall x, In x l <-> In x l') -> existsb f l = existsb f l'.
Proof.
  intros H. destruct (existsb f l) eqn:E; symmetry.
  - apply existsb_exists in E as (x & Hx & Hf). apply existsb_exists.
    exists x. split; [now apply H|exact Hf].
  - destruct (existsb f l') eqn:E'; [|reflexivity].
    apply existsb_exists in E' as (x & Hx & Hf).
    assert (existsb f l = true) by (apply existsb_exists; exists x; split; [now apply H|auto]).
    congruence.
Qed.

(** A name that [*__DISC3D] matches holds [__]. *)
Lemma disc3d_has_separator (nm : string) :
  fnmatch "*__DISC3D" nm = true -> contains "__" nm = true.
Proof.
  intros H. apply (fnmatch_star_suffix "__DISC3D" eq_refl) in H as [a ->].
  apply (contains_app "__" a "DISC3D").
Qed.

(** X1.  The two scripts find the same scan folders, in the same order: the
    test [if "__" not in name: continue] that only Method B makes never
    skips a folder that [*__DISC3D] matched. *)
Theorem find_scans_same_in_both_scripts (d : fs) (dates : list string) :
  MethodB.find_scans d dates = MethodA.find_scans d dates.
Proof.
  unfold MethodB.find_scans, MethodA.find_scans. do 2 f_equal.
  apply filter_ext. intros [p n].
  destruct (fnmatch "*__DISC3D" (name p)) eqn:H; [|reflexivity].
  rewrite (disc3d_has_separator _ H). cbn [andb]. now rewrite andb_true_r.
Qed.

(** X2.  [find_scans] gives exactly the directories found below the root
    whose name ends with [__DISC3D] and starts with a listed date followed
    by [__]. *)
Theorem find_scans_membership (d : fs) (dates : list string) (p : path) :
  In p (MethodB.find_scans d dates)
  <-> (exists f, In (p, Some f) (tree d))
      /\ (exists base, name p = base ++ "__DISC3D")
      /\ (exists dt rest, In dt dates /\ name p = dt ++ "__" ++ rest).
Proof.
  unfold MethodB.find_scans. split.
  - intros H. apply (Permutation_in _ (Permutation_sym (sorted_paths_perm _))) in H.
    apply in_map_iff in H as ([q n] & Hq & H). cbn [fst] in Hq. subst q.
    apply filter_In in H as [Hin H].
    apply andb_prop in H as [H Hd]. apply andb_prop in H as [H _].
    apply andb_prop in H as [Hm Hn].
    destruct n as [f|]; [|discriminate]. split; [eauto|]. split.
    + now apply (fnmatch_star_suffix "__DISC3D" eq_refl).
    + apply existsb_exists in Hd as (dt & Hdt & Hs).
      apply startswith_inv in Hs as [rest Hs]. exists dt, rest. split; [exact Hdt|].
      rewrite Hs. now rewrite StrFacts.append_assoc.
  - intros ((f & Hin) & (base & Hb) & (dt & rest & Hdt & Hn)).
    apply (Permutation_in _ (sorted_paths_perm _)).
    apply in_map_iff. exists (p, Some f). split; [reflexivity|].
    apply filter_In. split; [exact Hin|].
    assert (Hm : fnmatch "*__DISC3D" (name p) = true)
      by (apply (fnmatch_star_suffix "__DISC3D" eq_refl); eauto).
    rewrite Hm, (disc3d_has_separator _ Hm). cbn [andb].
    apply existsb_exists. exists dt. split; [exact Hdt|].
    rewrite Hn, <- StrFacts.append_assoc. apply startswith_app.
Qed.

(** X3.  The scan folders come out in ascending order of their paths, and the
    result does not depend on the order in which the walk below the root
    yields the folders, nor on the order of the dates or on a date being
    listed more than once. *)
Theorem find_scans_order_is_fixed (d d' : fs) (dates dates' : list string) :
  StronglySorted (fun p q => path_leb p q = true) (MethodB.find_scans d dates)
  /\ (Permutation (tree d) (tree d') ->
      (forall dt, In dt dates <-> In dt dates') ->
      MethodB.find_scans d dates = MethodB.find_scans d' dates').
Proof.
  split; [apply sorted_paths_sorted|]. intros P Hd.
  unfold MethodB.find_scans. apply sorted_paths_order.
  apply Permutation_map.
  erewrite filter_ext; [apply XmlSelection.filter_perm, P|].
  intros [p n]. cbn beta iota. f_equal. now apply existsb_same.
Qed.

End Discovery.
(** ** The scan list: writing and reading back *)

Module ScanListMore.
Import Str ScanList Lines StrFacts ScanListFacts.

Lemma linebreak_is_space (c : ascii) : is_linebreak c = true -> isspace c = true.
Proof.
  unfold is_linebreak, isspace. intros H.
  apply orb_prop in H as [H|H]; apply andb_prop in H as [H1 H2];
    apply N.leb_le in H1; apply N.leb_le in H2; apply orb_true_iff; [left|right];
    apply andb_true_iff; split; apply N.leb_le; lia.
Qed.

Lemma cr_is_linebreak (c : ascii) : is_cr c = true -> is_linebreak c = true.
Proof.
  unfold is_cr, is_linebreak. intros H. apply N.eqb_eq in H. rewrite H. reflexivity.
Qed.

(** A text without spaces stays on the line being read. *)
Lemma splitlines_from_no_space (d : string) : forall cur t,
  no_space d = true ->
  splitlines_from cur (d ++ t) = splitlines_from (cur ++ d) t.
Proof.
  induction d as [|c d IH]; intros cur t H; cbn [append].
  - now rewrite append_nil_r.
  - cbn [no_space] in H. apply andb_prop in H as [Hc Hd].
    apply negb_true_iff in Hc.
    assert (Hb : is_linebreak c = false).
    { destruct (is_linebreak c) eqn:E; [|reflexivity].
      apply linebreak_is_space in E. congruence. }
    assert (Hr : is_cr c = false).
    { destruct (is_cr c) eqn:E; [|reflexivity].
      apply cr_is_linebreak in E. congruence. }
    cbn [splitlines_from]. rewrite Hr, Hb, (IH _ _ Hd).
    now rewrite append_assoc.
Qed.

Lemma no_space_app (a b : string) :
  no_space (a ++ b) = no_space a && no_space b.
Proof. induction a as [|c a IH]; cbn; auto. rewrite IH. apply andb_assoc. Qed.

Lemma digits_no_space (n : nat) : forall s r,
  digits n s = Some r -> exists d, s = d ++ r /\ no_space d = true /\ length d = n.
Proof.
  induction n as [|n IH]; cbn [digits]; intros s r H.
  - inversion H. exists EmptyString. auto.
  - destruct s as [|c s]; [discriminate|].
    destruct (isdigit c) eqn:Hc; [|discriminate].
    destruct (IH _ _ H) as (d & -> & Hd & Hl). exists (String c d).
    cbn. rewrite (isdigit_not_space _ Hc), Hd, Hl. auto.
Qed.

(** A timestamp is 15 characters, none of them a space. *)
Lemma stamp_no_space (d : string) :
  is_stamp d = true -> no_space d = true /\ length d = 15.
Proof.
  unfold is_stamp, stamp_prefix. intros H.
  destruct (digits 8 d) as [[|c r]|] eqn:H8; try discriminate.
  destruct (Ascii.eqb c "T") eqn:Hc; [|discriminate].
  apply Ascii.eqb_eq in Hc. subst c.
  destruct (digits 6 r) as [[|]|] eqn:H6; try discriminate.
  destruct (digits_no_space _ _ _ H8) as (d8 & -> & Hd8 & L8).
  destruct (digits_no_space _ _ _ H6) as (d6 & -> & Hd6 & L6).
  rewrite no_space_app, Hd8. cbn. rewrite no_space_app, Hd6.
  rewrite length_app. cbn. rewrite length_app, L8, L6. auto.
Qed.

Lemma lstrip_no_space (s : string) : no_space s = true -> lstrip s = s.
Proof.
  destruct s as [|c s]; cbn; auto. intros H. apply andb_prop in H as [H _].
  apply negb_true_iff in H. now rewrite H.
Qed.

Lemma rstrip_no_space (s : string) : no_space s = true -> rstrip s = s.
Proof.
  induction s as [|c s IH]; cbn; auto. intros H. apply andb_prop in H as [H1 H2].
  apply negb_true_iff in H1. rewrite (IH H2), H1. now rewrite andb_false_r.
Qed.

Lemma strip_no_space (s : string) : no_space s = true -> strip s = s.
Proof.
  intros H. unfold strip. rewrite (lstrip_no_space _ H). now apply rstrip_no_space.
Qed.

Lemma read_lines_app (l1 l2 : list string) :
  read_lines (l1 ++ l2) = (read_lines l1 ++ read_lines l2)%list.
Proof.
  rewrite !read_lines_filter, filter_app, map_app. reflexivity.
Qed.

Lemma read_lines_stamp (d : string) (rest : list string) :
  is_stamp d = true -> read_lines (d :: rest) = d :: read_lines rest.
Proof.
  intros H. destruct (stamp_no_space _ H) as [Hn _].
  rewrite !read_lines_filter. cbn [filter].
  rewrite (strip_no_space _ Hn), H. cbn [map]. now rewrite (strip_no_space _ Hn).
Qed.

Lemma read_lines_blank (rest : list string) :
  read_lines (EmptyString :: rest) = read_lines rest.
Proof. reflexivity. Qed.

Lemma lines_text_read (eol : string) (ds : list string) :
  (forall d rest, no_space d = true ->
                  splitlines_from d (eol ++ rest) = d :: splitlines rest) ->
  Forall (fun d => is_stamp d = true) ds ->
  read_dates (lines_text eol ds) = ds.
Proof.
  intros Heol. unfold read_dates, splitlines.
  induction 1 as [|d ds Hd _ IH]; [reflexivity|].
  destruct (stamp_no_space _ Hd) as [Hn _].
  cbn [lines_text]. rewrite (splitlines_from_no_space _ _ _ Hn). cbn [append].
  rewrite (Heol _ _ Hn), (read_lines_stamp _ _ Hd). f_equal. exact IH.
Qed.

Lemma read_dates_stamps (text : string) :
  Forall (fun d => is_stamp d = true) (read_dates text).
Proof.
  unfold read_dates. rewrite read_lines_filter. apply Forall_forall. intros d H.
  apply in_map_iff in H as (l & <- & H). now apply filter_In in H as [_ H].
Qed.

(** X4.  Dates written one per line, the lines ended by LF or by CR LF, are
    read back as they were written, in order and with their repetitions;
    and the file written from what [read_dates] read reads the same. *)
Theorem dates_written_are_read_back (ds : list string) (text : string) :
  (Forall (fun d => is_stamp d = true) ds ->
   read_dates (lines_text LF ds) = ds /\ read_dates (lines_text CRLF ds) = ds)
  /\ read_dates (lines_text LF (read_dates text)) = read_dates text.
Proof.
  assert (Hlf : forall d rest, no_space d = true ->
                  splitlines_from d (LF ++ rest) = d :: splitlines rest)
    by reflexivity.
  assert (Hcrlf : forall d rest, no_space d = true ->
                    splitlines_from d (CRLF ++ rest) = d :: splitlines rest)
    by reflexivity.
  split.
  - intros H. split; apply lines_text_read; auto.
  - apply lines_text_read; [exact Hlf|apply read_dates_stamps].
Qed.

(** The body of the loop skips an empty first line. *)
Lemma read_lines_cur (cur : string) (rest : list string) :
  read_lines (cur :: rest)
  = read_lines ((if is_empty cur then [] else [cur]) ++ rest).
Proof. destruct cur; reflexivity. Qed.

Lemma read_lines_cons (l : string) (rest : list string) :
  read_lines (l :: rest) = (read_lines [l] ++ read_lines rest)%list.
Proof. apply (read_lines_app [l] rest). Qed.

Lemma splitlines_join_upto (n : nat) : forall a cur b,
  length a <= n ->
  read_lines (splitlines_from cur (a ++ LF ++ b))
  = (read_lines (splitlines_from cur a) ++ read_lines (splitlines b))%list.
Proof.
  induction n as [|n IH]; intros a cur b Hn.
  - destruct a; [|cbn in Hn; lia].
    cbn [append LF]. change (splitlines_from cur (String "010" b))
      with (cur :: splitlines b).
    cbn [splitlines_from]. rewrite read_lines_cur. apply read_lines_app.
  - destruct a as [|c a].
    { apply (IH EmptyString); cbn; lia. }
    cbn [length] in Hn. cbn [append]. cbn [splitlines_from].
    destruct (is_cr c) eqn:Hcr.
    + destruct a as [|e a].
      * cbn [append LF]. change (is_lf "010") with true. cbn iota.
        rewrite (read_lines_cons cur (splitlines_from EmptyString b)).
        reflexivity.
      * cbn [length] in Hn. cbn [append]. destruct (is_lf e).
        -- rewrite read_lines_cons, (IH a) by lia.
           rewrite (read_lines_cons cur (splitlines_from EmptyString a)).
           now rewrite app_assoc.
        -- change (String e (a ++ LF ++ b)) with (String e a ++ LF ++ b).
           rewrite read_lines_cons, (IH (String e a)) by (cbn; lia).
           rewrite (read_lines_cons cur (splitlines_from EmptyString (String e a))).
           now rewrite app_assoc.
    + destruct (is_linebreak c).
      * rewrite read_lines_cons, (IH a) by lia.
        rewrite (read_lines_cons cur (splitlines_from EmptyString a)).
        now rewrite app_assoc.
      * apply IH. lia.
Qed.

(** X5.  Two list files put end to end with a line feed between them read as
    the dates of the first followed by the dates of the second, whatever
    the two texts are. *)
Theorem read_dates_of_joined_files (a b : string) :
  read_dates (a ++ LF ++ b) = (read_dates a ++ read_dates b)%list.
Proof. apply (splitlines_join_upto (length a)). lia. Qed.

End ScanListMore.

(** ** The scan list against its format *)

Module ScanListSpec.
Import Str ScanList StrFacts ScanListFacts ListFormat.

(** The classes of the reader are the characters written out. *)
Lemma isdigit_chars (c : ascii) : isdigit c = true <-> In c digit_chars.
Proof.
  split.
  - destruct c as [[] [] [] [] [] [] [] []]; intros H; try discriminate H;
      cbv; auto 12.
  - intros H. cbv in H. repeat destruct H as [<-|H]; try reflexivity. destruct H.
Qed.

Lemma isspace_chars (c : ascii) : isspace c = true <-> In c space_chars.
Proof.
  split.
  - destruct c as [[] [] [] [] [] [] [] []]; intros H; try discriminate H;
      cbv; auto 12.
  - intros H. cbv in H. repeat destruct H as [<-|H]; try reflexivity. destruct H.
Qed.

Lemma is_linebreak_chars (c : ascii) : is_linebreak c = true <-> In c break_chars.
Proof.
  split.
  - destruct c as [[] [] [] [] [] [] [] []]; intros H; try discriminate H;
      cbv; auto 12.
  - intros H. cbv in H. repeat destruct H as [<-|H]; try reflexivity. destruct H.
Qed.

Lemma not_break (c : ascii) :
  ~ In c break_chars -> is_cr c = false /\ is_linebreak c = false.
Proof.
  intros H. assert (Hl : is_linebreak c = false).
  { destruct (is_linebreak c) eqn:E; [|reflexivity].
    apply is_linebreak_chars in E. contradiction. }
  split; [|exact Hl].
  destruct (is_cr c) eqn:E; [|reflexivity].
  apply ScanListMore.cr_is_linebreak in E. congruence.
Qed.

Lemma all_space_made (w : string) : all_space w = true <-> made_of space_chars w.
Proof.
  unfold made_of. induction w as [|c w IH]; cbn [all_space list_ascii_of_string].
  - split; [constructor|reflexivity].
  - rewrite andb_true_iff, IH, isspace_chars. split.
    + intros [H1 H2]. now constructor.
    + intros H. inversion H; subst. auto.
Qed.

Lemma made_of_app (cs : list ascii) (a b : string) :
  made_of cs (a ++ b) <-> made_of cs a /\ made_of cs b.
Proof.
  unfold made_of. induction a as [|c a IH]; cbn [append list_ascii_of_string].
  - split; [intros H; split; [constructor|exact H]|now intros [_ H]].
  - split.
    + intros H. inversion H; subst. apply IH in H3 as [H3 H4]. split; [constructor|]; auto.
    + intros [H1 H2]. inversion H1; subst. constructor; [assumption|]. apply IH. auto.
Qed.

(** [digits n] reads [n] digits, and reads any [n] digits. *)
Lemma digits_made (n : nat) : forall s r,
  digits n s = Some r ->
  exists d, s = d ++ r /\ length d = n /\ made_of digit_chars d.
Proof.
  induction n as [|n IH]; cbn [digits]; intros s r H.
  - inversion H; subst. exists EmptyString. repeat split. constructor.
  - destruct s as [|c s]; [discriminate|].
    destruct (isdigit c) eqn:Hc; [|discriminate].
    destruct (IH _ _ H) as (d & -> & Hl & Hd).
    exists (String c d). cbn [append length]. repeat split; [congruence|].
    constructor; [now apply isdigit_chars|exact Hd].
Qed.

Lemma digits_of_made (n : nat) : forall d r,
  length d = n -> made_of digit_chars d -> digits n (d ++ r) = Some r.
Proof.
  induction n as [|n IH]; intros d r Hl Hd.
  - destruct d; [reflexivity|discriminate].
  - destruct d as [|c d]; [discriminate|]. cbn [append digits].
    inversion Hd; subst. apply isdigit_chars in H1. rewrite H1.
    apply IH; [now injection Hl|assumption].
Qed.

(** The matcher of the reader decides the format written out. *)
Lemma is_stamp_timestamp (s : string) : is_stamp s = true <-> timestamp s.
Proof.
  unfold is_stamp, stamp_prefix, timestamp. split.
  - destruct (digits 8 s) as [[|c r]|] eqn:H8; try discriminate.
    destruct (Ascii.eqb c "T") eqn:Hc; [|discriminate].
    apply Ascii.eqb_eq in Hc. subst c.
    destruct (digits 6 r) as [[|]|] eqn:H6; try discriminate. intros _.
    destruct (digits_made _ _ _ H8) as (date & -> & L8 & D8).
    destruct (digits_made _ _ _ H6) as (time & Hr & L6 & D6).
    rewrite append_nil_r in Hr. subst r.
    exists date, time. auto.
  - intros (date & time & -> & L8 & L6 & D8 & D6).
    rewrite (digits_of_made 8 date ("T" ++ time) L8 D8). cbn [append].
    change (Ascii.eqb "T" "T") with true. cbv iota.
    rewrite <- (append_nil_r time) at 1.
    now rewrite (digits_of_made 6 time EmptyString L6 D6).
Qed.

Lemma re_date_dated (line stamp : string) : re_date line stamp <-> dated line stamp.
Proof.
  unfold re_date, dated. split; intros (a & b & Hl & H1 & H2 & H3).
  - exists a, b. rewrite <- !all_space_made, <- is_stamp_timestamp. auto.
  - exists a, b. rewrite !all_space_made, is_stamp_timestamp. auto.
Qed.

Lemma match_date_dated (line stamp : string) :
  match_date line = Some stamp <-> dated line stamp.
Proof. rewrite match_date_regex. apply re_date_dated. Qed.

(** The loop of the reader retains the dated lines. *)
Lemma read_lines_retained (lines : list string) : retained lines (read_lines lines).
Proof.
  induction lines as [|l ls IH]; [constructor|].
  rewrite read_lines_filter in *. cbn [filter].
  destruct (is_stamp (strip l)) eqn:Hs; cbn [map].
  - constructor; [|exact IH]. apply match_date_dated.
    rewrite match_date_strip, Hs. reflexivity.
  - constructor; [|exact IH]. intros stamp Hd. apply match_date_dated in Hd.
    rewrite match_date_strip, Hs in Hd. discriminate Hd.
Qed.

Lemma dated_unique (line s1 s2 : string) : dated line s1 -> dated line s2 -> s1 = s2.
Proof. rewrite <- !match_date_dated. congruence. Qed.

Lemma retained_unique (lines : list string) : forall out1 out2,
  retained lines out1 -> retained lines out2 -> out1 = out2.
Proof.
  induction lines as [|l ls IH]; intros out1 out2 H1 H2;
    inversion H1; subst; inversion H2; subst; auto.
  - f_equal; [eapply dated_unique; eauto|auto].
  - exfalso. eapply H4; eauto.
  - exfalso. eapply H3; eauto.
Qed.

Lemma blank_not_dated (line stamp : string) : blank line -> ~ dated line stamp.
Proof.
  unfold blank. intros Hb Hd. apply all_space_made in Hb.
  apply match_date_dated in Hd. rewrite match_date_strip in Hd.
  assert (He : is_empty (strip line) = true).
  { unfold strip. clear Hd. induction line as [|c w IH]; [reflexivity|].
    cbn [all_space] in Hb. apply andb_prop in Hb as [Hc Hw].
    cbn [lstrip]. rewrite Hc. auto. }
  rewrite (is_stamp_blank _ He) in Hd. discriminate Hd.
Qed.

Lemma comment_not_dated (line stamp : string) : comment line -> ~ dated line stamp.
Proof.
  intros (before & rest & -> & Hb) Hd. apply all_space_made in Hb.
  apply match_date_dated in Hd. rewrite match_date_strip in Hd.
  assert (Hc : startswith "#" (lstrip (before ++ "#" ++ rest)) = true).
  { rewrite (lstrip_app_space _ _ Hb). reflexivity. }
  rewrite (is_stamp_comment _ Hc) in Hd. discriminate Hd.
Qed.

(** The lines of a text written line by line are these lines. *)
Lemma splitlines_from_line (line : string) : forall cur rest,
  free_of break_chars line ->
  splitlines_from cur (line ++ rest) = splitlines_from (cur ++ line) rest.
Proof.
  unfold free_of. induction line as [|c line IH]; intros cur rest H;
    cbn [append list_ascii_of_string] in *.
  - now rewrite append_nil_r.
  - inversion H; subst. destruct (not_break _ H2) as [Hcr Hlb].
    cbn [splitlines_from]. rewrite Hcr, Hlb, IH by assumption.
    now rewrite append_assoc.
Qed.

Lemma splitlines_written (lines : list (string * string)) (last : string) :
  Forall (fun le : string * string =>
            free_of break_chars (fst le) /\ In (snd le) line_ends) lines ->
  free_of break_chars last ->
  splitlines (written lines ++ last) = (map fst lines ++ unended last)%list.
Proof.
  unfold splitlines. intros Hl Hlast.
  induction lines as [|[l eol] lines IH]; cbn [written map app fst].
  - cbn [append]. rewrite <- (append_nil_r last) at 1.
    rewrite (splitlines_from_line last EmptyString EmptyString Hlast).
    cbn [append splitlines_from]. now destruct last.
  - inversion Hl; subst. cbn [fst snd] in *. destruct H1 as [Hfree Heol].
    rewrite !append_assoc.
    rewrite (splitlines_from_line l EmptyString _ Hfree). cbn [append].
    specialize (IH H2).
    cbv [line_ends] in Heol.
    repeat destruct Heol as [<-|Heol]; try destruct Heol;
      cbn [append splitlines_from]; now rewrite <- IH.
Qed.

(** C9, amended.  On a text of ASCII characters written line by line (each
    line ended by LF, by CR LF or by one of the other ASCII ends of line,
    the last line possibly without an end), [read_dates] gives, in order,
    the timestamp of every line that is a timestamp [\d{8}T\d{6}] once the
    white space around it is trimmed, and nothing for any other line: a
    blank line and a line whose first non-blank character is [#] are no
    such lines.  What is retained is determined by the lines.  (The
    function is total; decoding the file is the business of the caller:
    see [MethodB.main] and [MethodA.main].) *)
Theorem read_dates_retains_dated_lines
        (lines : list (string * string)) (last : string) :
  Forall (fun le : string * string =>
            free_of break_chars (fst le) /\ In (snd le) line_ends) lines ->
  free_of break_chars last ->
  ascii_text (written lines ++ last) ->
  retained (map fst lines ++ unended last)%list (read_dates (written lines ++ last))
  /\ (forall out, retained (map fst lines ++ unended last)%list out ->
                  out = read_dates (written lines ++ last))
  /\ (forall line stamp, blank line \/ comment line -> ~ dated line stamp)
  /\ (forall line s1 s2, dated line s1 -> dated line s2 -> s1 = s2).
Proof.
  intros Hl Hlast _.
  assert (Hr : retained (map fst lines ++ unended last)%list
                        (read_dates (written lines ++ last))).
  { unfold read_dates. rewrite (splitlines_written lines last Hl Hlast).
    apply read_lines_retained. }
  split; [exact Hr|]. split; [|split].
  - intros out Ho. exact (retained_unique _ _ _ Ho Hr).
  - intros line stamp [H|H]; [now apply blank_not_dated|now apply comment_not_dated].
  - apply dated_unique.
Qed.

(** The sample list: the two timestamps are retained, in order. *)
Lemma read_dates_retains_dated_lines_witness :
  retained (map fst sample_lines ++ unended EmptyString)%list
           (read_dates (written sample_lines ++ EmptyString))
  /\ read_dates (written sample_lines ++ EmptyString)
     = ["20250502T082851"; "20250502T145837"].
Proof.
  split; [|reflexivity].
  apply (read_dates_retains_dated_lines sample_lines EmptyString).
  - unfold sample_lines, free_of.
    repeat (apply Forall_cons || apply Forall_nil || split);
      cbv; intuition discriminate.
  - constructor.
  - unfold ascii_text. cbn [written sample_lines append list_ascii_of_string].
    repeat (apply Forall_cons || apply Forall_nil); reflexivity.
Defined.

(** C9 as stated fails for Method B: a list with a byte that is not UTF-8
    (here in a comment line, which is to be ignored) is not read at all:
    the strict decoding of line 93 raises [UnicodeDecodeError], which
    leaves [main] before any unit.  Method A, which decodes with
    [errors="ignore"], reads the timestamp of the same list and processes
    its unit. *)
Lemma undecodable_line_ends_method_B :
  MethodB.main Sample.accepting Batch.args_B (Batch.start latin1_host tt)
  = (Exc {| e_class := UnicodeDecodeError;
            e_text := "'utf-8' codec can't decode byte 0xe4 in position 3: "
                      ++ "invalid continuation byte" |},
     Batch.start latin1_host tt)
  /\ fst (MethodA.main Sample.accepting Batch.args_A (Batch.start latin1_host tt))
     = Val 0%Z.
Proof. vm_compute. split; reflexivity. Qed.

End ScanListSpec.
(** ** Names: the uid, the dataset and the exported file *)

Module NamesFacts.
Import Str FS Glob GlobFacts Names StrFacts Spec.
Import Lines.

Lemma substring_all (s : string) : substring 0 (length s) s = s.
Proof. induction s as [|c s IH]; cbn; congruence. Qed.

Lemma substring_app_suffix (a p : string) :
  substring (length a) (length p) (a ++ p) = p.
Proof. induction a as [|c a IH]; cbn; auto using substring_all. Qed.

Lemma substring_split (n : nat) : forall s,
  n <= length s -> s = substring 0 n s ++ substring n (length s - n) s.
Proof.
  induction n as [|n IH]; intros s H.
  - rewrite Nat.sub_0_r, substring_all. destruct s; reflexivity.
  - destruct s as [|c s]; cbn in H; [lia|]. cbn. f_equal. apply IH. lia.
Qed.

Lemma endswith_app (a p : string) : endswith p (a ++ p) = true.
Proof.
  unfold endswith. rewrite length_app.
  replace (length a + length p - length p) with (length a) by lia.
  rewrite substring_app_suffix, String.eqb_refl.
  apply andb_true_iff. split; [apply Nat.leb_le; lia|reflexivity].
Qed.

Lemma endswith_inv (p s : string) :
  endswith p s = true -> s = substring 0 (length s - length p) s ++ p.
Proof.
  unfold endswith. intros H. apply andb_prop in H as [H1 H2].
  apply Nat.leb_le in H1. apply String.eqb_eq in H2.
  rewrite (substring_split (length s - length p) s) at 1 by lia.
  f_equal. replace (length s - (length s - length p)) with (length p) by lia.
  exact H2.
Qed.

Lemma endswith_lf_edof (a : string) :
  endswith LF (a ++ "__edof") = false.
Proof.
  unfold endswith, LF. rewrite length_app. cbn [length].
  replace (a ++ "__edof") with ((a ++ "__edo") ++ "f")
    by (rewrite append_assoc; reflexivity).
  replace (length a + 6 - 1) with (length (a ++ "__edo"))
    by (rewrite length_app; cbn [length]; lia).
  pose proof (substring_app_suffix (a ++ "__edo") "f") as H. cbn [length] in H.
  rewrite H. apply andb_false_r.
Qed.

(** What [uid_of_name] reads: the name is the uid followed by [__edof],
    with at most a line feed after it. *)
Lemma uid_of_name_some (nm u : string) :
  uid_of_name nm = Some u ->
  (nm = u ++ "__edof" \/ nm = u ++ "__edof" ++ LF)
  /\ is_empty u = false /\ has_newline u = false.
Proof.
  unfold uid_of_name, drop_last. fold LF.
  destruct (endswith LF nm) eqn:Hl.
  - apply endswith_inv in Hl. cbn [length LF] in Hl.
    set (body := substring 0 (length nm - 1) nm) in *.
    destruct (endswith "__edof" body) eqn:He; [|discriminate].
    apply endswith_inv in He. cbn [length] in He.
    destruct (is_empty (substring 0 (length body - 6) body)) eqn:E1; [discriminate|].
    destruct (has_newline (substring 0 (length body - 6) body)) eqn:E2; [discriminate|].
    cbn [negb andb]. intros H. inversion H; subst u.
    split; [right|auto]. rewrite Hl at 1. rewrite He at 1. apply append_assoc.
  - destruct (endswith "__edof" nm) eqn:He; [|discriminate].
    apply endswith_inv in He. cbn [length] in He.
    destruct (is_empty (substring 0 (length nm - 6) nm)) eqn:E1; [discriminate|].
    destruct (has_newline (substring 0 (length nm - 6) nm)) eqn:E2; [discriminate|].
    cbn [negb andb]. intros H. inversion H; subst u. auto.
Qed.

Lemma uid_of_name_app (u : string) :
  is_empty u = false -> has_newline u = false -> uid_of_name (u ++ "__edof") = Some u.
Proof.
  intros E1 E2. unfold uid_of_name, drop_last. fold LF.
  rewrite endswith_lf_edof, endswith_app, length_app. cbn [length].
  replace (length u + 6 - 6) with (length u) by lia.
  rewrite substring_app_prefix, E1, E2. reflexivity.
Qed.

Lemma uid_of_name_lf (u : string) :
  is_empty u = false -> has_newline u = false ->
  uid_of_name (u ++ "__edof" ++ LF) = Some u.
Proof.
  intros E1 E2. unfold uid_of_name, drop_last. fold LF.
  rewrite <- (append_assoc u "__edof" LF).
  rewrite endswith_app, (length_app (u ++ "__edof") LF). cbn [length LF].
  replace (length (u ++ "__edof") + 1 - 1) with (length (u ++ "__edof")) by lia.
  rewrite substring_app_prefix.
  rewrite endswith_app, length_app. cbn [length].
  replace (length u + 6 - 6) with (length u) by lia.
  rewrite substring_app_prefix, E1, E2. reflexivity.
Qed.

(** A name that [*__edof] matched ends with [__edof]: the uid is the
    name without these six characters. *)
Lemma uid_of_matched (nm u : string) :
  fnmatch "*__edof" nm = true ->
  uid_of_name nm = Some u ->
  nm = u ++ "__edof" /\ is_empty u = false /\ has_newline u = false.
Proof.
  intros Hm Hu. destruct (uid_of_name_some _ _ Hu) as ([Hn|Hn] & E1 & E2); [auto|].
  exfalso. apply (fnmatch_star_suffix "__edof" eq_refl) in Hm as [a Ha].
  pose proof (endswith_lf_edof a) as H1. rewrite <- Ha, Hn in H1.
  rewrite <- (append_assoc u "__edof" LF), endswith_app in H1. discriminate H1.
Qed.

Lemma uid_of_name_none (base : string) :
  uid_of_name (base ++ "__edof") = None
  <-> is_empty base = true \/ has_newline base = true.
Proof.
  split.
  - intros H. destruct (is_empty base) eqn:E1; [auto|].
    destruct (has_newline base) eqn:E2; [auto|].
    rewrite (uid_of_name_app _ E1 E2) in H. discriminate H.
  - intros H. destruct (uid_of_name (base ++ "__edof")) as [u|] eqn:Hu; [|reflexivity].
    exfalso.
    assert (Hm : fnmatch "*__edof" (base ++ "__edof") = true)
      by (apply (fnmatch_star_suffix "__edof" eq_refl); eauto).
    destruct (uid_of_matched _ _ Hm Hu) as (Hn & E1 & E2).
    assert (base = u).
    { apply (f_equal (fun x => substring 0 (length x - 6) x)) in Hn.
      rewrite !length_app in Hn. cbn [length] in Hn.
      replace (length base + 6 - 6) with (length base) in Hn by lia.
      replace (length u + 6 - 6) with (length u) in Hn by lia.
      now rewrite !substring_app_prefix in Hn. }
    subst u. destruct H; congruence.
Qed.

Lemma first_uid_B_none (es : list entry) :
  MethodB.first_uid es = None
  <-> forall e, In e es -> is_dir e = true -> uid_of_name (e_name e) = None.
Proof.
  induction es as [|x es IH]; cbn [MethodB.first_uid].
  - split; [intros _ e []|reflexivity].
  - destruct (is_dir x) eqn:Hd.
    + destruct (uid_of_name (e_name x)) as [v|] eqn:Hv.
      * split; [discriminate|]. intros H. specialize (H x (or_introl eq_refl) Hd).
        congruence.
      * rewrite IH. split.
        -- intros H e [<-|Hin] He; auto.
        -- intros H e Hin He. apply H; [now right|exact He].
    + rewrite IH. split.
      * intros H e [<-|Hin] He; [congruence|auto].
      * intros H e Hin He. apply H; [now right|exact He].
Qed.

Lemma first_uid_A_none (es : list entry) :
  MethodA.first_uid es = None
  <-> forall e, In e es -> uid_of_name (e_name e) = None.
Proof.
  induction es as [|x es IH]; cbn [MethodA.first_uid].
  - split; [intros _ e []|reflexivity].
  - destruct (uid_of_name (e_name x)) as [v|] eqn:Hv.
    + split; [discriminate|]. intros H. specialize (H x (or_introl eq_refl)). congruence.
    + rewrite IH. split.
      * intros H e [<-|Hin]; auto.
      * intros H e Hin. apply H. now right.
Qed.

(** X6.  The uid of a scan folder.  The regular expression reads the uid off
    a name that is the uid followed by [__edof] (after which one line feed
    may stand, which [$] lets pass), the uid not empty and without a line
    feed.  Of a name that [*__edof] matched the uid is the name without
    its last six characters.  So Method B finds no uid exactly when every
    directory of the folder named [<base>__edof] has an empty base or a
    line feed in it; Method A looks at the regular files of that name
    too. *)
Theorem uid_of_the_matched_names (f : folder) :
  let es := glob "*__edof" f in
  (forall nm u,
      uid_of_name nm = Some u
      <-> (nm = u ++ "__edof" \/ nm = u ++ "__edof" ++ LF)
          /\ is_empty u = false /\ has_newline u = false)
  /\ (forall e u, In e es ->
        (uid_of_name (e_name e) = Some u
         <-> e_name e = u ++ "__edof" /\ is_empty u = false /\ has_newline u = false))
  /\ (MethodB.first_uid es = None
      <-> forall e base, In e f -> is_dir e = true -> e_name e = base ++ "__edof" ->
                         is_empty base = true \/ has_newline base = true)
  /\ (MethodA.first_uid es = None
      <-> forall e base, In e f -> e_name e = base ++ "__edof" ->
                         is_empty base = true \/ has_newline base = true).
Proof.
  intros es.
  assert (Hes : forall e, In e es <-> In e f /\ exists base, e_name e = base ++ "__edof").
  { intros e. unfold es, glob. rewrite filter_In.
    now rewrite (fnmatch_star_suffix "__edof" eq_refl). }
  split; [|split; [|split]].
  - intros nm u. split; [apply uid_of_name_some|].
    intros ([-> | ->] & E1 & E2); [now apply uid_of_name_app|now apply uid_of_name_lf].
  - intros e u Hin. split.
    + apply uid_of_matched. unfold es, glob in Hin. now apply filter_In in Hin as [_ Hin].
    + intros (-> & E1 & E2). now apply uid_of_name_app.
  - rewrite first_uid_B_none. split.
    + intros H e base Hin Hd Hn. apply uid_of_name_none. rewrite <- Hn.
      apply H; [|exact Hd]. apply Hes. eauto.
    + intros H e Hin Hd. apply Hes in Hin as (Hin & base & Hn).
      rewrite Hn. apply uid_of_name_none. eauto.
  - rewrite first_uid_A_none. split.
    + intros H e base Hin Hn. apply uid_of_name_none. rewrite <- Hn.
      apply H. apply Hes. eauto.
    + intros H e Hin. apply Hes in Hin as (Hin & base & Hn).
      rewrite Hn. apply uid_of_name_none. eauto.
Qed.

(** The uids of the two scripts. *)
Lemma first_uid_B_found (es : list entry) (u : string) :
  MethodB.first_uid es = Some u ->
  exists e, In e es /\ is_dir e = true /\ uid_of_name (e_name e) = Some u.
Proof.
  induction es as [|e es IH]; cbn [MethodB.first_uid]; [discriminate|].
  destruct (is_dir e) eqn:Hd.
  - destruct (uid_of_name (e_name e)) as [v|] eqn:Hv.
    + intros H. inversion H; subst v. exists e. cbn. auto.
    + intros H. destruct (IH H) as (e' & Hin & H'). exists e'. cbn. auto.
  - intros H. destruct (IH H) as (e' & Hin & H'). exists e'. cbn. auto.
Qed.

Lemma first_uid_A_some (es : list entry) (e : entry) (u : string) :
  In e es -> uid_of_name (e_name e) = Some u ->
  exists u', MethodA.first_uid es = Some u'.
Proof.
  induction es as [|x es IH]; cbn [MethodA.first_uid]; [intros []|].
  destruct (uid_of_name (e_name x)) as [v|] eqn:Hv; [eauto|].
  intros [->|Hin] Hu; [congruence|eauto].
Qed.

Lemma first_uid_same (es : list entry) :
  (forall e, In e es -> is_dir e = true) ->
  MethodA.first_uid es = MethodB.first_uid es.
Proof.
  induction es as [|e es IH]; intros H; cbn [MethodA.first_uid MethodB.first_uid];
    [reflexivity|].
  rewrite (H e) by now left.
  destruct (uid_of_name (e_name e)); [reflexivity|]. apply IH.
  intros e' He'. apply H. now right.
Qed.

(** X7.  The two scripts read the same uid off a scan folder when every entry
    that [*__edof] matches is a directory; and whenever Method B finds a
    uid, Method A finds one too (the first match, directory or not). *)
Theorem uid_of_both_scripts (d : fs) (scan_dir : path) :
  let es := glob "*__edof" (listdir d scan_dir) in
  ((forall e, In e es -> is_dir e = true) ->
   MethodA.get_uid_dataset d scan_dir = MethodB.get_uid_and_dataset d scan_dir)
  /\ (forall u, fst (MethodB.get_uid_and_dataset d scan_dir) = Some u ->
                exists u', fst (MethodA.get_uid_dataset d scan_dir) = Some u')
  /\ snd (MethodA.get_uid_dataset d scan_dir)
     = snd (MethodB.get_uid_and_dataset d scan_dir).
Proof.
  intros es. unfold MethodA.get_uid_dataset, MethodB.get_uid_and_dataset.
  cbn [fst snd]. fold es. split; [|split; [|reflexivity]].
  - intros H. now rewrite (first_uid_same es H).
  - intros u H. destruct (first_uid_B_found _ _ H) as (e & Hin & _ & Hu).
    eapply first_uid_A_some; eauto.
Qed.

Lemma glob_head_find (pat : string) (f : folder) (e : entry) (rest : list entry) :
  glob pat f = e :: rest -> find_entry (e_name e) f = Some e.
Proof.
  intros H.
  assert (Hm : fnmatch pat (e_name e) = true).
  { assert (Hin : In e (glob pat f)) by (rewrite H; now left).
    unfold glob in Hin. now apply filter_In in Hin as [_ Hin]. }
  revert H. unfold glob. induction f as [|x f IH]; cbn [filter find_entry]; [discriminate|].
  destruct (fnmatch pat (e_name x)) eqn:Hx.
  - intros H. inversion H; subst. now rewrite String.eqb_refl.
  - intros H. destruct (String.eqb (e_name x) (e_name e)) eqn:E; [|auto].
    apply String.eqb_eq in E. congruence.
Qed.

Lemma contains_false_startswith (old s : string) :
  contains old s = false -> startswith old s = false.
Proof.
  destruct s; cbn [contains]; intros H; now apply orb_false_elim in H as [H _].
Qed.

Lemma contains_false_tail (old : string) (c : ascii) (s : string) :
  contains old (String c s) = false -> contains old s = false.
Proof. cbn [contains]. intros H. now apply orb_false_elim in H as [_ H]. Qed.

(** Before the suffix [__DISC3D] of a name no other occurrence of it
    begins, when the name holds none before the suffix. *)
Lemma suffix_not_straddled (base : string) :
  contains "__DISC3D" base = false -> is_empty base = false ->
  startswith "__DISC3D" (base ++ "__DISC3D") = false.
Proof.
  intros H He. apply contains_false_startswith in H. revert H.
  destruct base as [|c1 [|c2 [|c3 [|c4 [|c5 [|c6 [|c7 [|c8 b]]]]]]]];
    [discriminate He|..];
    cbn [append startswith];
    repeat match goal with
           | |- context [Ascii.eqb ?a ?b] =>
               is_var b; destruct (Ascii.eqb a b); cbn [andb]
           end; auto.
Qed.

Lemma remove_suffix (base : string) :
  contains "__DISC3D" base = false ->
  remove_all "__DISC3D" (base ++ "__DISC3D") = base.
Proof.
  unfold remove_all. induction base as [|c base IH]; intros H; [reflexivity|].
  pose proof (suffix_not_straddled _ H eq_refl) as Hs.
  cbn [append] in *. cbn [remove_from]. rewrite Hs. f_equal.
  apply IH. now apply contains_false_tail in H.
Qed.

Lemma digits_before_first (n : nat) : forall s r,
  ScanList.digits n s = Some r ->
  exists d, s = d ++ r
            /\ forall t, before_first "__" (d ++ t) = d ++ before_first "__" t.
Proof.
  induction n as [|n IH]; cbn [ScanList.digits]; intros s r H.
  - inversion H. exists EmptyString. auto.
  - destruct s as [|c s]; [discriminate|].
    destruct (isdigit c) eqn:Hc; [|discriminate].
    destruct (IH _ _ H) as (d & -> & Hd). exists (String c d). split; [reflexivity|].
    intros t. cbn [append before_first startswith].
    assert (Hu : Ascii.eqb "_" c = false).
    { destruct (Ascii.eqb "_" c) eqn:E; [|reflexivity].
      apply Ascii.eqb_eq in E. subst c. discriminate Hc. }
    rewrite Hu. cbn [andb]. now rewrite Hd.
Qed.

Lemma stamp_before_first (dt rest : string) :
  ScanList.is_stamp dt = true -> before_first "__" (dt ++ "__" ++ rest) = dt.
Proof.
  unfold ScanList.is_stamp, ScanList.stamp_prefix. intros H.
  destruct (ScanList.digits 8 dt) as [[|c r]|] eqn:H8; try discriminate.
  destruct (Ascii.eqb c "T") eqn:Hc; [|discriminate].
  apply Ascii.eqb_eq in Hc. subst c.
  destruct (ScanList.digits 6 r) as [[|]|] eqn:H6; try discriminate.
  destruct (digits_before_first _ _ _ H8) as (d8 & -> & Hd8).
  destruct (digits_before_first _ _ _ H6) as (d6 & -> & Hd6).
  rewrite append_assoc, Hd8. cbn [append before_first startswith].
  change (Ascii.eqb "_" "T") with false. cbn [andb].
  rewrite !append_nil_r, Hd6. cbn [before_first startswith].
  change (Ascii.eqb "_" "_") with true. cbn [andb]. now rewrite append_nil_r.
Qed.

(** X8.  The names a unit gets from the name of its folder.  For a folder
    named [<stamp>__<rest>__DISC3D], with no other [__DISC3D] in the name,
    the dataset of both scripts is [<stamp>__<rest>] and the file that
    Method B exports is named
    [<stamp>__<rest>_Calibrated_Cameras_<uid>_<stamp>.xml]. *)
Theorem names_from_the_folder_name
        (d : fs) (scan_dir : path) (dt rest uid : string) :
  name scan_dir = (dt ++ "__" ++ rest) ++ "__DISC3D" ->
  ScanList.is_stamp dt = true ->
  contains "__DISC3D" (dt ++ "__" ++ rest) = false ->
  snd (MethodB.get_uid_and_dataset d scan_dir) = dt ++ "__" ++ rest
  /\ snd (MethodA.get_uid_dataset d scan_dir) = dt ++ "__" ++ rest
  /\ cams_xml_name uid (snd (MethodB.get_uid_and_dataset d scan_dir))
     = (dt ++ "__" ++ rest) ++ "_Calibrated_Cameras_" ++ uid ++ "_" ++ dt ++ ".xml".
Proof.
  intros Hn Hs Hc. unfold MethodB.get_uid_and_dataset, MethodA.get_uid_dataset.
  cbn [snd]. rewrite Hn, (remove_suffix _ Hc). repeat split.
  unfold cams_xml_name. now rewrite (stamp_before_first _ _ Hs).
Qed.

Lemma names_from_the_folder_name_witness :
  snd (MethodB.get_uid_and_dataset
         (Sample.host Sample.list_text_1 [(Sample.scan_dir, Some Sample.folder_B)])
         Sample.scan_dir)
  = "20250502T082851" ++ "__" ++ "067870__Carabus_violaceus"
  /\ snd (MethodA.get_uid_dataset
            (Sample.host Sample.list_text_1 [(Sample.scan_dir, Some Sample.folder_B)])
            Sample.scan_dir)
     = "20250502T082851" ++ "__" ++ "067870__Carabus_violaceus"
  /\ cams_xml_name "067870"
       (snd (MethodB.get_uid_and_dataset
               (Sample.host Sample.list_text_1 [(Sample.scan_dir, Some Sample.folder_B)])
               Sample.scan_dir))
     = ("20250502T082851" ++ "__" ++ "067870__Carabus_violaceus")
       ++ "_Calibrated_Cameras_" ++ "067870" ++ "_" ++ "20250502T082851" ++ ".xml".
Proof.
  apply (names_from_the_folder_name
           (Sample.host Sample.list_text_1 [(Sample.scan_dir, Some Sample.folder_B)])
           Sample.scan_dir "20250502T082851" "067870__Carabus_violaceus" "067870");
    reflexivity.
Defined.

Lemma fnmatch_star_here (pat s : string) :
  fnmatch pat s = true -> fnmatch (String "*" pat) s = true.
Proof. intros H. rewrite fnmatch_star, H. reflexivity. Qed.

Lemma fnmatch_star_skip (pat a s : string) :
  fnmatch (String "*" pat) s = true -> fnmatch (String "*" pat) (a ++ s) = true.
Proof.
  intros H. induction a as [|c a IH]; [exact H|].
  cbn [append]. rewrite fnmatch_star, IH. apply orb_true_r.
Qed.

(** X9.  The file that Method B exports is one that the default pattern of
    Method A matches, whatever the uid and the dataset are; so in a
    [models/] folder that holds it, Method A with its default pattern finds
    a calibrated-camera file. *)
Theorem exported_file_matches_default_glob (uid ds : string) (names : list string) :
  fnmatch default_xml_glob (cams_xml_name uid ds) = true
  /\ (In (cams_xml_name uid ds) names ->
      exists x, MethodA.first_xml default_xml_glob names = Some x
                /\ fnmatch default_xml_glob x = true).
Proof.
  assert (Hm : fnmatch default_xml_glob (cams_xml_name uid ds) = true).
  { unfold default_xml_glob, cams_xml_name.
    apply fnmatch_star_skip, fnmatch_star_here.
    cbn [append fnmatch Ascii.eqb Bool.eqb orb andb].
    change (fnmatch "*.xml" (uid ++ "_" ++ before_first "__" ds ++ ".xml") = true).
    apply (fnmatch_star_suffix ".xml" eq_refl).
    exists (uid ++ "_" ++ before_first "__" ds). now rewrite !append_assoc. }
  split; [exact Hm|]. intros Hin. unfold MethodA.first_xml.
  destruct (sorted (filter (fnmatch default_xml_glob) names)) as [|x l] eqn:Hs.
  - exfalso.
    assert (Hf : In (cams_xml_name uid ds) (filter (fnmatch default_xml_glob) names))
      by (apply filter_In; auto).
    apply (proj2 (SortFacts.sorted_in _ _)) in Hf. rewrite Hs in Hf. destruct Hf.
  - exists x. split; [reflexivity|].
    assert (Hx : In x (sorted (filter (fnmatch default_xml_glob) names)))
      by (rewrite Hs; now left).
    apply (proj1 (SortFacts.sorted_in _ _)) in Hx.
    now apply filter_In in Hx as [_ Hx].
Qed.

Section Engine.
Context {E : Type}.
Variable respond : E -> call -> reply * E.

(** X10.  Method A takes the uid from the first entry that [*__edof] matches
    even when that entry is a regular file: the unit is then rejected for
    having no PNG, the folder left as it was, whatever else the folder
    holds.  Method B passes over the file and looks at the entries after
    it. *)
Theorem method_A_takes_a_file_for_the_image_folder
        (scan_dir : path) (crs : pyval) (gpu : option Z)
        (xml_glob : string) (kl tl : Z) (kk kd km : bool) (w : world E)
        (e : entry) (rest : list entry) (u : string) :
  glob "*__edof" (listdir (w_fs w) scan_dir) = e :: rest ->
  is_dir e = false ->
  uid_of_name (e_name e) = Some u ->
  MethodA.process_scan respond scan_dir crs gpu xml_glob kl tl kk kd km w
  = (Val ("fail", "No PNGs in " ++ path_str (child scan_dir (u ++ "__edof"))), w)
  /\ fst (MethodB.get_uid_and_dataset (w_fs w) scan_dir) = MethodB.first_uid rest.
Proof.
  intros Hg Hd Hu. split.
  - unfold MethodA.process_scan, MethodA.get_uid_dataset. cbn [bind read_fs].
    rewrite Hg. cbn [MethodA.first_uid]. rewrite Hu.
    assert (Hm : fnmatch "*__edof" (e_name e) = true).
    { assert (Hin : In e (glob "*__edof" (listdir (w_fs w) scan_dir)))
        by (rewrite Hg; now left).
      unfold glob in Hin. now apply filter_In in Hin as [_ Hin]. }
    destruct (uid_of_matched _ _ Hm Hu) as (Hn & _).
    assert (Hi : glob_in (u ++ "__edof") "*.png" (listdir (w_fs w) scan_dir) = []).
    { unfold glob_in. rewrite <- Hn, (glob_head_find _ _ _ _ Hg).
      unfold is_dir in Hd. destruct e as [n [c|]]; cbn in *; [discriminate|reflexivity]. }
    rewrite Hi. reflexivity.
  - unfold MethodB.get_uid_and_dataset. cbn [fst]. rewrite Hg.
    cbn [MethodB.first_uid]. now rewrite Hd.
Qed.

End Engine.

Lemma method_A_takes_a_file_for_the_image_folder_witness :
  MethodA.process_scan Sample.accepting Sample.scan_dir PNone None
    default_xml_glob 250000 250000 false false false
    (Batch.start (Sample.host Sample.list_text_1
                    [(Sample.scan_dir, Some folder_with_file)]) tt)
  = (Val ("fail", "No PNGs in " ++ path_str (child Sample.scan_dir ("old" ++ "__edof"))),
     Batch.start (Sample.host Sample.list_text_1
                    [(Sample.scan_dir, Some folder_with_file)]) tt)
  /\ fst (MethodB.get_uid_and_dataset
            (w_fs (Batch.start (Sample.host Sample.list_text_1
                                  [(Sample.scan_dir, Some folder_with_file)]) tt))
            Sample.scan_dir)
     = MethodB.first_uid [Sample.edof].
Proof.
  apply (method_A_takes_a_file_for_the_image_folder
           Sample.accepting Sample.scan_dir PNone None
           default_xml_glob 250000 250000 false false false
           (Batch.start (Sample.host Sample.list_text_1
                           [(Sample.scan_dir, Some folder_with_file)]) tt)
           {| e_name := "old__edof"; e_children := None |}
           [Sample.edof] "old"); reflexivity.
Defined.

End NamesFacts.
(** ** Selecting the GPU *)

(** ** Selecting the GPU: [enable_gpu_index] and lines 382-387 of Method B *)

Module GpuFacts.
Import Str FS Batch Exec Ending Log.

Section Engine.
Context {E : Type}.
Variable respond : E -> call -> reply * E.

(** The world after [evs] was logged and the engine went to [s]. *)
Local Abbreviation after w s evs :=
  {| w_fs := w_fs w; w_eng := s; w_log := app (w_log w) evs |}.

Ltac gpu_leaf :=
  rewrite <- ?app_assoc; cbn [app];
  eexists _, _; (split; [reflexivity|]).

(** X11.  Selecting the GPU never fails a run.  Without [--gpu] nothing
    happens.  With a negative index the engine is not touched (Method A
    prints a warning, Method B is silent).  Otherwise the first interaction
    asks for the mask [2 ^ index], the one bit of that device; whatever the
    engine answers, the exception is swallowed, and Method A prints exactly
    one line, last, that starts with [[GPU]] while Method B prints
    nothing. *)
Theorem gpu_selection_never_fails (idx : option Z) (w : world E) :
  (exists s evs,
      MethodA.enable_gpu_index respond idx w = (Val tt, after w s evs)
      /\ match idx with
         | None => evs = [] /\ s = w_eng w
         | Some i =>
             if (i <? 0)%Z
             then evs = [Printed Stdout "[GPU] warn: negative shift count"]
                  /\ s = w_eng w
             else exists r line,
                 hd_error evs = Some (Ev (SetAttr App "gpu_mask" (PInt (2 ^ i))) r)
                 /\ prints evs = [(Stdout, line)]
                 /\ final evs = Some (Printed Stdout line)
                 /\ startswith "[GPU] " line = true
         end)
  /\ (exists s evs,
         MethodB.pin_gpu respond idx w = (Val tt, after w s evs)
         /\ prints evs = []
         /\ match idx with
            | None => evs = [] /\ s = w_eng w
            | Some i =>
                if (i <? 0)%Z
                then evs = [] /\ s = w_eng w
                else exists r,
                    hd_error evs = Some (Ev (SetAttr App "gpu_mask" (PInt (2 ^ i))) r)
            end).
Proof.
  split.
  - destruct idx as [i|]; cbn [MethodA.enable_gpu_index].
    + rewrite <- Z.shiftl_1_l. destruct (i <? 0)%Z eqn:Hi.
      * exists (w_eng w), [Printed Stdout "[GPU] warn: negative shift count"].
        split; [reflexivity|auto].
      * script_unfold. repeat exec_split.
        all: gpu_leaf.
        all: eexists _, _.
        all: (split; [reflexivity|]).
        all: (split; [reflexivity|]).
        all: (split; [reflexivity|]).
        all: reflexivity.
    + exists (w_eng w), []. cbn [app]. rewrite app_nil_r. destruct w; auto.
  - destruct idx as [i|]; cbn [MethodB.pin_gpu].
    + rewrite <- Z.shiftl_1_l. destruct (i <? 0)%Z eqn:Hi.
      * exists (w_eng w), []. rewrite app_nil_r. destruct w; cbn; auto.
      * script_unfold. repeat exec_split.
        all: gpu_leaf.
        all: (split; [reflexivity|]).
        all: eexists; reflexivity.
    + exists (w_eng w), []. rewrite app_nil_r. destruct w; cbn; auto.
Qed.

End Engine.
End GpuFacts.

(** ** Thinning the project: [thin_project] *)

Module ThinFacts.
Import Str FS Batch Exec.

Lemma nil_split {A} (pre : list A) (y : A) (post : list A) :
  [] = (pre ++ y :: post)%list -> False.
Proof. destruct pre; discriminate. Qed.

Lemma cons_split {A} (x : A) (l pre : list A) (y : A) (post : list A) :
  x :: l = (pre ++ y :: post)%list ->
  (pre = [] /\ x = y /\ l = post)
  \/ exists pre', pre = x :: pre' /\ l = (pre' ++ y :: post)%list.
Proof.
  destruct pre as [|p pre]; cbn [app]; intros H; injection H as -> ->.
  - now left.
  - right. now exists pre.
Qed.

(** Every way to find an event in a list that is written out. *)
Ltac split_at H :=
  repeat lazymatch type of H with
         | [] = (_ ++ _ :: _)%list => exfalso; exact (nil_split _ _ _ H)
         | _ :: _ = (_ ++ _ :: _)%list =>
             apply cons_split in H;
             destruct H as [(-> & H & ?) | (? & -> & H)];
             [ first [ discriminate H | injection H as <-; subst ] | ]
         end.

Section Engine.
Context {E : Type}.
Variable respond : E -> call -> reply * E.

(** X12.  Thinning with both [--keep-depth] and [--keep-matches] does nothing
    at all.  In general, the only exceptions that leave [thin_project] are
    one that [clearDepthMaps] raised and that is no [AttributeError], and
    one raised while probing for [removeMatches]; what [removeMatches] or
    the assignment [depth_maps = None] raise is swallowed.  The assignment
    is made only after [clearDepthMaps] raised [AttributeError], and
    [removeMatches] is called only after the probe answered yes. *)
Theorem thinning_is_best_effort (clear_depth clear_matches : bool) (w : world E) :
  MethodA.thin_project respond false false w = (Val tt, w)
  /\ exists s evs,
      snd (MethodA.thin_project respond clear_depth clear_matches w)
      = {| w_fs := w_fs w; w_eng := s; w_log := app (w_log w) evs |}
      /\ match fst (MethodA.thin_project respond clear_depth clear_matches w) with
         | Val _ => True
         | Exc e =>
             (evs = [Ev (Invoke Chunk "clearDepthMaps" [] []) (Threw e)]
              /\ is_AttributeError e = false)
             \/ exists pre, evs = (pre ++ [Ev (HasAttr Chunk "removeMatches") (Threw e)])%list
         end
      /\ (forall pre r post,
            evs = (pre ++ Ev (SetAttr Chunk "depth_maps" PNone) r :: post)%list ->
            exists e, pre = [Ev (Invoke Chunk "clearDepthMaps" [] []) (Threw e)]
                      /\ is_AttributeError e = true)
      /\ (forall pre r post,
            evs = (pre ++ Ev (Invoke Chunk "removeMatches" [] []) r :: post)%list ->
            exists pre' v, pre = (pre' ++ [Ev (HasAttr Chunk "removeMatches") (Returned v)])%list
                           /\ truthy v = true).
Proof.
  split; [reflexivity|].
  unfold MethodA.thin_project.
  destruct clear_depth, clear_matches.
  4:{ exists (w_eng w), []. rewrite app_nil_r.
      split; [destruct w; reflexivity|].
      split; [exact I|].
      split; intros pre r post H; destruct (nil_split _ _ _ H). }
  all: script_unfold; repeat exec_split;
    cbn [fst snd]; rewrite <- ?app_assoc; cbn [app].
  all: eexists _, _; (split; [reflexivity|]).
  all: split;
    [ first [ exact I
            | left; split; [reflexivity|assumption]
            | right; eexists []; reflexivity
            | right; eexists [_]; reflexivity
            | right; eexists [_; _]; reflexivity ] | ].
  all: split; intros pre r post H; split_at H.
  all: first [ eexists; split; [reflexivity|assumption]
             | eexists [], _; split; [reflexivity|assumption]
             | eexists [_], _; split; [reflexivity|assumption]
             | eexists [_; _], _; split; [reflexivity|assumption] ].
Qed.

End Engine.
End ThinFacts.

(** ** Following a script with a monitor whose state depends on the answers *)

Module Follow.
Import Monitor MonitorFacts Exec.

(** A statement taken as a whole: every path through it, the state of the
    monitor computed by [compute] and what is asked at the end of a path
    settled by [close]. *)
Ltac block_with compute close :=
  let w := fresh "w" in let Hw := fresh "Hw" in
  intros w Hw; script_unfold; cbn [truthy negb];
  repeat exec_split;
  (cbv beta iota zeta; eexists; split;
   [ unfold at_state; cbn [w_log]; rewrite ?run_snoc, Hw; compute; reflexivity
   | cbv beta; first [ exact I | reflexivity | close ] ]).

(** What kind of statement comes first. *)
Ltac silent m :=
  lazymatch m with
  | read_fs => idtac
  | write_fs _ => idtac
  | ret _ => idtac
  end.

Ltac one_call m :=
  lazymatch m with
  | engine _ _ => idtac
  | invoke _ _ _ _ _ => idtac
  | getattr _ _ _ => idtac
  end.

(** A script, statement by statement.  After a statement that logs
    nothing the state of the monitor is the same; after a single call whose
    value is bound it is a function of that value; after another statement
    what [keep] says of the state is kept, if that holds, and else the state
    is forgotten. *)
Ltac follow_using compute close keep known :=
  lazymatch goal with
  | |- Monitor.moves _ _ _ (bind ?m _) _ _ =>
      first
        [ silent m; eapply moves_seq;
          [ solve [follow_using compute close keep known] | intros ?a; cbv beta ]
        | one_call m;
          let f := open_constr:(_) in
          eapply moves_bind with (R := fun a q' => q' = f a);
          [ solve [follow_using compute close keep known] | intros ?a ?q ->; cbv beta ]
        | keep;
          [ solve [follow_using compute close keep known] | intros ?a ?q ?H; cbv beta ]
        | eapply moves_bind with (R := fun _ _ => True);
          [ solve [follow_using compute close keep known] | intros ?a ?q _; cbv beta ] ];
      follow_using compute close keep known
  | |- Monitor.moves _ _ _ (catch _ _) _ _ => block_with compute close
  | |- Monitor.moves _ _ _ (engine _ _) _ _ => block_with compute close
  | |- Monitor.moves _ _ _ (ret _) _ _ => block_with compute close
  | |- Monitor.moves _ _ _ (raise _) _ _ => block_with compute close
  | |- Monitor.moves _ _ _ (print _ _) _ _ => block_with compute close
  | |- Monitor.moves _ _ _ read_fs _ _ => block_with compute close
  | |- Monitor.moves _ _ _ (write_fs _) _ _ => block_with compute close
  | |- Monitor.moves _ _ _ (if ?b then _ else _) _ _ =>
      first [ progress cbn [negb]; follow_using compute close keep known
            | destruct b eqn:?; follow_using compute close keep known ]
  | |- Monitor.moves _ _ _ (match ?x with _ => _ end) _ _ =>
      destruct x eqn:?; follow_using compute close keep known
  | |- Monitor.moves _ _ _ (let (_, _) := ?x in _) _ _ =>
      destruct x eqn:?; follow_using compute close keep known
  | |- Monitor.moves _ _ _ ?m _ _ =>
      first [ known
            | let h := head_of m in unfold h; follow_using compute close keep known ]
  end.

End Follow.

(** ** How a unit ends *)

Module EndingFacts.
Import Str FS Sig Monitor MonitorFacts Exec Follow Batch Spec Names Ending.

Lemma final_snoc (log : list event) (ev : event) : final (log ++ [ev]) = Some ev.
Proof. unfold final. now rewrite rev_unit. Qed.

Lemma run_final (log : list event) : run step None log = Some (final log).
Proof.
  induction log as [|ev log IH] using rev_ind; [reflexivity|].
  now rewrite run_snoc, IH, final_snoc.
Qed.

Ltac last_event := cbn [feed step].

Ltac settle :=
  solve [ repeat first [ reflexivity | assumption | exact I | split | eexists ] ].

Ltac pick := first [ settle | left; pick | right; pick ].

Ltac close_end :=
  cbn [fst snd];
  first [ (let G := fresh in intros G; discriminate G)
        | intros _; settle
        | unfold passed_on, no_sensor_left, not_iterable, models_is_a_file,
                 empty_pattern, saved_last, FitMask.read_sensors in *;
          pick ].

Ltac keep_saved := eapply moves_bind with (R := fun _ q' => saved_last q').

Section Engine.
Context {E : Type}.
Variable respond : E -> call -> reply * E.

Lemma run_pipeline_B_ends (scan_dir : path) (uid ds : string) (imgs : list string)
      (campos : string) (f_px : Q) (crs : pyval) :
  moves (E:=E) step None None
        (MethodB.run_pipeline respond scan_dir uid ds imgs campos f_px crs)
        (fun r q' => fst r = "ok" ->
                     saved_last q'
                     /\ snd r = "Saved " ++ path_str (child (child scan_dir "models") (ds ++ ".psz"))
                                ++ "  cams_xml="
                                ++ path_str (child (child scan_dir "models")
                                               (Names.cams_xml_name uid ds)))
        (fun e q' => passed_on e q' \/ no_sensor_left e q' \/ models_is_a_file e q').
Proof.
  unfold MethodB.run_pipeline.
  follow_using last_event close_end keep_saved fail.
Qed.

Lemma lock_from_ends (n : nat) :
  forall i q, moves (E:=E) step None q (MethodA.lock_from respond i n)
                    (fun _ _ => True) (fun e q' => passed_on e q').
Proof.
  induction n as [|n IH]; intros i q; cbn [MethodA.lock_from].
  - follow_using last_event close_end keep_saved fail.
  - follow_using last_event close_end keep_saved ltac:(apply IH).
Qed.

Lemma run_pipeline_A_ends (scan_dir : path) (uid ds : string) (imgs : list string)
      (xml : string) (crs : pyval) (gpu : option Z) (kl tl : Z) (kk kd km : bool) :
  moves (E:=E) step None None
        (MethodA.run_pipeline respond scan_dir uid ds imgs xml crs gpu kl tl kk kd km)
        (fun r q' => fst r = "ok" ->
                     saved_last q'
                     /\ snd r = "Saved " ++ path_str (child (child scan_dir "models") (ds ++ ".psz"))
                                ++ "  using XML=" ++ xml)
        (fun e q' => passed_on e q' \/ not_iterable e q').
Proof.
  unfold MethodA.run_pipeline.
  follow_using last_event close_end keep_saved
    ltac:(eapply moves_weaken;
          [ apply lock_from_ends | intros ? ? _; exact I | intros ? ? ?; now left ]).
Qed.

(** From an empty log, what the monitor says at the end is said of the
    last thing logged. *)
Lemma ends_with {A} (m : M E A) (Qv : A -> option event -> Prop)
      (Qe : exn -> option event -> Prop) (w : world E) :
  w_log w = [] ->
  moves step None None m Qv Qe ->
  match m w with
  | (Val a, w') => Qv a (final (w_log w'))
  | (Exc e, w') => Qe e (final (w_log w'))
  end.
Proof.
  intros Hl Hm. specialize (Hm w). unfold at_state in Hm. rewrite Hl in Hm.
  specialize (Hm eq_refl). destruct (m w) as [[a|e] w']; destruct Hm as (q & Hq & HQ);
    rewrite run_final in Hq; now inversion Hq; subst.
Qed.

(** From an empty log, the stages that the monitor of the steps counts
    when the script returns. *)
Lemma stages_with {A} (p : Steps.plan) (m : M E A) (Qv : A -> nat * bool -> Prop)
      (w : world E) :
  w_log w = [] ->
  moves (Steps.step p) (0, false) (0, false) m Qv (fun _ _ => True) ->
  match m w with
  | (Val a, w') => exists q, run (Steps.step p) (0, false) (w_log w') = Some q /\ Qv a q
  | (Exc e, w') => True
  end.
Proof.
  intros Hl Hm. specialize (Hm w). unfold at_state in Hm. rewrite Hl in Hm.
  specialize (Hm eq_refl). destruct (m w) as [[a|e] w']; [|exact I].
  destruct Hm as (q & Hq & HQ). eauto.
Qed.

(** The stages done when the scripts return [ok]. *)
Lemma run_pipeline_B_done (scan_dir : path) (uid ds : string) (imgs : list string)
      (campos : string) (f_px : Q) (crs : pyval) :
  moves (E:=E) (Steps.step Steps.plan_B) (0, false) (0, false)
        (MethodB.run_pipeline respond scan_dir uid ds imgs campos f_px crs)
        (fun r q' => fst r = "ok" -> q' = (9, false)) (fun _ _ => True).
Proof.
  unfold MethodB.run_pipeline. exec.
  intros G. discriminate G.
Qed.

Lemma lock_from_done (n : nat) :
  forall i, moves (E:=E) (Steps.step Steps.plan_A) (0, false) (2, false)
                  (MethodA.lock_from respond i n)
                  (fun _ q' => q' = (2, false)) (fun _ _ => True).
Proof.
  induction n as [|n IH]; intros i; cbn [MethodA.lock_from].
  - exec.
  - exec_using ltac:(apply IH).
Qed.

Lemma run_pipeline_A_done (scan_dir : path) (uid ds : string) (imgs : list string)
      (xml : string) (crs : pyval) (gpu : option Z) (kl tl : Z) (kk kd km : bool) :
  moves (E:=E) (Steps.step Steps.plan_A) (0, false) (0, false)
        (MethodA.run_pipeline respond scan_dir uid ds imgs xml crs gpu kl tl kk kd km)
        (fun r q' => fst r = "ok" -> q' = (6, false)) (fun _ _ => True).
Proof.
  unfold MethodA.run_pipeline.
  do 8 (eapply moves_seq; [exec | intros ?; cbv beta]).
  eapply moves_bind
    with (R := fun r q' => q' = (match r with Some _ => 1 | None => 2 end, false)).
  - unfold MethodA.import_cameras. exec_block.
  - intros [reason|] q' ->.
    + exec. intros G. discriminate G.
    + exec_using ltac:(apply lock_from_done).
Qed.

(** The step at place [j] of the chain is the call of one method. *)
Ltac step_done Hrun j :=
  let c := fresh "c" in let v := fresh "v" in
  let Hin := fresh "Hin" in let Hst := fresh "Hst" in
  destruct (StepsFacts.run_done _ _ _ _ Hrun j) as (c & v & Hin & Hst & _); [lia|];
  exists c, v; split; [exact Hin|];
  revert Hst; generalize (signature c); StepsFacts.by_method.

Lemma sensor_sig (s : call_sig) :
  Steps.stage Steps.plan_B s = 2 ->
  Steps.completes Steps.plan_B s = true ->
  exists i, s = SSet (Sensor i) "fixed_calibration".
Proof.
  destruct s as [o m n names|o a|o a|o a]; cbn [Steps.stage Steps.plan_B Steps.stage_B].
  - unfold Steps.chunk_stage. destruct o; try discriminate.
    destruct (find _ _) as [p|] eqn:Hf; [|discriminate].
    apply find_some in Hf as [Hin _]. intros Hp.
    cbn in Hin. repeat destruct Hin as [<-|Hin]; try discriminate Hp. destruct Hin.
  - discriminate.
  - destruct o; try discriminate. cbn. intros _ Ha. apply String.eqb_eq in Ha.
    subst. eauto.
  - discriminate.
Qed.

Lemma sensor_step (c : call) :
  Steps.stage Steps.plan_B (signature c) = 2 ->
  Steps.completes Steps.plan_B (signature c) = true ->
  exists i x, c = SetAttr (Sensor i) "fixed_calibration" x.
Proof.
  intros H1 H2. destruct (sensor_sig _ H1 H2) as [i Hi].
  destruct c; try discriminate Hi. injection Hi as -> ->. eauto.
Qed.

(** X13.  A unit that Method B reports as [ok] went through the whole chain:
    every engine method of the chain returned at least once, an assignment
    to [fixed_calibration] of a sensor returned, the last thing logged is a [doc.save()]
    that returned, and the message names the project file and the exported
    camera file of the unit. *)
Theorem ok_of_method_B_means_all_done
        (scan_dir : path) (f_px : Q) (crs : pyval) (d : fs) (s : E) (msg : string) :
  fst (MethodB.process_scan respond scan_dir f_px crs (start d s)) = Val ("ok", msg) ->
  let log := w_log (snd (MethodB.process_scan respond scan_dir f_px crs (start d s))) in
  Forall (returned log) steps_B
  /\ calibration_set log
  /\ saved_last (final log)
  /\ exists uid,
      has_edof_folder (listdir d scan_dir) uid
      /\ msg = "Saved " ++ Steps.project_file scan_dir ++ "  cams_xml="
               ++ path_str (child (child scan_dir "models")
                              (cams_xml_name uid (remove_all "__DISC3D" (name scan_dir)))).
Proof.
  destruct (Validation.process_scan_B_resolution respond scan_dir f_px crs (start d s))
    as [(uid & campos & Hf & _ & _ & Heq)|(reason & _ & Heq)];
    rewrite Heq; [|discriminate].
  set (ds := remove_all "__DISC3D" (name scan_dir)) in *.
  set (imgs := edof_images (listdir (w_fs (start d s)) scan_dir) uid) in *.
  set (cp := path_str (child scan_dir (e_name campos))) in *.
  pose proof (ends_with _ _ _ (start d s) eq_refl
                (run_pipeline_B_ends scan_dir uid ds imgs cp f_px crs)) as He.
  pose proof (stages_with _ _ _ (start d s) eq_refl
                (run_pipeline_B_done scan_dir uid ds imgs cp f_px crs)) as Hs.
  destruct (MethodB.run_pipeline respond scan_dir uid ds imgs cp f_px crs (start d s))
    as [[r|e] w']; [|discriminate].
  cbn [fst snd]. intros Hr. injection Hr as ->.
  destruct (He eq_refl) as [Hlast Hmsg]. destruct Hs as (q & Hrun & Hq).
  rewrite (Hq eq_refl) in Hrun. cbn [snd] in Hmsg.
  split; [|split; [|split; [exact Hlast|exists uid; split; [exact Hf|exact Hmsg]]]].
  - unfold steps_B.
    repeat constructor;
      [ step_done Hrun 1 | step_done Hrun 3 | step_done Hrun 4 | step_done Hrun 5
      | step_done Hrun 6 | step_done Hrun 7 | step_done Hrun 8 | step_done Hrun 9 ].
  - destruct (StepsFacts.run_done _ _ _ _ Hrun 2) as (c & v & Hin & Hst & Hc); [lia|].
    destruct (sensor_step c Hst Hc) as (i & x & ->). exists i, x, v. exact Hin.
Qed.

(** X14.  The same for Method A, whose chain has no optimization and no
    export: every engine method of its chain returned at least once, the
    last interaction is a [doc.save()] that returned, and the message names
    the project file and the camera file that was imported; for a pattern
    of the fragment [plain] (literal characters, [*] and [?]) that file is
    the first match of the pattern in [models/]. *)
Theorem ok_of_method_A_means_all_done
        (scan_dir : path) (crs : pyval) (gpu : option Z) (xml_glob : string)
        (kl tl : Z) (kk kd km : bool) (d : fs) (s : E) (msg : string) :
  fst (MethodA.process_scan respond scan_dir crs gpu xml_glob kl tl kk kd km (start d s))
  = Val ("ok", msg) ->
  let log := w_log (snd (MethodA.process_scan respond scan_dir crs gpu xml_glob
                           kl tl kk kd km (start d s))) in
  Forall (returned log) steps_A
  /\ saved_last (final log)
  /\ exists xml,
      msg = "Saved " ++ Steps.project_file scan_dir ++ "  using XML=" ++ xml
      /\ (plain xml_glob = true ->
          MethodA.first_xml xml_glob (models_names (listdir d scan_dir)) = Some xml).
Proof.
  destruct (Validation.process_scan_A_resolution respond scan_dir crs gpu xml_glob
              kl tl kk kd km (start d s))
    as [(uid & xml & w1 & Hf & _ & Hmk & _ & Hx & [_ Hlog] & Heq)
       |[(reason & w1 & _ & _ & Heq)|(e & w1 & _ & Heq & _)]];
    rewrite Heq; [|discriminate|discriminate].
  assert (Hne : listdir (w_fs (start d s)) scan_dir <> []).
  { destruct Hf as [names Hn]. intros H0. rewrite H0 in Hn. discriminate Hn. }
  rewrite (XmlSelection.models_names_mkdir scan_dir _ _ Hne Hmk) in Hx.
  set (ds := remove_all "__DISC3D" (name scan_dir)) in *.
  set (imgs := edof_images (listdir (w_fs (start d s)) scan_dir) uid) in *.
  pose proof (ends_with _ _ _ w1 Hlog
                (run_pipeline_A_ends scan_dir uid ds imgs xml crs gpu kl tl kk kd km)) as He.
  pose proof (stages_with _ _ _ w1 Hlog
                (run_pipeline_A_done scan_dir uid ds imgs xml crs gpu kl tl kk kd km)) as Hs.
  destruct (MethodA.run_pipeline respond scan_dir uid ds imgs xml crs gpu kl tl kk kd km w1)
    as [[r|e] w']; [|discriminate].
  cbn [fst snd]. intros Hr. injection Hr as ->.
  destruct (He eq_refl) as [Hlast Hmsg]. destruct Hs as (q & Hrun & Hq).
  rewrite (Hq eq_refl) in Hrun. cbn [snd] in Hmsg.
  split; [|split; [exact Hlast|exists xml; split; [exact Hmsg|intros _; exact Hx]]].
  unfold steps_A.
  repeat constructor;
    [ step_done Hrun 1 | step_done Hrun 2 | step_done Hrun 3 | step_done Hrun 4
    | step_done Hrun 5 | step_done Hrun 6 ].
Qed.


End Engine.

Lemma ok_of_method_B_means_all_done_witness :
  Forall (returned
            (w_log (snd (MethodB.process_scan Sample.accepting Sample.scan_dir
                           (9600 # 1)%Q PNone
                           (start (Sample.host Sample.list_text_1
                                     [(Sample.scan_dir, Some Sample.folder_B)]) tt)))))
         steps_B.
Proof.
  refine (proj1 (ok_of_method_B_means_all_done Sample.accepting Sample.scan_dir
                   (9600 # 1)%Q PNone
                   (Sample.host Sample.list_text_1
                      [(Sample.scan_dir, Some Sample.folder_B)]) tt _ _)).
  lazy. reflexivity.
Defined.

Lemma ok_of_method_A_means_all_done_witness :
  Forall (returned
            (w_log (snd (MethodA.process_scan Sample.accepting Sample.scan_dir PNone None
                           "*_Calibrated_Cameras_*.xml" 250000 250000 false false false
                           (start (Sample.host Sample.list_text_1
                                     [(Sample.scan_dir, Some Sample.folder_A)]) tt)))))
         steps_A.
Proof.
  refine (proj1 (ok_of_method_A_means_all_done Sample.accepting Sample.scan_dir PNone None
                   "*_Calibrated_Cameras_*.xml" 250000 250000 false false false
                   (Sample.host Sample.list_text_1
                      [(Sample.scan_dir, Some Sample.folder_A)]) tt _ _)).
  lazy. reflexivity.
Defined.

End EndingFacts.

(** ** The fit mask in a run *)

Module FitMaskRun.
Import Str FS Spec Monitor MonitorFacts Exec Sig FitMask FitMaskFacts Batch Ending EndingFacts.

(** The step at place [j] of the chain is the call of one method. *)
Ltac stage_returned Hrun j :=
  let c := fresh "c" in let v := fresh "v" in
  let Hin := fresh "Hin" in let Hst := fresh "Hst" in
  destruct (StepsFacts.run_done _ _ _ _ Hrun j) as (c & v & Hin & Hst & _); [lia|];
  exists c, v; split; [exact Hin|];
  revert Hst; generalize (signature c); StepsFacts.by_method.

Lemma lock_of_locks (c : call) (n : nat) : forall i,
  In c (locks_from i n) -> exists j, c = lock j.
Proof.
  induction n as [|n IH]; intros i; cbn [locks_from In]; [intros []|].
  intros [<-|H]; eauto.
Qed.

(** A write that did not return is an assignment that raised. *)
Lemma writes_in (log : list event) (c : call) (b : bool) :
  In (c, b) (writes log) -> exists r, In (Ev c r) log /\ b = Snapshot.returned r.
Proof.
  induction log as [|[c' r'|st t] log IH]; cbn [writes]; [intros []| |].
  - destruct (is_write c').
    + intros [H|H]; [inversion H; subst; exists r'; split; [now left|reflexivity]|].
      destruct (IH H) as (r & Hin & Hb). exists r. split; [now right|exact Hb].
    + intros H. destruct (IH H) as (r & Hin & Hb). exists r. split; [now right|exact Hb].
  - intros H. destruct (IH H) as (r & Hin & Hb). exists r. split; [now right|exact Hb].
Qed.

(** Locks that were all requested are all in force unless the engine
    refused one. *)
Lemma locks_in_force (log : list event) (i n : nat) :
  map fst (writes log) = locks_from i n ->
  ~ lock_refused log -> writes_returned log.
Proof.
  intros Hw Hn. unfold writes_returned. apply Forall_forall. intros [c b] Hin.
  cbn [snd]. destruct b; [reflexivity|]. exfalso. apply Hn.
  assert (Hc : In c (locks_from i n)).
  { rewrite <- Hw. change c with (fst (c, false)). now apply in_map. }
  destruct (lock_of_locks _ _ _ Hc) as [j ->].
  destruct (writes_in _ _ _ Hin) as (r & Hr & Hb).
  destruct r as [v|e]; [discriminate Hb|]. exists j, e. exact Hr.
Qed.

Section Engine.
Context {E : Type}.
Variable respond : E -> call -> reply * E.

(** A unit of Method B that is reported [ok]: the matching, the alignment
    and the optimization returned. *)
Lemma ok_B_matching_returned
      (scan_dir : path) (f_px : Q) (crs : pyval) (d : fs) (s : E) (msg : string) :
  fst (MethodB.process_scan respond scan_dir f_px crs (start d s)) = Val ("ok", msg) ->
  let log := w_log (snd (MethodB.process_scan respond scan_dir f_px crs (start d s))) in
  returned log "matchPhotos" /\ returned log "alignCameras"
  /\ returned log "optimizeCameras".
Proof.
  destruct (Validation.process_scan_B_resolution respond scan_dir f_px crs (start d s))
    as [(uid & campos & Hf & _ & _ & Heq)|(reason & _ & Heq)];
    rewrite Heq; [|discriminate].
  set (ds := remove_all "__DISC3D" (name scan_dir)) in *.
  set (imgs := edof_images (listdir (w_fs (start d s)) scan_dir) uid) in *.
  set (cp := path_str (child scan_dir (e_name campos))) in *.
  pose proof (stages_with _ _ _ (start d s) eq_refl
                (run_pipeline_B_done respond scan_dir uid ds imgs cp f_px crs)) as Hs.
  destruct (MethodB.run_pipeline respond scan_dir uid ds imgs cp f_px crs (start d s))
    as [[r|e] w']; [|discriminate].
  cbn [fst snd]. intros Hr. injection Hr as ->.
  destruct Hs as (q & Hrun & Hq). rewrite (Hq eq_refl) in Hrun.
  split; [|split]; [stage_returned Hrun 4|stage_returned Hrun 5|stage_returned Hrun 6].
Qed.

Lemma ok_A_matching_returned
      (scan_dir : path) (crs : pyval) (gpu : option Z) (xml_glob : string)
      (kl tl : Z) (kk kd km : bool) (d : fs) (s : E) (msg : string) :
  fst (MethodA.process_scan respond scan_dir crs gpu xml_glob kl tl kk kd km (start d s))
  = Val ("ok", msg) ->
  let log := w_log (snd (MethodA.process_scan respond scan_dir crs gpu xml_glob
                           kl tl kk kd km (start d s))) in
  returned log "matchPhotos" /\ returned log "alignCameras".
Proof.
  destruct (Validation.process_scan_A_resolution respond scan_dir crs gpu xml_glob
              kl tl kk kd km (start d s))
    as [(uid & xml & w1 & Hf & _ & Hmk & _ & Hx & [_ Hlog] & Heq)
       |[(reason & w1 & _ & _ & Heq)|(e & w1 & _ & Heq & _)]];
    rewrite Heq; [|discriminate|discriminate].
  set (ds := remove_all "__DISC3D" (name scan_dir)) in *.
  set (imgs := edof_images (listdir (w_fs (start d s)) scan_dir) uid) in *.
  pose proof (stages_with _ _ _ w1 Hlog
                (run_pipeline_A_done respond scan_dir uid ds imgs xml crs gpu kl tl kk kd km))
    as Hs.
  destruct (MethodA.run_pipeline respond scan_dir uid ds imgs xml crs gpu kl tl kk kd km w1)
    as [[r|e] w']; [|discriminate].
  cbn [fst snd]. intros Hr. injection Hr as ->.
  destruct Hs as (q & Hrun & Hq). rewrite (Hq eq_refl) in Hrun.
  split; [stage_returned Hrun 3|stage_returned Hrun 4].
Qed.

End Engine.

(** C2 as stated fails for Method A: the engine refuses the lock of the
    one sensor (the assignment raises), the script passes over it (lines
    122-125) and goes on to [matchPhotos]; the unit is reported [ok] with
    the sensor not locked. *)
Lemma refused_lock_is_passed_over :
  let run := MethodA.process_scan (Sample.failing_at 9 operation_error)
               Sample.scan_dir PNone None "*_Calibrated_Cameras_*.xml"
               250000 250000 false false false
               (start (Sample.host Sample.list_text_1
                         [(Sample.scan_dir, Some Sample.folder_A)]) 0) in
  (exists msg, fst run = Val ("ok", msg))
  /\ writes (w_log (snd run)) = [(lock 0, false)]
  /\ nth_error (w_log (snd run)) 9 = Some (Ev (lock 0) (Threw operation_error))
  /\ nth_error (w_log (snd run)) 10
     = Some (Ev (Invoke Chunk "matchPhotos" [] (MethodA.match_primary 250000 250000 false))
                (Returned PNone)).
Proof. vm_compute. split; [eexists; reflexivity|repeat split]. Qed.

(** C2, amended.  For every engine, every folder and every unit, in the
    log of [process_scan]:
    - Method B: when a matching or alignment call is made, the writes to
      the calibration and to the sensors so far are exactly the seeding, and
      each of them returned ([seeded_before_matching]): [f] is the constant
      of the caller, [cx cy k1 k2 k3 k4 p1 p2 b1 b2] are zero, and the
      calibration is given to the first sensor, not locked.  Every
      [optimizeCameras] call sets [fit_f] and no other flag, and passes the
      flags of the other terms as [False]; no other call sets a fit flag
      ([only_f_fitted]).  A unit reported [ok] has made the whole seeding,
      and its matching, alignment and optimization returned;
    - Method A: when a matching or alignment call is made, the sensors
      were read and [fixed_calibration = True] was requested for each of
      them, in order ([locks_requested_before_matching]); the locks are
      all in force unless the engine refused one, and a refused lock is
      passed over.  No call sets a fit flag, and every [optimizeCameras]
      call passes the flag of [f] and of the other terms as [False]
      ([nothing_fitted]).  A unit reported [ok] has read the sensors and
      requested the lock of each, and its matching and alignment returned;
    - both: once a matching or alignment call was made, no write to the
      calibration or to a sensor and no import of cameras follows
      ([untouched_after_matching]). *)
Theorem fit_mask_requested_before_matching
        {E : Type} (respond : E -> call -> reply * E)
        (scan_dir : path) (f_px : Q) (crs : pyval) (gpu : option Z)
        (xml_glob : string) (kl tl : Z) (kk kd km : bool) (d : fs) (s : E) :
  let run_B := MethodB.process_scan respond scan_dir f_px crs (start d s) in
  let run_A := MethodA.process_scan respond scan_dir crs gpu xml_glob
                 kl tl kk kd km (start d s) in
  let log_B := w_log (snd run_B) in
  let log_A := w_log (snd run_A) in
  (seeded_before_matching f_px log_B /\ only_f_fitted log_B
   /\ untouched_after_matching log_B
   /\ (forall msg, fst run_B = Val ("ok", msg) ->
         writes log_B = map (fun w => (w, true)) (seed_B f_px)
         /\ returned log_B "matchPhotos" /\ returned log_B "alignCameras"
         /\ returned log_B "optimizeCameras"))
  /\ (locks_requested_before_matching log_A /\ nothing_fitted log_A
      /\ untouched_after_matching log_A
      /\ (forall pre c r post,
            log_A = (pre ++ Ev c r :: post)%list -> is_matching c = true ->
            ~ lock_refused pre -> writes_returned pre)
      /\ (forall msg, fst run_A = Val ("ok", msg) ->
            (exists v, In (Ev read_sensors (Returned v)) log_A
                       /\ map fst (writes log_A) = locks_from 0 (sensor_count v))
            /\ returned log_A "matchPhotos" /\ returned log_A "alignCameras")).
Proof.
  cbv zeta. split.
  - pose proof (process_scan_B_matched respond scan_dir f_px crs (start d s) eq_refl) as Hm.
    destruct (moves_run step_B (Pending (seed_B f_px))
                (MethodB.process_scan respond scan_dir f_px crs) _ _
                (start d s) eq_refl
                (process_scan_B_mask respond scan_dir f_px crs)) as [q Hq].
    split; [exact (run_seeded_before_matching _ _ _ Hq)|].
    split; [exact (run_only_f_fitted _ _ _ Hq)|].
    split; [exact (run_untouched_B _ _ _ Hq)|].
    intros msg Hok. split; [|exact (ok_B_matching_returned respond _ _ _ _ _ _ Hok)].
    destruct (MethodB.process_scan respond scan_dir f_px crs (start d s)) as [[r|e] w'];
      [|discriminate Hok].
    cbn [fst snd] in *. injection Hok as ->.
    destruct Hm as (q' & Hq' & Hm). unfold at_state in Hq'.
    rewrite (Hm eq_refl) in Hq'. exact (run_seeded _ _ _ Hq').
  - pose proof (process_scan_A_matched respond scan_dir crs gpu xml_glob kl tl kk kd km
                  (start d s) eq_refl) as Hm.
    destruct (moves_run step_A Unread
                (MethodA.process_scan respond scan_dir crs gpu xml_glob kl tl kk kd km)
                _ _ (start d s) eq_refl
                (process_scan_A_mask respond scan_dir crs gpu xml_glob kl tl kk kd km))
      as [q Hq].
    pose proof (run_locks_requested_before_matching _ _ Hq) as Hlock.
    split; [exact Hlock|].
    split; [exact (run_nothing_fitted _ _ _ Hq)|].
    split; [exact (run_untouched_A _ _ _ Hq)|].
    split.
    + intros pre c r post Hlog Hc.
      destruct (Hlock pre c r post Hlog Hc) as (v & _ & Hw).
      exact (locks_in_force _ _ _ Hw).
    + intros msg Hok. split; [|exact (ok_A_matching_returned respond _ _ _ _ _ _ _ _ _ _ _ _ Hok)].
      destruct (MethodA.process_scan respond scan_dir crs gpu xml_glob kl tl kk kd km
                  (start d s)) as [[r|e] w']; [|discriminate Hok].
      cbn [fst snd] in *. injection Hok as ->.
      destruct Hm as (q' & Hq' & Hm). unfold at_state in Hq'.
      rewrite (Hm eq_refl) in Hq'. exact (run_locked _ _ Hq').
Qed.

End FitMaskRun.

(** ** What the engine is handed *)

Module CollectFacts.
Import Str FS Sig Monitor MonitorFacts Exec Follow Batch Spec Names Collect.

Lemma selected_snoc (sel : call -> bool) (log : list event) (ev : event) :
  selected sel (log ++ [ev])
  = (selected sel log ++ match ev with
                         | Ev c _ => if sel c then [c] else []
                         | Printed _ _ => []
                         end)%list.
Proof.
  unfold selected, Log.calls. rewrite flat_map_app, filter_app. f_equal.
  destruct ev as [c r|st t]; cbn; [|reflexivity]. now destruct (sel c).
Qed.

Lemma run_selected (sel : call -> bool) (log : list event) :
  run (step sel) [] log = Some (selected sel log).
Proof.
  induction log as [|ev log IH] using rev_ind; [reflexivity|].
  rewrite run_snoc, IH, selected_snoc. destruct ev as [c r|st t]; cbn [feed step].
  - destruct (sel c); [reflexivity|now rewrite app_nil_r].
  - now rewrite app_nil_r.
Qed.

(** From an empty log, what the monitor says at the end is said of the
    calls selected from the log. *)
Lemma selected_with {E A} (sel : call -> bool) (m : M E A) (P : list call -> Prop)
      (w : world E) :
  w_log w = [] ->
  moves (step sel) [] [] m (fun _ q' => P q') (fun _ q' => P q') ->
  P (selected sel (w_log (snd (m w)))).
Proof.
  intros Hl Hm. specialize (Hm w). unfold at_state in Hm. rewrite Hl in Hm.
  specialize (Hm eq_refl). destruct (m w) as [[a|e] w']; destruct Hm as (q & Hq & HQ);
    cbn [snd]; rewrite run_selected in Hq; now inversion Hq; subst.
Qed.

Lemma selected_in (sel : call -> bool) (log : list event) (c : call) (r : reply) :
  In (Ev c r) log -> sel c = true -> In c (selected sel log).
Proof.
  intros Hin Hs. unfold selected. apply filter_In. split; [|exact Hs].
  unfold Log.calls. apply in_flat_map. exists (Ev c r). split; [exact Hin|now left].
Qed.

Ltac collected :=
  cbn [feed step];
  cbv [names_a_file governed is_method signature];
  cbn [String.eqb Ascii.eqb Bool.eqb orb andb].

Ltac keep_allowed :=
  idtac;
  lazymatch goal with
  | |- Monitor.moves _ _ _ _ _ (fun _ q' => @?P q') =>
      eapply moves_bind with (R := fun _ => P)
  end.

Ltac all_allowed :=
  first [ assumption
        | apply Forall_nil
        | apply Forall_cons; [cbn [In app]; solve [auto 8] | all_allowed]
        | apply Forall_app; split; all_allowed ].

Lemma insert_sorted_strongly (x : string) (l : list string) :
  StronglySorted (fun a b => Str.leb a b = true) l ->
  StronglySorted (fun a b => Str.leb a b = true) (insert_sorted x l).
Proof.
  induction 1 as [|y l Hl IH Hy]; cbn [insert_sorted].
  - repeat constructor.
  - destruct (Str.leb x y) eqn:Hxy.
    + constructor; [now constructor|]. constructor; [exact Hxy|].
      eapply Forall_impl; [|exact Hy]. intros z Hz. cbv beta in *.
      eapply SortFacts.leb_trans; eauto.
    + constructor; [exact IH|].
      assert (Hyx : Str.leb y x = true).
      { destruct (String.leb_total x y) as [H0|H0]; [|exact H0].
        unfold Str.leb in Hxy. congruence. }
      apply Forall_forall. intros z Hz.
      apply (Permutation_in _ (Permutation_sym (SortFacts.insert_sorted_perm x l))) in Hz.
      destruct Hz as [<-|Hz]; [exact Hyx|].
      rewrite Forall_forall in Hy. now apply Hy.
Qed.

Lemma sorted_strongly (l : list string) :
  StronglySorted (fun a b => Str.leb a b = true) (sorted l).
Proof.
  induction l as [|x l IH]; cbn [sorted]; [constructor|].
  now apply insert_sorted_strongly.
Qed.

Section Engine.
Context {E : Type}.
Variable respond : E -> call -> reply * E.

Local Abbreviation only sel allowed m :=
  (moves (E:=E) (step sel) [] [] m
         (fun _ q' => Forall (fun c => In c allowed) q')
         (fun _ q' => Forall (fun c => In c allowed) q')).

Lemma run_pipeline_B_files (scan_dir : path) (uid ds : string) (imgs : list string)
      (campos : string) (f_px : Q) (crs : pyval) :
  only names_a_file (file_calls_B scan_dir uid ds imgs campos crs)
       (MethodB.run_pipeline respond scan_dir uid ds imgs campos f_px crs).
Proof.
  unfold MethodB.run_pipeline, file_calls_B, photo_paths, cams_xml_name.
  follow_using collected all_allowed keep_allowed fail.
Qed.

Lemma lock_from_files (allowed : list call) (n : nat) :
  forall i q, Forall (fun c => In c allowed) q ->
              moves (E:=E) (step names_a_file) [] q (MethodA.lock_from respond i n)
                    (fun _ q' => Forall (fun c => In c allowed) q')
                    (fun _ q' => Forall (fun c => In c allowed) q').
Proof.
  induction n as [|n IH]; intros i q Hq; cbn [MethodA.lock_from].
  - follow_using collected all_allowed keep_allowed fail.
  - follow_using collected all_allowed keep_allowed ltac:(apply IH; assumption).
Qed.

Lemma run_pipeline_A_files (scan_dir : path) (uid ds : string) (imgs : list string)
      (xml : string) (crs : pyval) (gpu : option Z) (kl tl : Z) (kk kd km : bool) :
  only names_a_file (file_calls_A scan_dir uid imgs xml crs)
       (MethodA.run_pipeline respond scan_dir uid ds imgs xml crs gpu kl tl kk kd km).
Proof.
  unfold MethodA.run_pipeline, file_calls_A, photo_paths.
  follow_using collected all_allowed keep_allowed
    ltac:(apply lock_from_files; assumption).
Qed.

Lemma lock_from_governed (allowed : list call) (n : nat) :
  forall i q, Forall (fun c => In c allowed) q ->
              moves (E:=E) (step governed) [] q (MethodA.lock_from respond i n)
                    (fun _ q' => Forall (fun c => In c allowed) q')
                    (fun _ q' => Forall (fun c => In c allowed) q').
Proof.
  induction n as [|n IH]; intros i q Hq; cbn [MethodA.lock_from].
  - follow_using collected all_allowed keep_allowed fail.
  - follow_using collected all_allowed keep_allowed ltac:(apply IH; assumption).
Qed.

(** Thinning is followed as a whole: whether [removeMatches] is called
    depends on the option and on the answer of the probe together. *)
Lemma thin_project_governed (kl tl : Z) (kk kd km : bool) (q : list call) :
  Forall (fun c => In c (governed_calls kl tl kk kd km)) q ->
  moves (E:=E) (step governed) [] q (MethodA.thin_project respond (negb kd) (negb km))
        (fun _ q' => Forall (fun c => In c (governed_calls kl tl kk kd km)) q')
        (fun _ q' => Forall (fun c => In c (governed_calls kl tl kk kd km)) q').
Proof.
  intros Hq. unfold MethodA.thin_project, governed_calls in *.
  destruct kd, km; cbn [negb app] in *; block_with collected all_allowed.
Qed.

Lemma process_scan_A_governed (scan_dir : path) (crs : pyval) (gpu : option Z)
      (xml_glob : string) (kl tl : Z) (kk kd km : bool) :
  only governed (governed_calls kl tl kk kd km)
       (MethodA.process_scan respond scan_dir crs gpu xml_glob kl tl kk kd km).
Proof.
  unfold MethodA.process_scan, governed_calls.
  follow_using collected all_allowed keep_allowed
    ltac:(first [ apply lock_from_governed; assumption
                | apply (thin_project_governed kl tl kk kd km); assumption ]).
Qed.

(** X16.  The only calls that name a file of the unit are these.  Method B:
    [addPhotos] with the paths of the PNG names of an [<uid>__edof] folder, in
    sorted order; [importReference] with the one CamPos file; [exportCameras]
    with the file of the unit in [models/], in either signature.  Method A,
    for a configured pattern that is empty or of the fragment [plain]:
    [addPhotos] likewise, and [importCameras] with the first match of the
    pattern in [models/], in either signature.  A unit that is rejected logs
    nothing. *)
Theorem engine_gets_the_files_of_the_unit
        (scan_dir : path) (f_px : Q) (crs : pyval) (gpu : option Z) (xml_glob : string)
        (kl tl : Z) (kk kd km : bool) (d : fs) (s : E) :
  let f := listdir d scan_dir in
  let ds := remove_all "__DISC3D" (name scan_dir) in
  let log_B := w_log (snd (MethodB.process_scan respond scan_dir f_px crs (start d s))) in
  let log_A := w_log (snd (MethodA.process_scan respond scan_dir crs gpu xml_glob
                             kl tl kk kd km (start d s))) in
  ((exists uid campos,
       has_edof_folder f uid /\ glob "*__CamPos.txt" f = [campos]
       /\ Forall (fun c => In c (file_calls_B scan_dir uid ds (edof_images f uid)
                                   (path_str (child scan_dir (e_name campos))) crs))
                 (selected names_a_file log_B))
   \/ log_B = [])
  /\ (plain xml_glob = true \/ xml_glob = EmptyString ->
      (exists uid xml,
          has_edof_folder f uid
          /\ MethodA.first_xml xml_glob (models_names f) = Some xml
          /\ Forall (fun c => In c (file_calls_A scan_dir uid (edof_images f uid) xml crs))
                    (selected names_a_file log_A))
      \/ log_A = []).
Proof.
  intros f ds log_B log_A. split; [|intros _].
  - subst log_B.
    destruct (Validation.process_scan_B_resolution respond scan_dir f_px crs (start d s))
      as [(uid & campos & Hf & _ & Hc & Heq)|(reason & _ & Heq)];
      rewrite Heq; [left|now right].
    exists uid, campos. split; [exact Hf|]. split; [exact Hc|].
    apply (selected_with names_a_file _ (fun q => Forall _ q) (start d s) eq_refl).
    apply run_pipeline_B_files.
  - subst log_A.
    destruct (Validation.process_scan_A_resolution respond scan_dir crs gpu xml_glob
                kl tl kk kd km (start d s))
      as [(uid & xml & w1 & Hf & _ & Hmk & _ & Hx & [_ Hlog] & Heq)
         |[(reason & w1 & _ & [_ Hlog] & Heq)|(e & w1 & [_ Hlog] & Heq & _)]];
      rewrite Heq; [left|now right|now right].
    assert (Hne : listdir (w_fs (start d s)) scan_dir <> []).
    { destruct Hf as [names Hn]. intros H0. rewrite H0 in Hn. discriminate Hn. }
    rewrite (XmlSelection.models_names_mkdir scan_dir _ _ Hne Hmk) in Hx.
    exists uid, xml. split; [exact Hf|]. split; [exact Hx|].
    apply (selected_with names_a_file _ (fun q => Forall _ q) w1 Hlog).
    apply run_pipeline_A_files.
Qed.

(** X17.  The options of Method A reach the engine: every [matchPhotos] call
    carries [--key-limit], [--tie-limit] and [--keep-keypoints], in the
    primary and in the fallback signature; with [--keep-depth] the depth maps
    are never cleared, and with [--keep-matches] [removeMatches] is neither
    probed nor called. *)
Theorem options_govern_matching_and_thinning
        (scan_dir : path) (crs : pyval) (gpu : option Z) (xml_glob : string)
        (kl tl : Z) (kk kd km : bool) (d : fs) (s : E) :
  Forall (fun c => In c (governed_calls kl tl kk kd km))
         (selected governed
            (w_log (snd (MethodA.process_scan respond scan_dir crs gpu xml_glob
                           kl tl kk kd km (start d s))))).
Proof.
  apply (selected_with governed _ (fun q => Forall _ q) (start d s) eq_refl).
  apply process_scan_A_governed.
Qed.

End Engine.

(** X18.  The photos of a unit are the names in its image folder that end in
    [.png], lower case, each as often as the folder lists it, in sorted
    order. *)
Theorem photos_are_the_png_names (f : folder) (uid : string) (names : list string) :
  find_entry (uid ++ "__edof") f
  = Some {| e_name := uid ++ "__edof"; e_children := Some names |} ->
  (forall i, In i (edof_images f uid) <-> In i names /\ exists base, i = base ++ ".png")
  /\ Permutation (filter (fnmatch "*.png") names) (edof_images f uid)
  /\ StronglySorted (fun a b => Str.leb a b = true) (edof_images f uid).
Proof.
  intros Hf. unfold edof_images, glob_in. rewrite Hf. split; [|split].
  - intros i. rewrite SortFacts.sorted_in, filter_In.
    now rewrite (GlobFacts.fnmatch_star_suffix ".png" eq_refl).
  - apply SortFacts.sorted_perm.
  - apply sorted_strongly.
Qed.

Lemma photos_are_the_png_names_witness :
  In "a.png" (edof_images Sample.folder_B "067870")
  <-> In "a.png" ["c.png"; "a.png"; "b.png"; "notes.txt"]
      /\ exists base, "a.png" = base ++ ".png".
Proof.
  apply (proj1 (photos_are_the_png_names Sample.folder_B "067870"
                  ["c.png"; "a.png"; "b.png"; "notes.txt"] eq_refl)).
Defined.

End CollectFacts.

(** ** The coordinate system *)

Module CrsFacts.
Import Str FS Sig Monitor MonitorFacts Exec Follow Batch Spec Collect CollectFacts.

Ltac crs_collected :=
  cbn [feed step];
  cbv [sets_crs];
  cbn [String.eqb Ascii.eqb Bool.eqb orb andb].

Ltac crs_allowed := first [ all_allowed | congruence ].

Section Engine.
Context {E : Type}.
Variable respond : E -> call -> reply * E.

Local Abbreviation only allowed m :=
  (moves (E:=E) (step sets_crs) [] [] m
         (fun _ q' => Forall (fun c => In c allowed) q')
         (fun _ q' => Forall (fun c => In c allowed) q')).

Lemma lock_from_crs (allowed : list call) (n : nat) :
  forall i q, Forall (fun c => In c allowed) q ->
              moves (E:=E) (step sets_crs) [] q (MethodA.lock_from respond i n)
                    (fun _ q' => Forall (fun c => In c allowed) q')
                    (fun _ q' => Forall (fun c => In c allowed) q').
Proof.
  induction n as [|n IH]; intros i q Hq; cbn [MethodA.lock_from].
  - follow_using crs_collected crs_allowed keep_allowed fail.
  - follow_using crs_collected crs_allowed keep_allowed ltac:(apply IH; assumption).
Qed.

Lemma process_scan_B_crs (scan_dir : path) (f_px : Q) (crs : pyval) :
  only (crs_calls crs) (MethodB.process_scan respond scan_dir f_px crs).
Proof.
  unfold MethodB.process_scan, crs_calls.
  destruct (truthy crs) eqn:Hc;
    follow_using crs_collected crs_allowed keep_allowed fail.
Qed.

Lemma process_scan_A_crs (scan_dir : path) (crs : pyval) (gpu : option Z)
      (xml_glob : string) (kl tl : Z) (kk kd km : bool) :
  only (crs_calls crs)
       (MethodA.process_scan respond scan_dir crs gpu xml_glob kl tl kk kd km).
Proof.
  unfold MethodA.process_scan, crs_calls.
  destruct (truthy crs) eqn:Hc;
    follow_using crs_collected crs_allowed keep_allowed
      ltac:(apply lock_from_crs; assumption).
Qed.

(** X19.  The coordinate system is optional.  In a unit, the chunk is given
    the coordinate system only when it is truthy: then [crs] is assigned,
    [camera_crs] is probed and assigned, each with that coordinate system;
    with [None] none of these interactions takes place, in either
    method. *)
Theorem crs_is_set_only_when_given
        (scan_dir : path) (f_px : Q) (crs : pyval) (gpu : option Z) (xml_glob : string)
        (kl tl : Z) (kk kd km : bool) (d : fs) (s : E) :
  Forall (fun c => In c (crs_calls crs))
         (selected sets_crs
            (w_log (snd (MethodB.process_scan respond scan_dir f_px crs (start d s)))))
  /\ Forall (fun c => In c (crs_calls crs))
            (selected sets_crs
               (w_log (snd (MethodA.process_scan respond scan_dir crs gpu xml_glob
                              kl tl kk kd km (start d s))))).
Proof.
  split.
  - apply (selected_with sets_crs _ (fun q => Forall _ q) (start d s) eq_refl).
    apply process_scan_B_crs.
  - apply (selected_with sets_crs _ (fun q => Forall _ q) (start d s) eq_refl).
    apply process_scan_A_crs.
Qed.

End Engine.
End CrsFacts.
